(** * Research subsystem: workflow engine, evidence aggregator and TTL cache

    A shallow embedding of the Python sources
      backend/utils/cache_utils.py   (MemoryCache)
      backend/utils/web_utils.py     (dedupe_by_link, expand_and_summarize_web)
      backend/utils/http_utils.py    (is_allowed_url, is_probably_pdf)
      backend/workflows/agents.py    (the six stages and should_replan)
      backend/workflows/graph.py     (the graph with its one back edge)
    and, beside them,
      backend/utils/cache_utils.py   (memoize)
      backend/utils/http_utils.py    (fetch_url, fetch_url_async, post_json)
      backend/workflows/agents.py    (get_concise_summary)
      backend/api/routes.py          (run_pipeline)
      backend/routes/rag_routes.py   (search_mcp_tool)

    Conventions of the embedding.
    - Python [int] is [Z].  A finite Python [float] is an exact rational
      [Q]: no rounding.  A reading of [time.time()] is finite; the one
      infinite float the cache stores, [float('inf')], is a constructor of
      its own ([Never]).  A float computed from data (a rubric score, read
      from the JSON service; the threshold, read from the environment) is
      a [Py.float]: a finite number, an infinity or NaN, with Python's
      comparisons, which are all false on NaN.
    - Python [str] is [string], a string of the code points 0..255:
      whitespace and letter case are Python's on that range.  [None] is
      [None] of [option].
    - A [dict] whose iteration order matters is an association list in
      insertion order; a [dict] object that is shared and mutated lives in a
      heap and is passed around by its address.
    - Upstream services (the text and JSON completion service, the search
      service, page fetching, the thread scheduler, the clock) are inputs
      of the functions that call them: every theorem quantifies over
      whatever they answer. *)

From Stdlib Require Import ZArith QArith Lia Lqa Bool Ascii String Sorted.
From stdpp Require Import base list strings.

Open Scope Z_scope.

(** ** Python helpers *)

Module Py.

(** [x < y] and [x <= y] on finite floats. *)
Definition Qltb (x y : Q) : bool :=
  match (x ?= y)%Q with Lt => true | _ => false end.
Definition Qleb (x y : Q) : bool := Qle_bool x y.

(** A [float] that comes from data: [float(x)] of a JSON number or of a
    string yields a finite number, [inf], [-inf] or [nan] ([json.loads]
    reads the literals [Infinity], [-Infinity] and [NaN], and [float]
    the strings ["inf"], ["-inf"] and ["nan"]). *)
Inductive float := Num (q : Q) | Inf | NegInf | NaN.

(** [x < y]: false as soon as one side is NaN. *)
Definition float_lt (x y : float) : bool :=
  match x, y with
  | Num a, Num b => Qltb a b
  | Num _, Inf => true
  | NegInf, Num _ => true
  | NegInf, Inf => true
  | _, _ => false
  end.

(** [x >= y]: false as soon as one side is NaN. *)
Definition float_ge (x y : float) : bool :=
  match x, y with
  | Num a, Num b => Qleb b a
  | Num _, NegInf => true
  | Inf, Num _ => true
  | Inf, Inf => true
  | Inf, NegInf => true
  | NegInf, NegInf => true
  | _, _ => false
  end.

Definition is_nan (x : float) : bool :=
  match x with NaN => true | _ => false end.

(** [xs[:n]] for an [int] n: a negative bound counts from the end. *)
Definition slice_to {A} (xs : list A) (n : Z) : list A :=
  if 0 <=? n then take (Z.to_nat n) xs
  else take (Z.to_nat (Z.of_nat (length xs) + n)) xs.

(** [len(xs)] *)
Definition len {A} (xs : list A) : Z := Z.of_nat (length xs).

(** [a or b] on strings that may be [None]: the first truthy operand,
    else the last one. *)
Definition truthy (s : option string) : bool :=
  match s with
  | Some s => negb (String.eqb s "")
  | None => false
  end.
Definition or_ (a b : option string) : option string :=
  if truthy a then a else b.

(** [c.isspace()] on the code points 0..255: tab, line feed, vertical
    tab, form feed, carriage return, the four separators 28..31, the
    space, the next-line control U+0085 and the no-break space U+00A0. *)
Definition isspace (c : ascii) : bool :=
  let k := nat_of_ascii c in
  ((9 <=? k) && (k <=? 13) || (28 <=? k) && (k <=? 32)
   || (k =? 133) || (k =? 160))%nat.

Fixpoint lstrip (s : string) : string :=
  match s with
  | String c s' => if isspace c then lstrip s' else s
  | EmptyString => EmptyString
  end.

(** [s.strip()] *)
Definition strip (s : string) : string :=
  String.rev (lstrip (String.rev (lstrip s))).

(** [s.lower()] on the code points 0..255: the upper-case letters are
    A..Z and U+00C0..U+00DE without the multiplication sign U+00D7, each
    32 below its lower-case letter. *)
Definition lower_char (c : ascii) : ascii :=
  let k := nat_of_ascii c in
  if ((65 <=? k) && (k <=? 90)
      || (192 <=? k) && (k <=? 222) && negb (k =? 215))%nat
  then ascii_of_nat (k + 32) else c.

Fixpoint lower (s : string) : string :=
  match s with
  | String c s' => String (lower_char c) (lower s')
  | EmptyString => EmptyString
  end.

(** [s.endswith(suffix)] *)
Definition endswith (s suffix : string) : bool :=
  String.prefix (String.rev suffix) (String.rev s).

(** [sub in s] *)
Definition contains (sub s : string) : bool :=
  match String.index 0 sub s with Some _ => true | None => false end.

(** [s[:n]] for a literal n >= 0. *)
Definition str_take (n : nat) (s : string) : string := String.substring 0 n s.

(** [range(3)] *)
Definition range3 : list Z := [0; 1; 2].

End Py.

(** ** utils/cache_utils.py: MemoryCache *)

Module MemoryCache.

(** The expiration timestamp of an entry: a float, or [float('inf')]. *)
Inductive expiry := At (t : Q) | Never.

(** [expiration > now] *)
Definition expiry_gt (e : expiry) (now : Q) : bool :=
  match e with At t => Py.Qltb now t | Never => true end.

(** [exp <= now] *)
Definition expiry_le (e : expiry) (now : Q) : bool :=
  match e with At t => Py.Qleb t now | Never => false end.

(** [a < b] between two expiration timestamps, as [min] compares keys. *)
Definition expiry_lt (a b : expiry) : bool :=
  match a, b with
  | At x, At y => Py.Qltb x y
  | At _, Never => true
  | Never, _ => false
  end.

(** The order of expiration timestamps: [a <= b]. *)
Definition expiry_order (a b : expiry) : Prop :=
  match a, b with
  | At x, At y => (x <= y)%Q
  | _, Never => True
  | Never, At _ => False
  end.

Record stats := mkStats {
  hits : Z;
  misses : Z;
  evictions : Z;
  insertions : Z;
  size : Z
}.

Section Cache.
Context {K V : Type} `{EqDecision K}.

Definition entry : Type := K * (V * expiry).

(** The object: [self._cache] is a dict, entries in insertion order. *)
Record t := mk {
  max_size : Z;
  default_ttl : Z;
  _cache : list entry;
  statistics : stats
}.

(** *** dict operations *)

(** [key in d] *)
Fixpoint dict_mem (key : K) (d : list entry) : bool :=
  match d with
  | [] => false
  | (k, _) :: d' => if decide (k = key) then true else dict_mem key d'
  end.

(** [d[key]] ([None] stands for KeyError) *)
Fixpoint dict_get (key : K) (d : list entry) : option (V * expiry) :=
  match d with
  | [] => None
  | (k, x) :: d' => if decide (k = key) then Some x else dict_get key d'
  end.

(** [d[key] = x]: an existing key keeps its place, a new key goes last. *)
Fixpoint dict_set (key : K) (x : V * expiry) (d : list entry) : list entry :=
  match d with
  | [] => [(key, x)]
  | (k, y) :: d' =>
      if decide (k = key) then (k, x) :: d' else (k, y) :: dict_set key x d'
  end.

(** [del d[key]] *)
Fixpoint dict_del (key : K) (d : list entry) : list entry :=
  match d with
  | [] => []
  | (k, y) :: d' =>
      if decide (k = key) then d' else (k, y) :: dict_del key d'
  end.

(** [min(d.keys(), key=lambda k: d[k][1])]: the first key among those of
    least expiration; a later key replaces the candidate only when its
    expiration is strictly smaller.  [d[k][1]] is read off the entry of
    [k] itself, a dict holding each key once. *)
Fixpoint min_from (best : K) (best_exp : expiry) (d : list entry) : K :=
  match d with
  | [] => best
  | (k, (_, e)) :: d' =>
      if expiry_lt e best_exp then min_from k e d' else min_from best best_exp d'
  end.

Definition min_key (d : list entry) : option K :=
  match d with
  | [] => None
  | (k, (_, e)) :: d' => Some (min_from k e d')
  end.

(** *** the methods *)

Definition __init__ (max_size ttl : Z) : t :=
  mk max_size ttl [] (mkStats 0 0 0 0 0).

Definition set_cache (c : t) (d : list entry) (s : stats) : t :=
  mk (max_size c) (default_ttl c) d s.

(** [_cleanup_expired], [now] being its reading of the clock. *)
Definition expired_keys (now : Q) (d : list entry) : list K :=
  map fst (filter (fun kv => expiry_le (snd (snd kv)) now = true) d).

Definition _cleanup_expired (now : Q) (c : t) : t :=
  let ks := expired_keys now (_cache c) in
  let d := foldl (fun d k => dict_del k d) (_cache c) ks in
  let s := statistics c in
  set_cache c d
    (mkStats (hits s) (misses s) (evictions s + Py.len ks) (insertions s)
             (Py.len d)).

Definition _evict_oldest (c : t) : t :=
  match min_key (_cache c) with
  | None => c
  | Some oldest_key =>
      let d := dict_del oldest_key (_cache c) in
      let s := statistics c in
      set_cache c d
        (mkStats (hits s) (misses s) (evictions s + 1) (insertions s)
                 (Py.len d))
  end.

(** The expiration computed by [put]: the conditional expression
    [time.time() + (ttl if ttl is not None else self.default_ttl)
       if (ttl != 0) else float('inf')],
    where [None != 0] holds. *)
Definition ttl_is_zero (ttl : option Z) : bool :=
  match ttl with Some n => n =? 0 | None => false end.

Definition expiration (now : Q) (ttl : option Z) (c : t) : expiry :=
  if negb (ttl_is_zero ttl)
  then At (now + inject_Z (match ttl with
                           | Some n => n
                           | None => default_ttl c
                           end))%Q
  else Never.

(** [put]: [now1] is the clock as [_cleanup_expired] reads it, [now2] the
    clock as the expiration is computed. *)
Definition put (now1 now2 : Q) (key : K) (value : V) (ttl : option Z)
    (c : t) : t :=
  let c1 := _cleanup_expired now1 c in
  let c2 :=
    if (max_size c1 <=? Py.len (_cache c1)) && negb (dict_mem key (_cache c1))
    then _evict_oldest c1 else c1 in
  let exp := expiration now2 ttl c2 in
  let d := dict_set key (value, exp) (_cache c2) in
  let s := statistics c2 in
  set_cache c2 d
    (mkStats (hits s) (misses s) (evictions s)
             (if dict_mem key d then insertions s + 1 else insertions s)
             (Py.len d)).

Definition bump_hits (s : stats) : stats :=
  mkStats (hits s + 1) (misses s) (evictions s) (insertions s) (size s).
Definition bump_misses (s : stats) : stats :=
  mkStats (hits s) (misses s + 1) (evictions s) (insertions s) (size s).
Definition with_size (s : stats) (n : Z) : stats :=
  mkStats (hits s) (misses s) (evictions s) (insertions s) n.

(** [get]: the value (or [None]) and the cache afterwards. *)
Definition get (now : Q) (key : K) (c : t) : option V * t :=
  match dict_get key (_cache c) with
  | Some (value, exp) =>
      if expiry_gt exp now
      then (Some value, set_cache c (_cache c) (bump_hits (statistics c)))
      else
        let d := dict_del key (_cache c) in
        (None, set_cache c d (bump_misses (with_size (statistics c) (Py.len d))))
  | None => (None, set_cache c (_cache c) (bump_misses (statistics c)))
  end.

Definition contains (now : Q) (key : K) (c : t) : bool :=
  match dict_get key (_cache c) with
  | Some (_, exp) => expiry_gt exp now
  | None => false
  end.

Definition remove (key : K) (c : t) : bool * t :=
  if dict_mem key (_cache c)
  then
    let d := dict_del key (_cache c) in
    (true, set_cache c d (with_size (statistics c) (Py.len d)))
  else (false, c).

Definition clear (c : t) : t :=
  set_cache c [] (with_size (statistics c) 0).

Definition get_stats (c : t) : stats := statistics c.

(** *** Vocabulary of the properties *)

(** A dict has each key once. *)
Definition dict_ok (d : list entry) : Prop := NoDup (map fst d).

(** No entry has expired at [now]: [expiration > now] for each. *)
Definition none_expired (now : Q) (d : list entry) : Prop :=
  Forall (fun kv => expiry_gt (snd (snd kv)) now = true) d.

(** Operations that follow one another on a cache. *)
Inductive op :=
| OpPut (now1 now2 : Q) (k : K) (v : V) (ttl : option Z)
| OpGet (now : Q) (k : K)
| OpRemove (k : K)
| OpClear.

Definition apply_op (c : t) (o : op) : t :=
  match o with
  | OpPut now1 now2 k v ttl => put now1 now2 k v ttl c
  | OpGet now k => snd (get now k c)
  | OpRemove k => snd (remove k c)
  | OpClear => clear c
  end.

Definition puts_key (key : K) (o : op) : Prop :=
  match o with OpPut _ _ k _ _ => k = key | _ => False end.

(** The cache holds [max_size] entries, none of them expired at [now]. *)
Definition full_and_fresh (now : Q) (c : t) : Prop :=
  dict_ok (_cache c) /\ Py.len (_cache c) = max_size c /\
  none_expired now (_cache c).

(** [put] evicted exactly one entry, the one of least expiration (among
    several of least expiration, the one inserted first: every entry
    before it expires strictly later, every entry after it no sooner),
    counted it, and left the cache at [max_size] entries, the others in
    their order and the new one last. *)
Definition evicts_nearest (now1 now2 : Q) (key : K) (value : V)
    (ttl : option Z) (c : t) : Prop :=
  let c' := put now1 now2 key value ttl c in
  exists before oldest v e after,
    _cache c = before ++ (oldest, (v, e)) :: after /\
    Forall (fun kv => expiry_lt e (snd (snd kv)) = true) before /\
    Forall (fun kv => expiry_order e (snd (snd kv))) after /\
    _cache c' = before ++ after ++ [(key, (value, expiration now2 ttl c))] /\
    evictions (statistics c') = evictions (statistics c) + 1 /\
    Py.len (_cache c') = max_size c /\
    size (statistics c') = max_size c.

(** [put] evicted nothing: the keys are the same, in the same order. *)
Definition evicts_nothing (now1 now2 : Q) (key : K) (value : V)
    (ttl : option Z) (c : t) : Prop :=
  let c' := put now1 now2 key value ttl c in
  map fst (_cache c') = map fst (_cache c) /\
  dict_get key (_cache c') = Some (value, expiration now2 ttl c) /\
  evictions (statistics c') = evictions (statistics c) /\
  Py.len (_cache c') = Py.len (_cache c).

End Cache.

Arguments t : clear implicits.
Arguments entry : clear implicits.
Arguments op : clear implicits.

End MemoryCache.

(** ** The text-completion service and the retry loops around it *)

Module Llm.

(** What one call of [generate_content(prompt)] does, for a caller that
    reads [.text] in the statement of the call: it yields the text of
    the response (a string or [None]), or an exception is raised, by the
    call or by the reading of [.text]. *)
Inductive gen_result :=
| GenText (text : option string)
| GenRaise (err : string).

(** The same for a caller that writes to the state between the call and
    the reading of [.text]: the call raises; or it hands back a response,
    and the reading of its [.text] yields a string or [None], or raises
    (a response without a valid part). *)
Inductive gen_response :=
| CallRaise (err : string)
| RespText (text : option string)
| RespRaise (err : string).

(** [(resp.text or "")] *)
Definition text_or_empty (t : option string) : string :=
  default "" (Py.or_ t (Some "")).

(** ["429" in str(e) and attempt < 2] *)
Definition rate_limited (e : string) (attempt : Z) : bool :=
  Py.contains "429" e && (attempt <? 2).

(** The loop every caller of the service is written as:
<<
    for attempt in range(3):
        try:
            <body>; return / break
        except Exception as e:
            if "429" in str(e) and attempt < 2: sleep_backoff()
            else: <on_error e>; return / break
>>
    [body attempt] is [inl a] when the body completes with [a] and [inr e]
    when it raises [e]; a body that raises has written nothing.  [None]
    is the loop running out of attempts without returning.  (The body of
    [planner] writes to the state before it can raise: its loop is
    [Agents.planner_loop].) *)
Fixpoint retry_loop {A} (range : list Z) (body : Z -> A + string)
    (on_error : string -> A) : option A :=
  match range with
  | [] => None
  | attempt :: rest =>
      match body attempt with
      | inl a => Some a
      | inr e =>
          if rate_limited e attempt then retry_loop rest body on_error
          else Some (on_error e)
      end
  end.

(** The attempt that settles the loop: the earlier ones raised a
    rate-limit error and slept; this one completed, or raised an error the
    loop does not retry. *)
Definition settles {A} (body : Z -> A + string) (attempt : Z) : Prop :=
  0 <= attempt <= 2 /\
  (forall j, 0 <= j < attempt ->
     exists e, body j = inr e /\ rate_limited e j = true) /\
  match body attempt with
  | inl _ => True
  | inr e => rate_limited e attempt = false
  end.

End Llm.

(** ** Evidence records and the heap they live in *)

Module Web.

(** An evidence record: a [Dict[str, Any]] with the keys the program
    reads or writes; [None] is an absent key. *)
Record record := mkRecord {
  title : option string;
  link : option string;
  url : option string;
  snippet : option string;
  displayLink : option string;
  summary : option string;
  n : option Z
}.

Definition set_summary (r : record) (s : string) : record :=
  mkRecord (title r) (link r) (url r) (snippet r) (displayLink r) (Some s) (n r).
Definition set_title (r : record) (s : string) : record :=
  mkRecord (Some s) (link r) (url r) (snippet r) (displayLink r) (summary r) (n r).
Definition set_n (r : record) (i : Z) : record :=
  mkRecord (title r) (link r) (url r) (snippet r) (displayLink r) (summary r) (Some i).

Definition no_keys : record := mkRecord None None None None None None None.

(** Records are objects: the workers and the numbering loop mutate them
    in place, and a queue or a list holds references to them.  A heap is
    the list of the objects allocated so far; an address is a position.
    An address outside the heap would be a dangling reference: [deref]
    reads the empty dict there and [update] changes nothing; the executor
    only ever holds allocated addresses ([aggregate_is_ok]). *)
Abbreviation addr := nat (only parsing).
Abbreviation heap := (list record) (only parsing).

Definition alloc (h : heap) (r : record) : heap * addr := (h ++ [r], length h).
Definition deref (h : heap) (a : addr) : record := default no_keys (h !! a).
Definition update (h : heap) (a : addr) (f : record -> record) : heap :=
  <[a := f (deref h a)]> h.

(** *** utils/web_utils.py: dedupe_by_link *)

(** [(r.get("link") or r.get("url") or "").strip()] *)
Definition link_key (r : record) : string :=
  Py.strip (default "" (Py.or_ (Py.or_ (link r) (url r)) (Some ""))).

(** [k in seen] for the set [seen]. *)
Definition in_seen (k : string) (seen : list string) : bool :=
  existsb (String.eqb k) seen.

(** The loop of [dedupe_by_link], [seen] being the set built so far.  The
    items are whatever holds the records ([read] fetches one): the records
    themselves, or their addresses in a heap. *)
Fixpoint dedupe_loop {A} (read : A -> record) (seen : list string)
    (items : list A) : list A :=
  match items with
  | [] => []
  | r :: rest =>
      let k := link_key (read r) in
      if negb (String.eqb k "") && negb (in_seen k seen)
      then r :: dedupe_loop read (k :: seen) rest
      else dedupe_loop read seen rest
  end.

Definition dedupe_by_link {A} (read : A -> record) (items : list A) : list A :=
  dedupe_loop read [] items.

(** The key of an item, and the set [seen] once the loop has gone
    through [xs]. *)
Definition key {A} (read : A -> record) (x : A) : string := link_key (read x).

Definition seen_after {A} (read : A -> record) (seen : list string) (xs : list A)
    : list string :=
  rev (map (key read) (dedupe_loop read seen xs)) ++ seen.

(** A change of a record that leaves its link, its url and its citation
    index alone. *)
Definition keeps (f : record -> record) : Prop :=
  forall r, link (f r) = link r /\ url (f r) = url r /\ n (f r) = n r.

(** *** utils/http_utils.py *)

Section Http.
(** [urlparse(url).netloc]; [None] when [urlparse] raises. *)
Variable netloc : string -> option string.
Variable ALLOWED_DOMAINS : list string.

Definition is_allowed_url (url : string) : bool :=
  match netloc url with
  | Some host =>
      match ALLOWED_DOMAINS with
      | [] => true
      | _ => existsb (Py.endswith (Py.lower host)) ALLOWED_DOMAINS
      end
  | None => false
  end.

Definition is_probably_pdf (url : string) (content_type : option string) : bool :=
  if Py.endswith (Py.lower url) ".pdf" then true
  else if Py.truthy content_type
          && Py.contains "pdf" (Py.lower (default "" content_type))
       then true
       else false.

(** *** utils/web_utils.py: expand_and_summarize_web *)

(** What [fetch_url(url, timeout=12)] and the reading of the response
    header do: no response, an exception, or a response with its
    content type. *)
Inductive fetch_outcome :=
| FetchNone
| FetchRaise (err : string)
| Fetched (content_type : string).

(** The upstream answers one worker sees.  The page text and the prompt
    built from it reach the record only through the service's answer,
    which is an input here. *)
Record worker_env := mkWorkerEnv {
  fetch : fetch_outcome;
  summarize : Z -> Llm.gen_result
}.

(** The summarisation loop.  [.text.strip()] raises on a response
    without text. *)
Definition summarize_attempt (w : worker_env) (title0 : string) (r : record)
    (attempt : Z) : record + string :=
  match summarize w attempt with
  | Llm.GenText (Some text) => inl (set_title (set_summary r (Py.strip text)) title0)
  | Llm.GenText None => inr "'NoneType' object has no attribute 'strip'"%string
  | Llm.GenRaise e => inr e
  end.

Definition summarize_loop (w : worker_env) (title0 : string) (r : record) : record :=
  default r
    (Llm.retry_loop Py.range3 (summarize_attempt w title0 r)
       (fun e => set_summary r ("Error: " ++ e)%string)).

(** One worker, on the record at address [a]: the heap and the queue
    afterwards.  An early [return] inside [try] still runs the
    [finally] block, which puts the record on the queue once more.  An
    exception of the fetch or of the parsing is caught by the inner
    [except], which goes on to the summarisation with the snippet; with
    [link] a dict nothing else raises outside the summarisation loop, so
    the outer [except] has no path of its own here. *)
Definition expand_and_summarize_web (w : worker_env) (a : addr)
    (hq : heap * list addr) : heap * list addr :=
  let '(h, queue) := hq in
  let lk := deref h a in
  let url0 := default "" (Py.or_ (Py.or_ (link lk) (url lk)) (Some "")) in
  if String.eqb url0 "" || negb (is_allowed_url url0) then
    let h := update h a (fun r => set_summary r "Filtered or invalid URL") in
    let queue := queue ++ [a] in          (* queue.put(link); return *)
    (h, queue ++ [a])                     (* finally: queue.put(link) *)
  else
    let title0 :=
      match title lk with
      | Some t => t
      | None => default "Source"%string (displayLink lk)
      end in
    match fetch w with
    | FetchNone =>
        let h := update h a (fun r =>
                   set_title (set_summary r "Failed to fetch page.") title0) in
        let queue := queue ++ [a] in      (* queue.put(link); return *)
        (h, queue ++ [a])                 (* finally: queue.put(link) *)
    | Fetched ctype =>
        if is_probably_pdf url0 (Some ctype) then
          let h := update h a (fun r =>
                     set_title (set_summary r "PDF detected; skipped parsing.") title0) in
          let queue := queue ++ [a] in    (* queue.put(link); return *)
          (h, queue ++ [a])               (* finally: queue.put(link) *)
        else
          let h := update h a (summarize_loop w title0) in
          (h, queue ++ [a])               (* finally: queue.put(link) *)
    | FetchRaise _ =>
        let h := update h a (summarize_loop w title0) in
        (h, queue ++ [a])                 (* finally: queue.put(link) *)
    end.

(** The paths that leave [expand_and_summarize_web] by an early
    [return]: the URL is empty or filtered, the fetch gave no response,
    or the response is a PDF. *)
Definition early_return (w : worker_env) (lk : record) : bool :=
  let url0 := default ""%string (Py.or_ (Py.or_ (link lk) (url lk)) (Some ""%string)) in
  String.eqb url0 "" || negb (is_allowed_url url0)
  || match fetch w with
     | FetchNone => true
     | Fetched ctype => is_probably_pdf url0 (Some ctype)
     | FetchRaise _ => false
     end.

(** What a worker puts on the queue. *)
Definition worker_puts (w : worker_env) (lk : record) (a : addr) : list addr :=
  if early_return w lk then [a; a] else [a].

End Http.

End Web.

(** ** models/langgraph_models.py *)

Module Models.

Record EvalRubric := mkRubric {
  coverage : Py.float;
  grounding : Py.float;
  coherence : Py.float;
  overall : Py.float;
  replan_needed : bool;
  critique : string
}.

Record QueryState := mkState {
  question : string;
  summary : string;
  subqueries : list string;
  answers : list (string * string);
  final_answer : string;
  evaluation : string;
  evaluation_reason : string;
  feedback : string;
  previous_subqueries : list string;
  bad_subqueries : list string;
  loop_count : Z;
  web_results : list Web.record;
  rag_answer : string;
  rag_summary : string;
  scores : option EvalRubric
}.

(** [QueryState(question=q)]: every other field at its default. *)
Definition initial (q : string) : QueryState :=
  mkState q "" [] [] "" "" "" "" [] [] 0 [] "" "" None.

(** Assignments [state.field = v]. *)
Definition set_summary (s : QueryState) (v : string) : QueryState :=
  mkState (question s) v (subqueries s) (answers s) (final_answer s)
    (evaluation s) (evaluation_reason s) (feedback s) (previous_subqueries s)
    (bad_subqueries s) (loop_count s) (web_results s) (rag_answer s)
    (rag_summary s) (scores s).
Definition set_subqueries (s : QueryState) (v : list string) : QueryState :=
  mkState (question s) (summary s) v (answers s) (final_answer s)
    (evaluation s) (evaluation_reason s) (feedback s) (previous_subqueries s)
    (bad_subqueries s) (loop_count s) (web_results s) (rag_answer s)
    (rag_summary s) (scores s).
Definition set_answers (s : QueryState) (v : list (string * string)) : QueryState :=
  mkState (question s) (summary s) (subqueries s) v (final_answer s)
    (evaluation s) (evaluation_reason s) (feedback s) (previous_subqueries s)
    (bad_subqueries s) (loop_count s) (web_results s) (rag_answer s)
    (rag_summary s) (scores s).
Definition set_final_answer (s : QueryState) (v : string) : QueryState :=
  mkState (question s) (summary s) (subqueries s) (answers s) v
    (evaluation s) (evaluation_reason s) (feedback s) (previous_subqueries s)
    (bad_subqueries s) (loop_count s) (web_results s) (rag_answer s)
    (rag_summary s) (scores s).
Definition set_evaluation (s : QueryState) (v : string) : QueryState :=
  mkState (question s) (summary s) (subqueries s) (answers s) (final_answer s)
    v (evaluation_reason s) (feedback s) (previous_subqueries s)
    (bad_subqueries s) (loop_count s) (web_results s) (rag_answer s)
    (rag_summary s) (scores s).
Definition set_feedback (s : QueryState) (v : string) : QueryState :=
  mkState (question s) (summary s) (subqueries s) (answers s) (final_answer s)
    (evaluation s) (evaluation_reason s) v (previous_subqueries s)
    (bad_subqueries s) (loop_count s) (web_results s) (rag_answer s)
    (rag_summary s) (scores s).
Definition set_previous_subqueries (s : QueryState) (v : list string) : QueryState :=
  mkState (question s) (summary s) (subqueries s) (answers s) (final_answer s)
    (evaluation s) (evaluation_reason s) (feedback s) v
    (bad_subqueries s) (loop_count s) (web_results s) (rag_answer s)
    (rag_summary s) (scores s).
Definition set_bad_subqueries (s : QueryState) (v : list string) : QueryState :=
  mkState (question s) (summary s) (subqueries s) (answers s) (final_answer s)
    (evaluation s) (evaluation_reason s) (feedback s) (previous_subqueries s)
    v (loop_count s) (web_results s) (rag_answer s)
    (rag_summary s) (scores s).
Definition set_loop_count (s : QueryState) (v : Z) : QueryState :=
  mkState (question s) (summary s) (subqueries s) (answers s) (final_answer s)
    (evaluation s) (evaluation_reason s) (feedback s) (previous_subqueries s)
    (bad_subqueries s) v (web_results s) (rag_answer s)
    (rag_summary s) (scores s).
Definition set_web_results (s : QueryState) (v : list Web.record) : QueryState :=
  mkState (question s) (summary s) (subqueries s) (answers s) (final_answer s)
    (evaluation s) (evaluation_reason s) (feedback s) (previous_subqueries s)
    (bad_subqueries s) (loop_count s) v (rag_answer s)
    (rag_summary s) (scores s).
Definition set_rag_answer (s : QueryState) (v : string) : QueryState :=
  mkState (question s) (summary s) (subqueries s) (answers s) (final_answer s)
    (evaluation s) (evaluation_reason s) (feedback s) (previous_subqueries s)
    (bad_subqueries s) (loop_count s) (web_results s) v
    (rag_summary s) (scores s).
Definition set_rag_summary (s : QueryState) (v : string) : QueryState :=
  mkState (question s) (summary s) (subqueries s) (answers s) (final_answer s)
    (evaluation s) (evaluation_reason s) (feedback s) (previous_subqueries s)
    (bad_subqueries s) (loop_count s) (web_results s) (rag_answer s)
    v (scores s).
Definition set_scores (s : QueryState) (v : option EvalRubric) : QueryState :=
  mkState (question s) (summary s) (subqueries s) (answers s) (final_answer s)
    (evaluation s) (evaluation_reason s) (feedback s) (previous_subqueries s)
    (bad_subqueries s) (loop_count s) (web_results s) (rag_answer s)
    (rag_summary s) v.

End Models.

(** ** workflows/agents.py: the stages *)

Module Agents.
Import Models.

(** [web_utils.allowed_url]: a passthrough. *)
Definition allowed_url (url : string) : bool := true.

(** One item of the search service's answer, as [search_with_google_cse]
    reads it ([item.get(key, "")]). *)
Record cse_item := mkItem {
  item_title : string;
  item_link : string;
  item_snippet : string
}.

(** The HTTP request of [search_with_google_cse]: the items of the
    answer, or an exception. *)
Inductive cse_outcome :=
| CseItems (items : list cse_item)
| CseError (err : string).

Definition record_of_item (it : cse_item) : Web.record :=
  Web.mkRecord (Some (item_title it)) (Some (item_link it)) (Some (item_link it))
    (Some (item_snippet it)) None None None.

Fixpoint alloc_all (h : Web.heap) (rs : list Web.record) : Web.heap * list Web.addr :=
  match rs with
  | [] => (h, [])
  | r :: rs' =>
      let '(h1, a) := Web.alloc h r in
      let '(h2, more) := alloc_all h1 rs' in
      (h2, a :: more)
  end.

(** [search_with_google_cse]: it builds one fresh dict per item; whatever
    goes wrong is logged and an empty list returned. *)
Definition search_with_google_cse (o : cse_outcome) (h : Web.heap)
    : Web.heap * list Web.addr :=
  match o with
  | CseItems items => alloc_all h (map record_of_item items)
  | CseError _ => (h, [])
  end.

(** The record [executor] appends when its [try] block raises. *)
Definition placeholder (subq e : string) : Web.record :=
  Web.mkRecord (Some subq) (Some ""%string) None None None
    (Some ("Websearch error: " ++ e)%string) None.

(** How the [try] block of one subquestion ends: every thread started, or
    an exception escaping after [started] threads were started (none, when
    it is the search step that raises). *)
Inductive try_outcome :=
| Started
| Raised (started : nat) (err : string).

(** The queue once every thread is joined: the threads put in an order
    the scheduler decides; [sched] names the thread of each successive
    put, and what it leaves out follows in thread order. *)
Fixpoint interleave (sched : list nat) (puts : list (list Web.addr)) : list Web.addr :=
  match sched with
  | [] => concat puts
  | w :: sched' =>
      match puts !! w with
      | Some (x :: rest) => x :: interleave sched' (<[w := rest]> puts)
      | _ => interleave sched' puts
      end
  end.

(** [get_concise_summary] under [asyncio.wait_for(..., timeout=15)]. *)
Inductive summary_outcome :=
| SummaryText (s : string)
| SummaryTimeout.

(** The RAG request: the answer's [output_text] (or its default) and the
    summary step, or an exception. *)
Inductive rag_outcome :=
| RagAnswer (output_text : string) (s : summary_outcome)
| RagError (err : string).

(** One generation of the JSON service in [evaluator], and the repair
    call made when its text does not parse. *)
Record eval_calls := mkEvalCalls {
  first_call : Llm.gen_result;
  repair_call : Llm.gen_result
}.

(** No record of the heap carries a citation index; every address of a
    list is allocated; what the loop over the subquestions maintains. *)
Definition unnumbered (h : Web.heap) : Prop := Forall (fun r => Web.n r = None) h.

Definition allocated (h : Web.heap) (rs : list Web.addr) : Prop :=
  Forall (fun a => (a < length h)%nat) rs.

Definition aggregate_ok (ha : Web.heap * list Web.addr) : Prop :=
  unnumbered (fst ha) /\ allocated (fst ha) (snd ha).

(** The records [rs] with the citation indices [i + 1], [i + 2], ... *)
Fixpoint numbered (i : Z) (rs : list Web.record) : list Web.record :=
  match rs with
  | [] => []
  | r :: rest => Web.set_n r (i + 1) :: numbered (i + 1) rest
  end.

(** What a stage other than [evaluator] leaves alone. *)
Definition same_verdict (s s' : QueryState) : Prop :=
  loop_count s' = loop_count s /\ evaluation s' = evaluation s /\
  scores s' = scores s.

(** The verdicts of an evaluation that built a rubric, and the state of
    one that gave up on the error [e]. *)
Definition passed (state' : QueryState) : Prop :=
  evaluation state' = "yes"%string /\ feedback state' = ""%string /\
  bad_subqueries state' = [].

Definition sent_back (state state' : QueryState) (rubric : EvalRubric) : Prop :=
  evaluation state' = "no"%string /\
  feedback state' =
    (if String.eqb (critique rubric) "" then "Needs improvement"%string
     else critique rubric) /\
  bad_subqueries state' = subqueries state.

Definition gave_up (state state' : QueryState) (e : string) : Prop :=
  scores state' =
    Some (mkRubric (Py.Num 0) (Py.Num 0) (Py.Num 0) (Py.Num 0) true
            ("Evaluation failed: " ++ e)%string) /\
  evaluation state' = "no"%string /\
  feedback state' = ("Evaluation failed: " ++ e)%string /\
  bad_subqueries state' = subqueries state.

Section Nodes.
(** Configuration ([configure_nodes]). *)
Variable SUBQ_SEARCH_COUNT : Z.
Variable MAX_SOURCES_FOR_CITATIONS : Z.
Variable MIN_OVERALL : Py.float.
Variable MAX_LOOPS : Z.
Variable ALLOWED_DOMAINS : list string.

(** Library functions the stages call. *)
Variable netloc : string -> option string.
(** The list comprehension of [planner] over [resp.text.splitlines()]. *)
Variable parse_subquestions : string -> list string.
(** [json.loads] ([inr]: the exception it raises) and the construction
    [EvalRubric(coverage=float(data.get("coverage", 0.0)), ...)]
    ([inr]: the exception a conversion or the validation raises). *)
Variable json : Type.
Variable json_loads : string -> json + string.
Variable rubric_of_json : json -> EvalRubric + string.

(** *** structured_summarizer *)

Definition structured_summarizer (llm : Z -> Llm.gen_result) (state : QueryState)
    : option QueryState :=
  Llm.retry_loop Py.range3
    (fun attempt =>
       match llm attempt with
       | Llm.GenText t => inl (set_summary state (Py.strip (Llm.text_or_empty t)))
       | Llm.GenRaise e => inr e
       end)
    (fun e => set_summary state ("Error: " ++ e)%string).

(** *** planner *)

(** The loop of [planner]:
<<
    for attempt in range(3):
        try:
            resp = gemini_model.generate_content(prompt)
            state.previous_subqueries = state.subqueries
            state.subqueries = [... for line in (resp.text or "").splitlines() ...]
            return state
        except Exception as e:
            if "429" in str(e) and attempt < 2: sleep_backoff()
            else: state.subqueries = []; return state
>>
    The first assignment is made as soon as the call has handed back a
    response: an exception raised by the reading of [resp.text] finds
    [previous_subqueries] overwritten, and the state stays so through
    the attempts that follow. *)
Fixpoint planner_loop (llm : Z -> Llm.gen_response) (range : list Z)
    (state : QueryState) : option QueryState :=
  match range with
  | [] => None
  | attempt :: rest =>
      let on_exception (state : QueryState) (e : string) :=
        if Llm.rate_limited e attempt then planner_loop llm rest state
        else Some (set_subqueries state []) in
      match llm attempt with
      | Llm.CallRaise e => on_exception state e
      | Llm.RespText t =>
          let state := set_previous_subqueries state (subqueries state) in
          Some (set_subqueries state (parse_subquestions (Llm.text_or_empty t)))
      | Llm.RespRaise e =>
          let state := set_previous_subqueries state (subqueries state) in
          on_exception state e
      end
  end.

Definition planner (llm : Z -> Llm.gen_response) (state : QueryState)
    : option QueryState :=
  planner_loop llm Py.range3 state.

(** *** executor *)

Record subq_env := mkSubqEnv {
  cse : cse_outcome;
  try_ends : try_outcome;
  worker : nat -> Web.worker_env;
  schedule : list nat
}.

Record executor_env := mkExecutorEnv {
  rag : rag_outcome;
  subq_envs : nat -> subq_env
}.

Definition executor_rag (o : rag_outcome) (state : QueryState) : QueryState :=
  match o with
  | RagAnswer text s =>
      let state := set_rag_answer state text in
      match s with
      | SummaryText s => set_rag_summary state s
      | SummaryTimeout =>
          set_rag_summary state
            (if negb (String.eqb text "")
             then (Py.str_take 200 text ++ "...")%string
             else "No summary available"%string)
      end
  | RagError e =>
      let state := set_rag_answer state ("RAG Error: " ++ e)%string in
      set_rag_summary state "RAG summary failed."
  end.

(** The threads of one subquestion: thread [i] runs the worker on the
    [i]-th link with a queue of its own here; the shared queue is an
    interleaving of what they put. *)
Fixpoint run_workers (env : nat -> Web.worker_env) (i : nat)
    (links : list Web.addr) (h : Web.heap) : Web.heap * list (list Web.addr) :=
  match links with
  | [] => (h, [])
  | a :: rest =>
      let '(h1, puts) :=
        Web.expand_and_summarize_web netloc ALLOWED_DOMAINS (env i) a (h, []) in
      let '(h2, more) := run_workers env (S i) rest h1 in
      (h2, puts :: more)
  end.

(** The body of [for subq in state.subqueries]. *)
Definition executor_subq (env : subq_env) (subq : string)
    (ha : Web.heap * list Web.addr) : Web.heap * list Web.addr :=
  let '(h, aggregated) := ha in
  let '(h, links) := search_with_google_cse (cse env) h in
  let links :=
    Py.slice_to
      (filter (fun l =>
                 allowed_url
                   (default "" (Py.or_ (Web.link (Web.deref h l))
                                       (Web.url (Web.deref h l)))) = true)
              links)
      SUBQ_SEARCH_COUNT in
  let '(h, aggregated, threads) :=
    match try_ends env with
    | Started => (h, aggregated, links)
    | Raised started e =>
        let '(h, p) := Web.alloc h (placeholder subq e) in
        (h, aggregated ++ [p], take started links)
    end in
  let '(h, puts) := run_workers (worker env) 0 threads h in
  (h, aggregated ++ interleave (schedule env) puts).

Fixpoint executor_loop (envs : nat -> subq_env) (i : nat) (subqs : list string)
    (ha : Web.heap * list Web.addr) : Web.heap * list Web.addr :=
  match subqs with
  | [] => ha
  | subq :: rest => executor_loop envs (S i) rest (executor_subq (envs i) subq ha)
  end.

(** [aggregated] when the loop over the subquestions is over. *)
Definition aggregate (env : executor_env) (state : QueryState)
    : Web.heap * list Web.addr :=
  executor_loop (subq_envs env) 0 (subqueries state) ([], []).

(** [for i, r in enumerate(rs): r["n"] = i + 1], from index [i]. *)
Fixpoint number_from (i : Z) (rs : list Web.addr) (h : Web.heap) : Web.heap :=
  match rs with
  | [] => h
  | r :: rest =>
      number_from (i + 1) rest (Web.update h r (fun x => Web.set_n x (i + 1)))
  end.

Definition executor (env : executor_env) (state : QueryState) : QueryState :=
  let state := executor_rag (rag env) state in
  let '(h, aggregated) := aggregate env state in
  let web := Web.dedupe_by_link (Web.deref h) aggregated in
  let h := number_from 0 (Py.slice_to web MAX_SOURCES_FOR_CITATIONS) h in
  set_web_results state (map (Web.deref h) web).

(** *** answer_subquestions *)

(** [answers[key] = v] *)
Fixpoint answers_set (key v : string) (d : list (string * string))
    : list (string * string) :=
  match d with
  | [] => [(key, v)]
  | (k, x) :: d' =>
      if String.eqb k key then (k, v) :: d' else (k, x) :: answers_set key v d'
  end.

Fixpoint answer_loop (llm : nat -> Z -> Llm.gen_result) (i : nat)
    (subqs : list string) (answers : list (string * string))
    : list (string * string) :=
  match subqs with
  | [] => answers
  | subquery :: rest =>
      let answers :=
        default answers
          (Llm.retry_loop Py.range3
             (fun attempt =>
                match llm i attempt with
                | Llm.GenText t =>
                    inl (answers_set subquery (Py.strip (Llm.text_or_empty t)) answers)
                | Llm.GenRaise e => inr e
                end)
             (fun e => answers_set subquery ("Gemini error: " ++ e)%string answers)) in
      answer_loop llm (S i) rest answers
  end.

Definition answer_subquestions (llm : nat -> Z -> Llm.gen_result)
    (state : QueryState) : QueryState :=
  set_answers state (answer_loop llm 0 (subqueries state) []).

(** *** synthesizer *)

Definition synthesizer (llm : Z -> Llm.gen_result) (state : QueryState)
    : option QueryState :=
  Llm.retry_loop Py.range3
    (fun attempt =>
       match llm attempt with
       | Llm.GenText t => inl (set_final_answer state (Py.strip (Llm.text_or_empty t)))
       | Llm.GenRaise e => inr e
       end)
    (fun e => set_final_answer state ("Error: " ++ e)%string).

(** *** evaluator *)

(** The branch taken once a rubric is built. *)
Definition evaluator_verdict (state : QueryState) (rubric : EvalRubric) : QueryState :=
  let state := set_scores state (Some rubric) in
  if Py.float_ge (overall rubric) MIN_OVERALL then
    set_bad_subqueries (set_feedback (set_evaluation state "yes") "") []
  else
    let state := set_evaluation state "no" in
    let state :=
      set_feedback state
        (if negb (String.eqb (critique rubric) "") then critique rubric
         else "Needs improvement"%string) in
    set_bad_subqueries state (subqueries state).

(** The [except] branch that gives up:
    [EvalRubric(overall=0.0, replan_needed=True, critique=...)], the other
    scores at their default 0.0. *)
Definition evaluator_failed (state : QueryState) (e : string) : QueryState :=
  let rubric :=
    mkRubric (Py.Num 0) (Py.Num 0) (Py.Num 0) (Py.Num 0) true
      ("Evaluation failed: " ++ e)%string in
  let state := set_scores state (Some rubric) in
  let state := set_evaluation state "no" in
  let state := set_feedback state (critique rubric) in
  set_bad_subqueries state (subqueries state).

(** The body of [try] for one attempt. *)
Definition evaluator_attempt (calls : Z -> eval_calls) (state : QueryState)
    (attempt : Z) : QueryState + string :=
  match first_call (calls attempt) with
  | Llm.GenRaise e => inr e
  | Llm.GenText t =>
      let raw := Py.strip (Llm.text_or_empty t) in
      if String.eqb raw "" then inr "Empty eval response"%string
      else
        let data :=
          match json_loads raw with
          | inl data => inl data
          | inr _ =>
              match repair_call (calls attempt) with
              | Llm.GenRaise e => inr e
              | Llm.GenText t' => json_loads (Py.strip (Llm.text_or_empty t'))
              end
          end in
        match data with
        | inr e => inr e
        | inl data =>
            match rubric_of_json data with
            | inr e => inr e
            | inl rubric => inl (evaluator_verdict state rubric)
            end
        end
  end.

Definition evaluator (calls : Z -> eval_calls) (state : QueryState)
    : option QueryState :=
  let state := set_loop_count state (loop_count state + 1) in
  Llm.retry_loop Py.range3 (evaluator_attempt calls state) (evaluator_failed state).

(** *** Vocabulary of the evaluator's properties *)

(** What the answers [c] of the service at one attempt amount to, read
    off the two calls and the two library functions.  The attempt
    succeeds with [rubric]: the text of the first call is not empty and
    parses, or it does not parse and the text of the repair call does;
    and a rubric is built from the data. *)
Inductive attempt_succeeds (c : eval_calls) (rubric : EvalRubric) : Prop :=
| succeeds_at_once (t : option string) (data : json) :
    first_call c = Llm.GenText t ->
    Py.strip (Llm.text_or_empty t) <> ""%string ->
    json_loads (Py.strip (Llm.text_or_empty t)) = inl data ->
    rubric_of_json data = inl rubric ->
    attempt_succeeds c rubric
| succeeds_repaired (t t' : option string) (e : string) (data : json) :
    first_call c = Llm.GenText t ->
    Py.strip (Llm.text_or_empty t) <> ""%string ->
    json_loads (Py.strip (Llm.text_or_empty t)) = inr e ->
    repair_call c = Llm.GenText t' ->
    json_loads (Py.strip (Llm.text_or_empty t')) = inl data ->
    rubric_of_json data = inl rubric ->
    attempt_succeeds c rubric.

(** The attempt fails with the exception [err]: the first call raises;
    its text is empty; the data it parses to makes no rubric; or the
    text does not parse and the repair call raises, or its text does not
    parse, or the data it parses to makes no rubric. *)
Inductive attempt_fails (c : eval_calls) (err : string) : Prop :=
| fails_first_call :
    first_call c = Llm.GenRaise err ->
    attempt_fails c err
| fails_empty (t : option string) :
    first_call c = Llm.GenText t ->
    Py.strip (Llm.text_or_empty t) = ""%string ->
    err = "Empty eval response"%string ->
    attempt_fails c err
| fails_rubric (t : option string) (data : json) :
    first_call c = Llm.GenText t ->
    Py.strip (Llm.text_or_empty t) <> ""%string ->
    json_loads (Py.strip (Llm.text_or_empty t)) = inl data ->
    rubric_of_json data = inr err ->
    attempt_fails c err
| fails_repair_call (t : option string) (e : string) :
    first_call c = Llm.GenText t ->
    Py.strip (Llm.text_or_empty t) <> ""%string ->
    json_loads (Py.strip (Llm.text_or_empty t)) = inr e ->
    repair_call c = Llm.GenRaise err ->
    attempt_fails c err
| fails_repaired_text (t t' : option string) (e : string) :
    first_call c = Llm.GenText t ->
    Py.strip (Llm.text_or_empty t) <> ""%string ->
    json_loads (Py.strip (Llm.text_or_empty t)) = inr e ->
    repair_call c = Llm.GenText t' ->
    json_loads (Py.strip (Llm.text_or_empty t')) = inr err ->
    attempt_fails c err
| fails_repaired_rubric (t t' : option string) (e : string) (data : json) :
    first_call c = Llm.GenText t ->
    Py.strip (Llm.text_or_empty t) <> ""%string ->
    json_loads (Py.strip (Llm.text_or_empty t)) = inr e ->
    repair_call c = Llm.GenText t' ->
    json_loads (Py.strip (Llm.text_or_empty t')) = inl data ->
    rubric_of_json data = inr err ->
    attempt_fails c err.

(** The attempt at which the evaluation is settled: every earlier
    attempt failed with a rate-limit error, after which the loop sleeps
    and goes on; this one succeeds, or fails with an error the loop does
    not retry. *)
Definition slept_through (calls : Z -> eval_calls) (attempt : Z) : Prop :=
  0 <= attempt <= 2 /\
  (forall j, 0 <= j < attempt ->
     exists e, attempt_fails (calls j) e /\ Llm.rate_limited e j = true).

Definition unrecoverable (calls : Z -> eval_calls) (attempt : Z) (e : string) : Prop :=
  slept_through calls attempt /\
  attempt_fails (calls attempt) e /\ Llm.rate_limited e attempt = false.

Definition succeeds (calls : Z -> eval_calls) (attempt : Z) (rubric : EvalRubric)
    : Prop :=
  slept_through calls attempt /\ attempt_succeeds (calls attempt) rubric.

(** *** should_replan *)

Definition should_replan (state : QueryState) : string :=
  if MAX_LOOPS <=? loop_count state then "end"
  else
    match scores state with
    | Some rubric =>
        if Py.float_lt (overall rubric) MIN_OVERALL then "replan" else "end"
    | None => "end"
    end.

End Nodes.

End Agents.

(** ** workflows/graph.py: the graph and its execution *)

Module Graph.
Import Models.

Inductive node :=
| summarizer | planner | executor | answer_subqs | synthesizer | evaluator.

Inductive target := Node (nd : node) | END.

(** What the upstream services answer during one pass of the loop
    (planner to evaluator), and during a whole run. *)
Record pass_env := mkPassEnv {
  planner_llm : Z -> Llm.gen_response;
  executor_env : Agents.executor_env;
  answer_llm : nat -> Z -> Llm.gen_result;
  synthesizer_llm : Z -> Llm.gen_result;
  evaluator_calls : Z -> Agents.eval_calls
}.

Record env := mkEnv {
  summarizer_llm : Z -> Llm.gen_result;
  passes : nat -> pass_env
}.

(** How a run ends: at [END], on the step limit (GraphRecursionError), or
    on a node that returned no state or an edge without target. *)
Inductive outcome := Finished | OutOfSteps | NodeFailed.

(** The node that follows [nd] on the fixed edges, and the steps from
    [nd] to the end of the pass, [nd] included. *)
Definition next (nd : node) : node :=
  match nd with
  | summarizer => planner
  | planner => executor
  | executor => answer_subqs
  | answer_subqs => synthesizer
  | synthesizer => evaluator
  | evaluator => planner
  end.

Definition to_evaluator (nd : node) : nat :=
  match nd with
  | summarizer => 6
  | planner => 5
  | executor => 4
  | answer_subqs => 3
  | synthesizer => 2
  | evaluator => 1
  end.

Definition is_evaluator (nd : node) : bool :=
  match nd with evaluator => true | _ => false end.

(** Along [steps], entered with the loop count [prev]: an evaluator step
    adds exactly one to the loop count, any other step leaves it as it
    is. *)
Fixpoint counted (prev : Z) (steps : list (node * QueryState)) : Prop :=
  match steps with
  | [] => True
  | (nd, state) :: rest =>
      loop_count state = prev + (if is_evaluator nd then 1 else 0) /\
      counted (loop_count state) rest
  end.

(** A state with a verdict has a rubric. *)
Definition verdict_has_scores (state : QueryState) : Prop :=
  evaluation state <> ""%string -> scores state <> None.

Section Engine.
Variable SUBQ_SEARCH_COUNT : Z.
Variable MAX_SOURCES_FOR_CITATIONS : Z.
Variable MIN_OVERALL : Py.float.
Variable MAX_LOOPS : Z.
Variable ALLOWED_DOMAINS : list string.
Variable netloc : string -> option string.
Variable parse_subquestions : string -> list string.
Variable json : Type.
Variable json_loads : string -> json + string.
Variable rubric_of_json : json -> EvalRubric + string.

(** [graph.add_node]: the function behind each node, in pass [p]. *)
Definition run_node (E : env) (p : nat) (nd : node) (state : QueryState)
    : option QueryState :=
  match nd with
  | summarizer => Agents.structured_summarizer (summarizer_llm E) state
  | planner => Agents.planner parse_subquestions (planner_llm (passes E p)) state
  | executor =>
      Some (Agents.executor SUBQ_SEARCH_COUNT MAX_SOURCES_FOR_CITATIONS
              ALLOWED_DOMAINS netloc (executor_env (passes E p)) state)
  | answer_subqs => Some (Agents.answer_subquestions (answer_llm (passes E p)) state)
  | synthesizer => Agents.synthesizer (synthesizer_llm (passes E p)) state
  | evaluator =>
      Agents.evaluator MIN_OVERALL json json_loads rubric_of_json
        (evaluator_calls (passes E p)) state
  end.

(** [graph.add_edge] and [graph.add_conditional_edges("evaluator",
    should_replan, {"end": END, "replan": "planner"})]. *)
Definition edge (nd : node) (state : QueryState) : option target :=
  match nd with
  | summarizer => Some (Node planner)
  | planner => Some (Node executor)
  | executor => Some (Node answer_subqs)
  | answer_subqs => Some (Node synthesizer)
  | synthesizer => Some (Node evaluator)
  | evaluator =>
      let label := Agents.should_replan MIN_OVERALL MAX_LOOPS state in
      if String.eqb label "end" then Some END
      else if String.eqb label "replan" then Some (Node planner)
      else None
  end.

(** The run from node [nd] in pass [p]: the steps streamed, each the name
    of a node and the state it produced, and how the run ended.
    [limit] is the number of steps left of the [recursion_limit].  The
    engine tests the limit after each step it has streamed, before it
    looks for the nodes to run next, and it has spent one step of the
    limit on the entry: a run of n nodes reaches [END] under a limit of
    n + 1 at least; under a smaller limit it streams as many steps as the
    limit and raises GraphRecursionError, also when the last of them was
    followed by [END]. *)
Fixpoint run_from (limit : nat) (E : env) (p : nat) (nd : node)
    (state : QueryState) : list (node * QueryState) * outcome :=
  match limit with
  | O => ([], OutOfSteps)
  | S limit' =>
      match run_node E p nd state with
      | None => ([], NodeFailed)
      | Some state' =>
          match edge nd state' with
          | None => ([(nd, state')], NodeFailed)
          | Some END =>
              ([(nd, state')],
               match limit' with O => OutOfSteps | S _ => Finished end)
          | Some (Node nd') =>
              let p' := match nd with evaluator => S p | _ => p end in
              let '(steps, out) := run_from limit' E p' nd' state' in
              ((nd, state') :: steps, out)
          end
      end
  end.

(** [set_entry_point("summarizer")] and the run on a question. *)
Definition run (limit : nat) (E : env) (q : string)
    : list (node * QueryState) * outcome :=
  run_from limit E 0 summarizer (initial q).

(** The step limit [api/routes.py] runs the graph with:
    [recursion_limit = MAX_LOOPS * 8]. *)
Definition recursion_limit : nat := Z.to_nat (MAX_LOOPS * 8).

(** The state after the last step, [None] when no node ran. *)
Definition final_state (steps : list (node * QueryState)) : option QueryState :=
  snd <$> last steps.

(** The loop counts along a run, the initial one included. *)
Definition loop_counts (q : string) (steps : list (node * QueryState)) : list Z :=
  loop_count (initial q) :: map (fun s => loop_count (snd s)) steps.

(** The number of Evaluate passes of a run. *)
Definition evaluate_passes (steps : list (node * QueryState)) : Z :=
  Py.len (filter (fun s => is_evaluator (fst s) = true) steps).

(** The limit under which a run from node [nd] in state [state] reaches
    [END] in any case: the steps it may still take, and one more. *)
Definition needed (nd : node) (state : QueryState) : nat :=
  to_evaluator nd + 5 * (Z.to_nat (MAX_LOOPS - loop_count state) - 1) + 1.

End Engine.

End Graph.

(** ** Concrete runs *)

Module Scenario.
Import Models Agents.
Open Scope string_scope.

Definition netloc : string -> option string := fun _ => Some "example.org".

(** A text service that answers at once. *)
Definition llm_ok : Z -> Llm.gen_result := fun _ => Llm.GenText (Some " a summary ").

(** A worker whose page is fetched and summarised, and one whose fetch
    gives no response. *)
Definition worker_ok : Web.worker_env := Web.mkWorkerEnv (Web.Fetched "text/html") llm_ok.
Definition worker_down : Web.worker_env := Web.mkWorkerEnv Web.FetchNone llm_ok.

(** Three links, the first two to the same page. *)
Definition items : list cse_item :=
  [ mkItem "A" "https://a.org/1" "sa";
    mkItem "A again" " https://a.org/1" "sa'";
    mkItem "B" "https://b.org/x" "sb" ].

Definition subq_found : subq_env :=
  mkSubqEnv (CseItems items) Started (fun _ => worker_ok) [].

(** The search request fails inside [search_with_google_cse]. *)
Definition subq_http_error : subq_env :=
  mkSubqEnv (CseError "500 Server Error") Started (fun _ => worker_ok) [].

(** An exception escapes the [try] block before any thread is started. *)
Definition subq_raises : subq_env :=
  mkSubqEnv (CseItems []) (Raised 0 "timed out") (fun _ => worker_ok) [].

(** One link, whose fetch gives no response. *)
Definition subq_fetch_down : subq_env :=
  mkSubqEnv (CseItems [mkItem "A" "https://a.org/1" "sa"]) Started
    (fun _ => worker_down) [].

Definition rag_ok : rag_outcome := RagAnswer "Migraines are caused by X" (SummaryText "X").

Definition env_of (envs : list subq_env) : executor_env :=
  mkExecutorEnv rag_ok (fun i => nth i envs subq_found).

Definition asking (subqs : list string) : QueryState :=
  set_subqueries (initial "What causes migraines?") subqs.

(** [SUBQ_SEARCH_COUNT = 3], [MAX_SOURCES_FOR_CITATIONS = 10], no domain
    restriction: the defaults of [config.py]. *)
Definition aggregate := Agents.aggregate 3 [] netloc.
Definition executor := Agents.executor 3 10 [] netloc.

(** A full cache of two entries, ["b"] expiring first. *)
Definition two_entries : MemoryCache.t string Z :=
  MemoryCache.put 1 1 "b" 2 (Some 5)
    (MemoryCache.put 0 0 "a" 1 (Some 50) (MemoryCache.__init__ 2 3600)).

(** The JSON service: its text is ["good"], ["poor"], ["nan"] (a rubric
    whose overall score is the JSON literal [NaN]) or something that does
    not parse. *)
Definition score (q : Q) : Py.float := Py.Num q.

Definition json_loads (raw : string) : EvalRubric + string :=
  if String.eqb raw "good" then
    inl (mkRubric (score (9 # 10)) (score (9 # 10)) (score (9 # 10)) (score (9 # 10))
           false "")
  else if String.eqb raw "poor" then
    inl (mkRubric (score (1 # 2)) (score (1 # 2)) (score (1 # 2)) (score (2 # 5))
           true "thin")
  else if String.eqb raw "nan" then
    inl (mkRubric (score (9 # 10)) (score (9 # 10)) (score (9 # 10)) Py.NaN false "")
  else inr "Expecting value".

Definition rubric_of_json (data : EvalRubric) : EvalRubric + string := inl data.

Definition llm_down : Z -> Llm.gen_result := fun _ => Llm.GenRaise "500 Internal error".

Definition calls_of (o : Llm.gen_result) : Z -> eval_calls := fun _ => mkEvalCalls o o.

(** Every upstream call fails with a persistent 500. *)
Definition pass_down : Graph.pass_env :=
  Graph.mkPassEnv (fun _ => Llm.CallRaise "500 Internal error")
    (mkExecutorEnv (RagError "500") (fun _ => subq_http_error))
    (fun _ => llm_down) llm_down (calls_of (Llm.GenRaise "500 Internal error")).

Definition all_down : Graph.env := Graph.mkEnv llm_down (fun _ => pass_down).

(** Every call succeeds and the first evaluation is above the threshold. *)
Definition pass_good : Graph.pass_env :=
  Graph.mkPassEnv (fun _ => Llm.RespText (Some " a summary ")) (env_of [])
    (fun _ => llm_ok) llm_ok (calls_of (Llm.GenText (Some "good"))).

Definition all_good : Graph.env := Graph.mkEnv llm_ok (fun _ => pass_good).

(** Every call succeeds and the rubric of every evaluation has the
    overall score NaN. *)
Definition pass_nan : Graph.pass_env :=
  Graph.mkPassEnv (fun _ => Llm.RespText (Some " a summary ")) (env_of [])
    (fun _ => llm_ok) llm_ok (calls_of (Llm.GenText (Some "nan"))).

Definition all_nan : Graph.env := Graph.mkEnv llm_ok (fun _ => pass_nan).

(** The graph under the defaults of [config.py]: [MIN_OVERALL = 0.7],
    [MAX_LOOPS = 3]. *)
Definition run : Graph.env -> string -> list (Graph.node * QueryState) * Graph.outcome :=
  Graph.run 3 10 (score (7 # 10)) 3 [] netloc (fun _ => ["s"]) EvalRubric json_loads
    rubric_of_json (Graph.recursion_limit 3).

End Scenario.

(** ** utils/cache_utils.py: memoize *)

Module Memoize.

(** What the decorated function does when the wrapper calls it: it
    returns a value, [None] included, or it raises. *)
Inductive call_result (R : Type) :=
| Returns (result : option R)
| Raises (err : string).
Arguments Returns {R} result.
Arguments Raises {R} err.

Section Wrapper.
Context {K R : Type} `{EqDecision K}.

(** The cache of one decorated function holds what the function
    returned, [None] included. *)
Definition cache : Type := MemoryCache.t K (option R).

(** [cache = MemoryCache(ttl=ttl)] *)
Definition new_cache (ttl : Z) : cache := MemoryCache.__init__ 1000 ttl.

(** The readings of the clock during one call of the wrapper: by
    [cache.get], and by the two readings of [cache.put]. *)
Record clock := mkClock { at_get : Q; at_cleanup : Q; at_put : Q }.

(** One call of [wrapper]: [key] is the string built from the function
    name and the arguments, [func] what the decorated function does if it
    is called.  The result, the cache afterwards, and whether the
    function was called. *)
Definition wrapper (t : clock) (key : K) (func : call_result R) (c : cache)
    : call_result R * cache * bool :=
  let '(cached_result, c) := MemoryCache.get (at_get t) key c in
  match cached_result with
  | Some (Some r) => (Returns (Some r), c, false)
  | _ =>
      match func with
      | Returns result =>
          (Returns result,
           MemoryCache.put (at_cleanup t) (at_put t) key result None c, true)
      | Raises e => (Raises e, c, true)
      end
  end.

End Wrapper.

End Memoize.

(** ** Letter case *)

Module Case.

(** An upper-case letter of the ASCII range. *)
Definition is_upper (c : ascii) : bool :=
  let k := nat_of_ascii c in ((65 <=? k) && (k <=? 90))%nat.

Fixpoint has_upper (s : string) : bool :=
  match s with
  | String c s' => is_upper c || has_upper s'
  | EmptyString => false
  end.

End Case.

(** ** Counting the operations made on a cache *)

Module CacheOps.
Section Ops.
Context {K V : Type}.

Definition is_get (o : MemoryCache.op K V) : bool :=
  match o with MemoryCache.OpGet _ _ => true | _ => false end.

Definition is_put (o : MemoryCache.op K V) : bool :=
  match o with MemoryCache.OpPut _ _ _ _ _ => true | _ => false end.

Definition gets (ops : list (MemoryCache.op K V)) : Z :=
  Py.len (filter (fun o => is_get o = true) ops).

Definition puts (ops : list (MemoryCache.op K V)) : Z :=
  Py.len (filter (fun o => is_put o = true) ops).

(** The cache a program holds after [MemoryCache(max_size, ttl)] and the
    operations [ops]. *)
Definition after (max_size ttl : Z) (ops : list (MemoryCache.op K V))
    `{EqDecision K} : MemoryCache.t K V :=
  foldl MemoryCache.apply_op (MemoryCache.__init__ max_size ttl) ops.

(** The entries of [d] that have not expired at [now], in the order of
    [d]. *)
Definition unexpired (now : Q) (d : list (MemoryCache.entry K V))
    : list (MemoryCache.entry K V) :=
  filter (fun kv => MemoryCache.expiry_gt (snd (snd kv)) now = true) d.

End Ops.
End CacheOps.

(** ** utils/http_utils.py: fetch_url, fetch_url_async, post_json *)

Module HttpUtils.

Definition DEFAULT_TIMEOUT : Z := 12.
Definition MAX_RETRIES : Z := 3.
Definition RETRY_BACKOFF : Z := 2.
Definition MAX_BACKOFF : Z := 45.

(** What one request does ([httpx.get] or [httpx.post] under the given
    timeout, then [raise_for_status]): it hands back the response, or it
    raises [HTTPStatusError] for a response with [status_code], a
    connection error ([ConnectError], [ConnectTimeout]), or something
    else. *)
Inductive request_outcome (R : Type) :=
| Returned (response : R)
| HTTPStatusError (status_code : Z)
| ConnectError
| OtherException.
Arguments Returned {R} response.
Arguments HTTPStatusError {R} status_code.
Arguments ConnectError {R}.
Arguments OtherException {R}.

(** What the loop does besides returning: requests, and [time.sleep]. *)
Inductive event :=
| Request (attempt : Z)
| Sleep (seconds : Z).

(** [min(backoff * (2 ** attempt), MAX_BACKOFF)] *)
Definition wait_time (backoff attempt : Z) : Z :=
  Z.min (backoff * 2 ^ attempt) MAX_BACKOFF.

(** The loop of [fetch_url], of [fetch_url_async] and of [post_json]:
<<
    for attempt in range(max_retries):
        try:
            response = <request>; response.raise_for_status()
            return response
        except httpx.HTTPStatusError as e:
            if e.response.status_code == 429: time.sleep(wait_time)
            elif e.response.status_code >= 500: time.sleep(wait_time)
            else: return None
        except (httpx.ConnectError, httpx.ConnectTimeout): time.sleep(wait_time)
        except Exception: return None
    return None
>>
    with [backoff = RETRY_BACKOFF]. *)
Fixpoint request_loop {R} (request : Z -> request_outcome R) (range : list Z)
    : option R * list event :=
  match range with
  | [] => (None, [])
  | attempt :: rest =>
      let sleep_and_go_on :=
        let '(response, events) := request_loop request rest in
        (response,
         Request attempt :: Sleep (wait_time RETRY_BACKOFF attempt) :: events) in
      match request attempt with
      | Returned response => (Some response, [Request attempt])
      | HTTPStatusError status_code =>
          if status_code =? 429 then sleep_and_go_on
          else if 500 <=? status_code then sleep_and_go_on
          else (None, [Request attempt])
      | ConnectError => sleep_and_go_on
      | OtherException => (None, [Request attempt])
      end
  end.

(** [range(n)] *)
Definition range (n : Z) : list Z := seqZ 0 n.

Section Fetch.
Variable netloc : string -> option string.
Variable ALLOWED_DOMAINS : list string.

Definition fetch_url {R} (url : string) (max_retries : Z)
    (request : Z -> request_outcome R) : option R * list event :=
  if negb (Web.is_allowed_url netloc ALLOWED_DOMAINS url) then (None, [])
  else request_loop request (range max_retries).

End Fetch.

Definition post_json {R} (max_retries : Z) (request : Z -> request_outcome R)
    : option R * list event :=
  request_loop request (range max_retries).

(** *** Vocabulary of the properties *)

(** The outcomes after which the loop sleeps and goes on. *)
Definition retried {R} (o : request_outcome R) : bool :=
  match o with
  | HTTPStatusError status_code => (status_code =? 429) || (500 <=? status_code)
  | ConnectError => true
  | _ => false
  end.

(** The number of requests and the seconds slept in a list of events. *)
Fixpoint requests (events : list event) : Z :=
  match events with
  | [] => 0
  | Request _ :: rest => 1 + requests rest
  | Sleep _ :: rest => requests rest
  end.

Fixpoint slept (events : list event) : Z :=
  match events with
  | [] => 0
  | Request _ :: rest => slept rest
  | Sleep s :: rest => s + slept rest
  end.

(** The events of attempts that all fail and are retried. *)
Definition all_retried (attempts : list Z) : list event :=
  flat_map (fun attempt => [Request attempt; Sleep (wait_time RETRY_BACKOFF attempt)])
    attempts.

End HttpUtils.

(** ** The retry loops of the text service, with what they cost *)

Module Backoff.

(** [sleep_backoff()]: [time.sleep(45)]. *)
Definition sleep_backoff : Z := 45.

(** The attempts a loop made, the calls of the service made in them and
    the seconds it slept. *)
Record effort := mkEffort { attempts : Z; calls : Z; slept : Z }.

(** The loop of [Llm.retry_loop], with its effort: [cost attempt] is the
    number of calls of the service the body makes at [attempt]. *)
Fixpoint retry_run {A} (range : list Z) (body : Z -> A + string)
    (cost : Z -> Z) (on_error : string -> A) : option A * effort :=
  match range with
  | [] => (None, mkEffort 0 0 0)
  | attempt :: rest =>
      match body attempt with
      | inl a => (Some a, mkEffort 1 (cost attempt) 0)
      | inr e =>
          if Llm.rate_limited e attempt then
            let '(r, w) := retry_run rest body cost on_error in
            (r, mkEffort (1 + attempts w) (cost attempt + calls w)
                  (sleep_backoff + slept w))
          else (Some (on_error e), mkEffort 1 (cost attempt) 0)
      end
  end.


(** The body of [evaluator]: one generation, and the repair call when
    the text of the first is not empty and [json.loads] raises on it. *)
Definition evaluator_cost {json : Type} (json_loads : string -> json + string)
    (calls : Z -> Agents.eval_calls) (attempt : Z) : Z :=
  match Agents.first_call (calls attempt) with
  | Llm.GenRaise _ => 1
  | Llm.GenText t =>
      let raw := Py.strip (Llm.text_or_empty t) in
      if String.eqb raw "" then 1
      else match json_loads raw with inl _ => 1 | inr _ => 2 end
  end.

(** [get_concise_summary] (workflows/agents.py, utils/web_utils.py). *)
Definition get_concise_summary_body (llm : Z -> Llm.gen_result) (attempt : Z)
    : string + string :=
  match llm attempt with
  | Llm.GenText t => inl (Py.strip (Llm.text_or_empty t))
  | Llm.GenRaise e => inr e
  end.

Definition get_concise_summary (llm : Z -> Llm.gen_result) : option string :=
  Llm.retry_loop Py.range3 (get_concise_summary_body llm)
    (fun _ => "Summary not available due to API error."%string).

End Backoff.

(** ** Vocabulary of the stages *)

Module Stages.

(** The attempt at which a loop around one generation of the service
    settles: the earlier attempts raised a rate-limit error and slept;
    this one answered, or raised an error the loop does not retry. *)
Definition llm_settles (llm : Z -> Llm.gen_result) (attempt : Z) : Prop :=
  0 <= attempt <= 2 /\
  (forall j, 0 <= j < attempt ->
     exists e, llm j = Llm.GenRaise e /\ Llm.rate_limited e j = true) /\
  match llm attempt with
  | Llm.GenText _ => True
  | Llm.GenRaise e => Llm.rate_limited e attempt = false
  end.

(** What a loop writes once it has settled on [o]: the stripped text of
    the response, or the message [on_error] makes of the error. *)
Definition outcome_text (o : Llm.gen_result) (on_error : string -> string) : string :=
  match o with
  | Llm.GenText t => Py.strip (Llm.text_or_empty t)
  | Llm.GenRaise e => on_error e
  end.

(** The same for the loop of [planner], whose attempts raise in the call
    or in the reading of the text. *)
Definition raised (o : Llm.gen_response) : option string :=
  match o with
  | Llm.CallRaise e => Some e
  | Llm.RespText _ => None
  | Llm.RespRaise e => Some e
  end.

Definition planner_settles (llm : Z -> Llm.gen_response) (attempt : Z) : Prop :=
  0 <= attempt <= 2 /\
  (forall j, 0 <= j < attempt ->
     exists e, raised (llm j) = Some e /\ Llm.rate_limited e j = true) /\
  match raised (llm attempt) with
  | Some e => Llm.rate_limited e attempt = false
  | None => True
  end.

(** The call handed back a response; one of the attempts up to [attempt]
    did. *)
Definition handed_back (o : Llm.gen_response) : bool :=
  match o with Llm.CallRaise _ => false | _ => true end.

Definition responded (llm : Z -> Llm.gen_response) (attempt : Z) : bool :=
  existsb (fun j => (j <=? attempt) && handed_back (llm j)) Py.range3.

(** The nodes from [nd] to the end of its pass, in the order of the
    edges. *)
Definition from_node (nd : Graph.node) : list Graph.node :=
  match nd with
  | Graph.summarizer =>
      [Graph.summarizer; Graph.planner; Graph.executor; Graph.answer_subqs;
       Graph.synthesizer; Graph.evaluator]
  | Graph.planner =>
      [Graph.planner; Graph.executor; Graph.answer_subqs; Graph.synthesizer;
       Graph.evaluator]
  | Graph.executor =>
      [Graph.executor; Graph.answer_subqs; Graph.synthesizer; Graph.evaluator]
  | Graph.answer_subqs => [Graph.answer_subqs; Graph.synthesizer; Graph.evaluator]
  | Graph.synthesizer => [Graph.synthesizer; Graph.evaluator]
  | Graph.evaluator => [Graph.evaluator]
  end.

(** The stages of one pass of the loop. *)
Definition pass_nodes : list Graph.node := from_node Graph.planner.

End Stages.

(** ** api/routes.py: run_pipeline *)

Module Routes.

(** [ClientResponse] *)
Record ClientResponse := mkResponse {
  question : string;
  summary : string;
  rag_answer : string;
  rag_summary : string;
  web_results : list Web.record;
  subqueries : list string;
  subquery_answers : list (string * string);
  final_answer : string;
  evaluation : string;
  feedback : string;
  rubric : option Models.EvalRubric
}.

Definition response_of (final : Models.QueryState) : ClientResponse :=
  mkResponse (Models.question final) (Models.summary final)
    (Models.rag_answer final) (Models.rag_summary final)
    (Models.web_results final) (Models.subqueries final) (Models.answers final)
    (Models.final_answer final) (Models.evaluation final) (Models.feedback final)
    (Models.scores final).

(** What the endpoint answers: the response, or
    [HTTPException(status_code=500, detail="LangGraph failed: ...")]. *)
Inductive http_result :=
| Ok200 (response : ClientResponse)
| Error500 (detail : string).

Section Pipeline.
Variable MIN_OVERALL : Py.float.
(** [str(e)] of the exception a stream raises when it does not reach
    [END]. *)
Variable exception_text : Graph.outcome -> string.

(** The two [break] tests of the loop over the stream. *)
Definition breaks (final : Models.QueryState) : bool :=
  match Models.scores final with
  | Some scores =>
      Py.float_ge (Models.overall scores) MIN_OVERALL
      && negb (Models.replan_needed scores)
  | None => false
  end
  || String.eqb (Models.evaluation final) "yes".

(** [async for step in compiled_graph.astream(...)]: the last state
    read, and whether the loop was left by [break].  The stream is lazy:
    after a [break] nothing more of it is run. *)
Fixpoint consume (steps : list (Graph.node * Models.QueryState))
    (final : option Models.QueryState) : option Models.QueryState * bool :=
  match steps with
  | [] => (final, false)
  | (_, raw) :: rest =>
      if breaks raw then (Some raw, true) else consume rest (Some raw)
  end.

(** [run_pipeline] on the stream of a run: its steps and how it ends once
    they are read. *)
Definition run_pipeline (stream : list (Graph.node * Models.QueryState) * Graph.outcome)
    : http_result :=
  let '(final, left_by_break) := consume (fst stream) None in
  match left_by_break, snd stream with
  | false, Graph.OutOfSteps | false, Graph.NodeFailed =>
      Error500 ("LangGraph failed: " ++ exception_text (snd stream))
  | _, _ =>
      match final with
      | None => Error500 "LangGraph failed: Pipeline produced no final state"
      | Some final => Ok200 (response_of final)
      end
  end.

End Pipeline.

End Routes.

(** ** routes/rag_routes.py: search_mcp_tool *)

Module RagRoutes.

(** The exceptions [call_rag_api] can raise, by the [except] clause
    that catches them: [ConnectionError] (a [ConnectTimeout] is one),
    [Timeout], another [RequestException], anything else. *)
Inductive raised :=
| ConnectionError
| Timeout
| RequestException
| OtherException.

(** What one call of [call_rag_api] does: it raises, or it hands back a
    response with [status_code]; [read] is what [response.json()] and
    the selection of the keys make of a response that passed
    [raise_for_status]: the value that is cached and returned, or [None]
    when they raise. *)
Inductive call_outcome (V : Type) :=
| Responded (status_code : Z) (read : option V)
| Raised (e : raised).
Arguments Responded {V} status_code read.
Arguments Raised {V} e.

(** What [fetch_jwt_token()] does. *)
Inductive refresh_outcome :=
| Refreshed (token : option string)
| RefreshRaised.

(** What the endpoint answers: the body, or an [HTTPException] (its
    detail text is left out). *)
Inductive http_result (V : Type) :=
| Ok200 (body : V)
| HTTPException (status_code : Z).
Arguments Ok200 {V} body.
Arguments HTTPException {V} status_code.

Section Endpoint.
Context {V : Type}.

(** The globals of the module. *)
Record state := mkState {
  JWT_TOKEN : option string;
  rag_answer_cache : MemoryCache.t string V
}.

(** What surrounds one request: the clock as [get] and [put] read it,
    what the calls of the upstream service do, and [fetch_jwt_token]
    ([None] when it is not set). *)
Record request_env := mkRequestEnv {
  at_get : Q;
  at_cleanup : Q;
  at_put : Q;
  first_call : call_outcome V;
  fetch_jwt_token : option refresh_outcome;
  second_call : call_outcome V
}.

(** The [except] clauses for what [call_rag_api] raises. *)
Definition handler (e : raised) : Z :=
  match e with
  | ConnectionError => 503
  | Timeout => 504
  | RequestException => 500
  | OtherException => 500
  end.

(** [response.raise_for_status()] raises [HTTPError] for the status
    codes 400 to 599. *)
Definition raises_for_status (status_code : Z) : bool :=
  (400 <=? status_code) && (status_code <? 600).

(** From [response.raise_for_status()] to the end of the [try] block,
    with the [except] clauses that apply there. *)
Definition finish (env : request_env) (cache_key : string) (status_code : Z)
    (read : option V) (st : state) : http_result V * state :=
  if raises_for_status status_code then (HTTPException status_code, st)
  else
    match read with
    | Some output =>
        (Ok200 output,
         mkState (JWT_TOKEN st)
           (MemoryCache.put (at_cleanup env) (at_put env) cache_key output None
              (rag_answer_cache st)))
    | None => (HTTPException 500, st)
    end.

(** [search_mcp_tool]: the answer, the globals afterwards, and the
    number of calls of the upstream service.  An [HTTPException] raised
    inside the [try] block (a failed token refresh) is caught by the last
    clause, [except Exception], which raises status 500. *)
Definition search_mcp_tool (env : request_env) (query : string) (st : state)
    : http_result V * state * nat :=
  let cache_key := Py.strip query in
  let '(cached_result, cache) :=
    MemoryCache.get (at_get env) cache_key (rag_answer_cache st) in
  let st := mkState (JWT_TOKEN st) cache in
  match cached_result with
  | Some output => (Ok200 output, st, 0%nat)
  | None =>
      let current_token := JWT_TOKEN st in
      if negb (Py.truthy current_token)
         || String.eqb (default "" current_token) "PLACEHOLDER_INVALID_TOKEN"
      then (HTTPException 401, st, 0%nat)
      else
        match first_call env with
        | Raised e => (HTTPException (handler e), st, 1%nat)
        | Responded status_code read =>
            match status_code =? 401, fetch_jwt_token env with
            | true, Some RefreshRaised => (HTTPException 500, st, 1%nat)
            | true, Some (Refreshed token) =>
                let st := mkState token (rag_answer_cache st) in
                if negb (Py.truthy token) then (HTTPException 500, st, 1%nat)
                else
                  match second_call env with
                  | Raised _ => (HTTPException 500, st, 2%nat)
                  | Responded status_code read =>
                      (finish env cache_key status_code read st, 2%nat)
                  end
            | _, _ => (finish env cache_key status_code read st, 1%nat)
            end
        end
  end.

(** *** Vocabulary of the properties *)

(** The token refresh of a request fails: [fetch_jwt_token] raises or
    gives no token, or the call made with the new token raises. *)
Definition refresh_fails (env : request_env) : Prop :=
  match fetch_jwt_token env with
  | Some RefreshRaised => True
  | Some (Refreshed token) =>
      Py.truthy token = false \/ exists e, second_call env = Raised e
  | None => False
  end.

(** The token passes the test made before the first call. *)
Definition usable (token : option string) : Prop :=
  Py.truthy token = true /\ token <> Some "PLACEHOLDER_INVALID_TOKEN"%string.

End Endpoint.

Arguments state : clear implicits.
Arguments request_env : clear implicits.

End RagRoutes.

(** * Properties *)

(** ** Comparisons and strings *)

Module PyFacts.

Lemma Qltb_lt (x y : Q) : Py.Qltb x y = true <-> (x < y)%Q.
Proof.
  unfold Py.Qltb. rewrite Qlt_alt.
  destruct (x ?= y)%Q; split; congruence.
Qed.

Lemma Qltb_ge (x y : Q) : Py.Qltb x y = false <-> (y <= x)%Q.
Proof.
  split; intros H.
  - apply Qnot_lt_le. intros Hlt. apply Qltb_lt in Hlt. congruence.
  - destruct (Py.Qltb x y) eqn:E; [|reflexivity].
    apply Qltb_lt in E. exfalso. revert E. now apply Qle_not_lt.
Qed.

Lemma Qleb_le (x y : Q) : Py.Qleb x y = true <-> (x <= y)%Q.
Proof. apply Qle_bool_iff. Qed.

Lemma Qleb_gt (x y : Q) : Py.Qleb x y = false <-> (y < x)%Q.
Proof.
  split; intros H.
  - apply Qnot_le_lt. intros Hle. apply Qleb_le in Hle. congruence.
  - destruct (Py.Qleb x y) eqn:E; [|reflexivity].
    apply Qleb_le in E. exfalso. revert H. now apply Qle_not_lt.
Qed.

(** Python's comparisons on floats that may be NaN: [<] and [>=] never
    hold together; one of them holds unless a side is NaN, and then
    neither does. *)
Lemma float_lt_not_ge (x y : Py.float) :
  Py.float_lt x y = true -> Py.float_ge x y = false.
Proof.
  destruct x, y; cbn; try discriminate; try reflexivity.
  intros H. apply Qltb_lt in H. now apply Qleb_gt.
Qed.

Lemma float_ge_not_lt (x y : Py.float) :
  Py.float_ge x y = true -> Py.float_lt x y = false.
Proof.
  destruct (Py.float_lt x y) eqn:E; [|reflexivity].
  apply float_lt_not_ge in E. congruence.
Qed.

Lemma float_lt_or_ge (x y : Py.float) :
  Py.is_nan x = false -> Py.is_nan y = false ->
  Py.float_lt x y = negb (Py.float_ge x y).
Proof.
  destruct x, y; cbn; try discriminate; try reflexivity. intros _ _.
  destruct (Py.Qleb q0 q) eqn:E; cbn.
  - apply Qleb_le in E. now apply Qltb_ge.
  - apply Qleb_gt in E. now apply Qltb_lt.
Qed.

Lemma float_nan_l (y : Py.float) :
  Py.float_lt Py.NaN y = false /\ Py.float_ge Py.NaN y = false.
Proof. now destruct y. Qed.

Lemma float_neither (x y : Py.float) :
  Py.float_lt x y = false -> Py.float_ge x y = false ->
  Py.is_nan x = true \/ Py.is_nan y = true.
Proof.
  intros Hlt Hge. destruct (Py.is_nan x) eqn:Ex; [now left|].
  destruct (Py.is_nan y) eqn:Ey; [now right|].
  rewrite (float_lt_or_ge x y Ex Ey), Hge in Hlt. discriminate.
Qed.

Lemma len_nonneg {A} (xs : list A) : 0 <= Py.len xs.
Proof. unfold Py.len. lia. Qed.

Lemma slice_to_nonneg {A} (xs : list A) (n : Z) :
  0 <= n -> Py.slice_to xs n = take (Z.to_nat n) xs.
Proof.
  intros Hn. unfold Py.slice_to.
  destruct (0 <=? n) eqn:E; [reflexivity | lia].
Qed.

End PyFacts.

(** ** The retry loop *)

Module LlmFacts.
Import Llm.

Lemma not_rate_limited_last (e : string) : rate_limited e 2 = false.
Proof. unfold rate_limited. simpl. apply andb_false_r. Qed.

(** Over [range(3)] the loop always returns: the third attempt never
    sleeps. *)
Lemma retry_loop_returns {A} (body : Z -> A + string) (on_error : string -> A) :
  exists a, retry_loop Py.range3 body on_error = Some a.
Proof.
  unfold Py.range3. simpl.
  destruct (body 0) as [a0|e0]; [eauto|].
  destruct (rate_limited e0 0); [|eauto].
  destruct (body 1) as [a1|e1]; [eauto|].
  destruct (rate_limited e1 1); [|eauto].
  destruct (body 2) as [a2|e2]; [eauto|].
  rewrite not_rate_limited_last. eauto.
Qed.

Lemma retry_loop_settles {A} (body : Z -> A + string) (on_error : string -> A) :
  exists attempt,
    settles body attempt /\
    retry_loop Py.range3 body on_error =
    Some (match body attempt with inl a => a | inr e => on_error e end).
Proof.
  unfold Py.range3, settles. simpl.
  assert (H01 : forall j, 0 <= j < 1 -> j = 0) by (intros; lia).
  assert (H02 : forall j, 0 <= j < 2 -> j = 0 \/ j = 1) by (intros; lia).
  destruct (body 0) as [a0|e0] eqn:B0.
  { exists 0. rewrite B0. split; [|reflexivity].
    split; [lia|]. split; [intros j Hj; lia | exact I]. }
  destruct (rate_limited e0 0) eqn:R0.
  2:{ exists 0. rewrite B0. split; [|reflexivity].
      split; [lia|]. split; [intros j Hj; lia | exact R0]. }
  destruct (body 1) as [a1|e1] eqn:B1.
  { exists 1. rewrite B1. split; [|reflexivity].
    split; [lia|]. split; [|exact I].
    intros j Hj. rewrite (H01 j Hj). eauto. }
  destruct (rate_limited e1 1) eqn:R1.
  2:{ exists 1. rewrite B1. split; [|reflexivity].
      split; [lia|]. split; [|exact R1].
      intros j Hj. rewrite (H01 j Hj). eauto. }
  exists 2. destruct (body 2) as [a2|e2] eqn:B2.
  - split; [|reflexivity]. split; [lia|]. split; [|exact I].
    intros j Hj. destruct (H02 j Hj) as [-> | ->]; eauto.
  - rewrite not_rate_limited_last. split; [|reflexivity].
    split; [lia|]. split; [|reflexivity].
    intros j Hj. destruct (H02 j Hj) as [-> | ->]; eauto.
Qed.

(** The loop returns what the attempt that settles it makes. *)
Lemma retry_loop_at {A} (body : Z -> A + string) (on_error : string -> A)
    (attempt : Z) :
  settles body attempt ->
  retry_loop Py.range3 body on_error =
  Some (match body attempt with inl a => a | inr e => on_error e end).
Proof.
  intros (Hr & Hpre & Hlast). unfold Py.range3.
  assert (Hcase : attempt = 0 \/ attempt = 1 \/ attempt = 2) by lia.
  assert (Hgo : forall j, 0 <= j < attempt -> forall rest,
            retry_loop (j :: rest) body on_error = retry_loop rest body on_error).
  { intros j Hj rest. destruct (Hpre j Hj) as (e & He & Hrl).
    cbn [retry_loop]. now rewrite He, Hrl. }
  assert (Hstop : forall rest,
            retry_loop (attempt :: rest) body on_error =
            Some (match body attempt with inl a => a | inr e => on_error e end)).
  { intros rest. cbn [retry_loop].
    destruct (body attempt) as [a|e]; [reflexivity | now rewrite Hlast]. }
  destruct Hcase as [-> | [-> | ->]].
  - apply Hstop.
  - rewrite (Hgo 0) by lia. apply Hstop.
  - rewrite (Hgo 0), (Hgo 1) by lia. apply Hstop.
Qed.

(** Whatever holds of every completion of the body and of every way of
    giving up holds of what the loop returns. *)
Lemma retry_loop_result {A} (P : A -> Prop) (range : list Z)
    (body : Z -> A + string) (on_error : string -> A) (a : A) :
  (forall attempt x, body attempt = inl x -> P x) ->
  (forall e, P (on_error e)) ->
  retry_loop range body on_error = Some a -> P a.
Proof.
  intros Hbody Herr. induction range as [|attempt range IH]; simpl; [discriminate|].
  destruct (body attempt) as [x|e] eqn:B.
  - intros [= <-]. eapply Hbody. exact B.
  - destruct (rate_limited e attempt); [exact IH|].
    intros [= <-]. apply Herr.
Qed.

End LlmFacts.

(** ** MemoryCache *)

Module MemoryCacheFacts.
Import MemoryCache.

Lemma expiry_lt_order (a b : expiry) : expiry_lt a b = true -> expiry_order a b.
Proof.
  destruct a, b; simpl; try easy.
  intros H. apply PyFacts.Qltb_lt in H. now apply Qlt_le_weak.
Qed.

Lemma expiry_not_lt_order (a b : expiry) : expiry_lt a b = false -> expiry_order b a.
Proof.
  destruct a, b; simpl; try easy.
  intros H. now apply PyFacts.Qltb_ge in H.
Qed.

Lemma expiry_order_refl (a : expiry) : expiry_order a a.
Proof. destruct a; simpl; [apply Qle_refl | exact I]. Qed.

Lemma expiry_order_trans (a b c : expiry) :
  expiry_order a b -> expiry_order b c -> expiry_order a c.
Proof.
  destruct a, b, c; simpl; try easy. apply Qle_trans.
Qed.

Lemma expiry_gt_not_le (e : expiry) (now : Q) :
  expiry_gt e now = true -> expiry_le e now = false.
Proof.
  destruct e; simpl; [|reflexivity].
  intros H. apply PyFacts.Qltb_lt in H. now apply PyFacts.Qleb_gt.
Qed.

Lemma expiry_le_not_gt (e : expiry) (now : Q) :
  expiry_le e now = true -> expiry_gt e now = false.
Proof.
  destruct e; simpl; [|discriminate].
  intros H. apply PyFacts.Qleb_le in H. now apply PyFacts.Qltb_ge.
Qed.

Section Facts.
Context {K V : Type} `{EqDecision K}.
Implicit Types (d : list (entry K V)) (c : t K V) (key : K) (o : op K V).

Lemma dict_mem_elem key d : dict_mem key d = true <-> key ∈ map fst d.
Proof.
  induction d as [|[k x] d IH]; simpl.
  - split; [discriminate | intros H0; inversion H0].
  - rewrite elem_of_cons. destruct (decide (k = key)) as [->|Hne].
    + split; auto.
    + rewrite IH. split; [auto | intros [Heq|Hin]; congruence].
Qed.

Lemma dict_mem_false key d : dict_mem key d = false <-> key ∉ map fst d.
Proof.
  rewrite <- dict_mem_elem. destruct (dict_mem key d); split; congruence.
Qed.

Lemma dict_get_none key d : dict_mem key d = false -> dict_get key d = None.
Proof.
  induction d as [|[k x] d IH]; simpl; [reflexivity|].
  destruct (decide (k = key)); [discriminate | exact IH].
Qed.

Lemma dict_get_set key x d : dict_get key (dict_set key x d) = Some x.
Proof.
  induction d as [|[k y] d IH]; simpl.
  - destruct (decide (key = key)); congruence.
  - destruct (decide (k = key)) as [->|Hne]; simpl.
    + destruct (decide (key = key)); congruence.
    + destruct (decide (k = key)); [congruence | exact IH].
Qed.

Lemma dict_set_keys_mem key x d :
  dict_mem key d = true -> map fst (dict_set key x d) = map fst d.
Proof.
  induction d as [|[k y] d IH]; simpl; [discriminate|].
  destruct (decide (k = key)) as [->|Hne]; simpl; [reflexivity|].
  intros Hm. now rewrite IH.
Qed.

Lemma dict_set_length_mem key x d :
  dict_mem key d = true -> Py.len (dict_set key x d) = Py.len d.
Proof.
  unfold Py.len. induction d as [|[k y] d IH]; simpl; [discriminate|].
  destruct (decide (k = key)); simpl; [reflexivity|].
  intros Hm. specialize (IH Hm). lia.
Qed.

Lemma dict_set_new key x d :
  dict_mem key d = false -> dict_set key x d = d ++ [(key, x)].
Proof.
  induction d as [|[k y] d IH]; simpl; [reflexivity|].
  destruct (decide (k = key)) as [->|Hne]; [discriminate|].
  intros Hm. now rewrite IH.
Qed.

Lemma dict_set_ok key x d : dict_ok d -> dict_ok (dict_set key x d).
Proof.
  unfold dict_ok. intros Hok.
  destruct (dict_mem key d) eqn:Hm.
  - now rewrite dict_set_keys_mem.
  - rewrite dict_set_new by assumption.
    rewrite map_app. simpl. apply NoDup_app. split; [assumption|].
    split; [|apply NoDup_singleton].
    intros k Hk Hk'. apply list_elem_of_singleton in Hk'. subst k.
    apply dict_mem_false in Hm. contradiction.
Qed.

Lemma dict_del_keys_subset key k d : k ∈ map fst (dict_del key d) -> k ∈ map fst d.
Proof.
  induction d as [|[k0 y] d IH]; simpl; [easy|].
  destruct (decide (k0 = key)); simpl; rewrite ?elem_of_cons; intuition.
Qed.

Lemma dict_del_ok key d : dict_ok d -> dict_ok (dict_del key d).
Proof.
  unfold dict_ok. induction d as [|[k y] d IH]; simpl; [easy|].
  rewrite NoDup_cons. intros [Hk Hd].
  destruct (decide (k = key)); simpl; [assumption|].
  rewrite NoDup_cons. split; [|auto].
  intros Hin. apply Hk. eapply dict_del_keys_subset. eassumption.
Qed.

Lemma dict_mem_del_same key d : dict_ok d -> dict_mem key (dict_del key d) = false.
Proof.
  unfold dict_ok. induction d as [|[k y] d IH]; simpl; [reflexivity|].
  rewrite NoDup_cons. intros [Hk Hd].
  destruct (decide (k = key)) as [->|Hne]; simpl.
  - now apply dict_mem_false.
  - destruct (decide (k = key)); [congruence | auto].
Qed.

Lemma dict_mem_del_absent key k d :
  dict_mem key d = false -> dict_mem key (dict_del k d) = false.
Proof.
  rewrite !dict_mem_false. intros Hm Hin. apply Hm.
  eapply dict_del_keys_subset. eassumption.
Qed.

Lemma dict_mem_set_other key k x d :
  k <> key -> dict_mem key (dict_set k x d) = dict_mem key d.
Proof.
  intros Hne. induction d as [|[k0 y] d IH]; simpl.
  - destruct (decide (k = key)); congruence.
  - destruct (decide (k0 = k)) as [->|Hne0]; simpl.
    + reflexivity.
    + now rewrite IH.
Qed.

Lemma dict_del_length key d :
  dict_mem key d = true -> Py.len (dict_del key d) = Py.len d - 1.
Proof.
  unfold Py.len. induction d as [|[k y] d IH]; simpl; [discriminate|].
  destruct (decide (k = key)); simpl; [lia|].
  intros Hm. specialize (IH Hm). lia.
Qed.

(** *** [min]: the first key of least expiration *)

Lemma min_from_spec d : forall best (bv : V) be,
  exists k v e,
    min_from best be d = k /\ (k, (v, e)) ∈ (best, (bv, be)) :: d /\
    expiry_order e be /\
    forall kv, kv ∈ d -> expiry_order e (snd (snd kv)).
Proof.
  induction d as [|[k1 [v1 e1]] d IH]; intros best bv be; simpl.
  - exists best, bv, be. split; [reflexivity|]. split; [left|].
    split; [apply expiry_order_refl | intros kv Hkv; inversion Hkv].
  - destruct (expiry_lt e1 be) eqn:Hlt.
    + destruct (IH k1 v1 e1) as (k & v & e & Hk & Hin & Hle & Hall).
      exists k, v, e. split; [exact Hk|]. split; [now right|].
      split.
      * eapply expiry_order_trans; [exact Hle|]. now apply expiry_lt_order.
      * intros kv Hkv. apply elem_of_cons in Hkv as [->|Hkv]; [exact Hle | auto].
    + destruct (IH best bv be) as (k & v & e & Hk & Hin & Hle & Hall).
      exists k, v, e. split; [exact Hk|]. split.
      * apply elem_of_cons in Hin as [Heq|Hin]; [rewrite Heq; left | right; now right].
      * split; [exact Hle|].
        intros kv Hkv. apply elem_of_cons in Hkv as [->|Hkv]; [|auto].
        simpl. eapply expiry_order_trans; [exact Hle|].
        now apply expiry_not_lt_order.
Qed.

Lemma min_key_spec d :
  d <> [] ->
  exists k v e,
    min_key d = Some k /\ (k, (v, e)) ∈ d /\
    forall kv, kv ∈ d -> expiry_order e (snd (snd kv)).
Proof.
  destruct d as [|[k0 [v0 e0]] d]; [congruence|]. intros _. simpl.
  destruct (min_from_spec d k0 v0 e0) as (k & v & e & Hk & Hin & Hle & Hall).
  exists k, v, e. rewrite Hk. split; [reflexivity|]. split; [exact Hin|].
  intros kv Hkv. apply elem_of_cons in Hkv as [->|Hkv]; [exact Hle | auto].
Qed.

(** *** [min]: the first entry of least expiration, and its removal *)

Lemma expiry_lt_trans (a b c : expiry) :
  expiry_lt a b = true -> expiry_lt b c = true -> expiry_lt a c = true.
Proof.
  destruct a, b, c; simpl; try easy.
  rewrite !PyFacts.Qltb_lt. apply Qlt_trans.
Qed.

Lemma expiry_lt_order_trans (a b c : expiry) :
  expiry_lt a b = true -> expiry_order b c -> expiry_lt a c = true.
Proof.
  destruct a, b, c; simpl; try easy.
  rewrite !PyFacts.Qltb_lt. apply Qlt_le_trans.
Qed.

(** [min_from] keeps the candidate unless an entry expires strictly
    sooner, and then answers the first entry of least expiration. *)
Lemma min_from_first d : forall best be,
  (min_from best be d = best /\
   Forall (fun kv => expiry_order be (snd (snd kv))) d) \/
  (exists before k v e after,
     d = before ++ (k, (v, e)) :: after /\ min_from best be d = k /\
     expiry_lt e be = true /\
     Forall (fun kv => expiry_lt e (snd (snd kv)) = true) before /\
     Forall (fun kv => expiry_order e (snd (snd kv))) after).
Proof.
  induction d as [|[k1 [v1 e1]] d IH]; intros best be; cbn [min_from].
  - left. split; [reflexivity | constructor].
  - destruct (expiry_lt e1 be) eqn:Hlt.
    + right. destruct (IH k1 e1)
        as [[Hk Hall] | (before & k & v & e & after & -> & Hk & He & Hb & Ha)].
      * exists [], k1, v1, e1, d. repeat split; auto.
      * exists ((k1, (v1, e1)) :: before), k, v, e, after.
        split; [reflexivity|]. split; [exact Hk|].
        split; [eapply expiry_lt_trans; eassumption|].
        split; [constructor; assumption | exact Ha].
    + destruct (IH best be)
        as [[Hk Hall] | (before & k & v & e & after & -> & Hk & He & Hb & Ha)].
      * left. split; [exact Hk|]. constructor; [|exact Hall].
        now apply expiry_not_lt_order.
      * right. exists ((k1, (v1, e1)) :: before), k, v, e, after.
        split; [reflexivity|]. split; [exact Hk|]. split; [exact He|].
        split; [|exact Ha]. constructor; [|exact Hb]. cbn.
        eapply expiry_lt_order_trans; [exact He|]. now apply expiry_not_lt_order.
Qed.

Lemma min_key_first d :
  d <> [] ->
  exists before k v e after,
    d = before ++ (k, (v, e)) :: after /\ min_key d = Some k /\
    Forall (fun kv => expiry_lt e (snd (snd kv)) = true) before /\
    Forall (fun kv => expiry_order e (snd (snd kv))) after.
Proof.
  destruct d as [|[k0 [v0 e0]] d]; [congruence|]. intros _. cbn [min_key].
  destruct (min_from_first d k0 e0)
    as [[Hk Hall] | (before & k & v & e & after & -> & Hk & He & Hb & Ha)].
  - exists [], k0, v0, e0, d. rewrite Hk. repeat split; auto.
  - exists ((k0, (v0, e0)) :: before), k, v, e, after. rewrite Hk.
    split; [reflexivity|]. split; [reflexivity|]. split; [|exact Ha].
    constructor; assumption.
Qed.

(** [del d[k]] on a dict takes the entry of [k] out and leaves the others
    in their order. *)
Lemma dict_del_middle (k : K) (x : V * expiry) (before after : list (entry K V)) :
  dict_ok (before ++ (k, x) :: after) ->
  dict_del k (before ++ (k, x) :: after) = before ++ after.
Proof.
  unfold dict_ok. induction before as [|[k1 y] before IH]; cbn; intros Hok.
  - now rewrite decide_True.
  - apply NoDup_cons in Hok as [Hnot Hok].
    destruct (decide (k1 = k)) as [->|Hne].
    + exfalso. apply Hnot. rewrite fmap_app. apply elem_of_app. right. left.
    + now rewrite IH.
Qed.
(** *** [_cleanup_expired] *)

Lemma expired_keys_none now d : none_expired now d -> expired_keys now d = [].
Proof.
  unfold none_expired, expired_keys. induction 1 as [|kv d Hkv Hd IH]; [reflexivity|].
  rewrite filter_cons_False; [exact IH|].
  rewrite (expiry_gt_not_le _ _ Hkv). discriminate.
Qed.

Lemma cleanup_none_expired now c :
  none_expired now (_cache c) ->
  _cleanup_expired now c =
  set_cache c (_cache c) (with_size (statistics c) (Py.len (_cache c))).
Proof.
  intros Hne. unfold _cleanup_expired. rewrite (expired_keys_none _ _ Hne). simpl.
  unfold with_size. do 3 f_equal. unfold Py.len. simpl. lia.
Qed.

Lemma cleanup_keeps_absent now key c :
  dict_mem key (_cache c) = false ->
  dict_mem key (_cache (_cleanup_expired now c)) = false.
Proof.
  intros Hm. unfold _cleanup_expired. simpl.
  generalize (expired_keys now (_cache c)) as ks. revert Hm.
  generalize (_cache c) as d. intros d Hm ks. revert d Hm.
  induction ks as [|k ks IH]; intros d Hm; simpl; [exact Hm|].
  apply IH. now apply dict_mem_del_absent.
Qed.

Lemma cleanup_ok now c : dict_ok (_cache c) -> dict_ok (_cache (_cleanup_expired now c)).
Proof.
  intros Hok. unfold _cleanup_expired. simpl.
  generalize (expired_keys now (_cache c)) as ks. revert Hok.
  generalize (_cache c) as d. intros d Hok ks. revert d Hok.
  induction ks as [|k ks IH]; intros d Hok; simpl; [exact Hok|].
  apply IH. now apply dict_del_ok.
Qed.

Lemma evict_keeps_absent key c :
  dict_mem key (_cache c) = false -> dict_mem key (_cache (_evict_oldest c)) = false.
Proof.
  intros Hm. unfold _evict_oldest.
  destruct (min_key (_cache c)); simpl; [|exact Hm].
  now apply dict_mem_del_absent.
Qed.

Lemma evict_ok c : dict_ok (_cache c) -> dict_ok (_cache (_evict_oldest c)).
Proof.
  intros Hok. unfold _evict_oldest.
  destruct (min_key (_cache c)); simpl; [|exact Hok].
  now apply dict_del_ok.
Qed.

(** *** [put] *)

Lemma put_get now1 now2 key (value : V) ttl c :
  exists e,
    dict_get key (_cache (put now1 now2 key value ttl c)) = Some (value, e) /\
    e = expiration now2 ttl c.
Proof.
  eexists. split; [unfold put; simpl; apply dict_get_set|].
  unfold expiration. simpl.
  destruct (_ && _); [|reflexivity].
  unfold _evict_oldest. now destruct (min_key _).
Qed.

Lemma put_ok now1 now2 key (value : V) ttl c :
  dict_ok (_cache c) -> dict_ok (_cache (put now1 now2 key value ttl c)).
Proof.
  intros Hok. unfold put. simpl. apply dict_set_ok.
  destruct (_ && _); [apply evict_ok|]; now apply cleanup_ok.
Qed.

Lemma put_other_keeps_absent now1 now2 key k (value : V) ttl c :
  k <> key -> dict_mem key (_cache c) = false ->
  dict_mem key (_cache (put now1 now2 k value ttl c)) = false.
Proof.
  intros Hne Hm. unfold put. simpl. rewrite dict_mem_set_other by assumption.
  destruct (_ && _); [apply evict_keeps_absent|]; now apply cleanup_keeps_absent.
Qed.

(** *** Operations that follow one another *)

Lemma apply_op_keeps_absent key c o :
  ~ puts_key key o -> dict_mem key (_cache c) = false ->
  dict_mem key (_cache (apply_op c o)) = false.
Proof.
  destruct o as [now1 now2 k v ttl|now k|k|]; simpl; intros Hp Hm.
  - apply put_other_keeps_absent; [congruence | exact Hm].
  - unfold get. destruct (dict_get k (_cache c)) as [[v e]|]; [|exact Hm].
    destruct (expiry_gt e now); simpl; [exact Hm|].
    now apply dict_mem_del_absent.
  - unfold remove. destruct (dict_mem k (_cache c)); simpl; [|exact Hm].
    now apply dict_mem_del_absent.
  - reflexivity.
Qed.

Lemma ops_keep_absent key ops : forall c,
  Forall (fun o => ~ puts_key key o) ops -> dict_mem key (_cache c) = false ->
  dict_mem key (_cache (foldl apply_op c ops)) = false.
Proof.
  induction ops as [|o ops IH]; intros c Hops Hm; simpl; [exact Hm|].
  inversion Hops; subst. apply IH; [assumption|].
  now apply apply_op_keeps_absent.
Qed.

(** Each key once: the invariant of every cache the methods build. *)
Lemma init_ok (m ttl : Z) : dict_ok (_cache (__init__ (K := K) (V := V) m ttl)).
Proof. apply NoDup_nil_2. Qed.

Lemma apply_op_ok c o : dict_ok (_cache c) -> dict_ok (_cache (apply_op c o)).
Proof.
  destruct o as [now1 now2 k v ttl|now k|k|]; simpl; intros Hok.
  - now apply put_ok.
  - unfold get. destruct (dict_get k (_cache c)) as [[v e]|]; [|exact Hok].
    destruct (expiry_gt e now); simpl; [exact Hok|].
    now apply dict_del_ok.
  - unfold remove. destruct (dict_mem k (_cache c)); simpl; [|exact Hok].
    now apply dict_del_ok.
  - apply NoDup_nil_2.
Qed.

Lemma ops_ok ops : forall c,
  dict_ok (_cache c) -> dict_ok (_cache (foldl apply_op c ops)).
Proof.
  induction ops as [|o ops IH]; intros c Hok; simpl; [exact Hok|].
  apply IH. now apply apply_op_ok.
Qed.

Lemma contains_absent now key c :
  dict_mem key (_cache c) = false -> contains now key c = false.
Proof. intros Hm. unfold contains. now rewrite dict_get_none. Qed.

(** *** Expiry of an entry put with a positive time-to-live *)

(** C8.  After [put(k, v, ttl)] with [ttl > 0] the entry expires at
    [now2 + ttl], [now2] being the clock when [put] computed it.  A
    [get(k)] before that instant is a hit and returns [v].  A [get(k)]
    at or after it returns [None], deletes the entry, counts one miss
    and no hit, and from then on [contains(k)] is false at every time,
    whatever operations other than a [put] of [k] come in between. *)
Theorem get_after_put_with_ttl now1 now2 key (value : V) (ttl : Z) c now :
  0 < ttl -> dict_ok (_cache c) ->
  let c' := put now1 now2 key value (Some ttl) c in
  let expires := (now2 + inject_Z ttl)%Q in
  ((now < expires)%Q ->
     fst (get now key c') = Some value /\
     hits (statistics (snd (get now key c'))) = hits (statistics c') + 1 /\
     _cache (snd (get now key c')) = _cache c') /\
  ((expires <= now)%Q ->
     let c'' := snd (get now key c') in
     fst (get now key c') = None /\
     _cache c'' = dict_del key (_cache c') /\
     dict_mem key (_cache c'') = false /\
     Py.len (_cache c'') = Py.len (_cache c') - 1 /\
     misses (statistics c'') = misses (statistics c') + 1 /\
     hits (statistics c'') = hits (statistics c') /\
     forall ops now',
       Forall (fun o => ~ puts_key key o) ops ->
       contains now' key (foldl apply_op c'' ops) = false).
Proof.
  intros Httl Hok c' expires.
  destruct (put_get now1 now2 key value (Some ttl) c) as (e & Hget & He).
  fold c' in Hget.
  assert (Hexp : e = At expires).
  { rewrite He. unfold expiration, ttl_is_zero.
    destruct (ttl =? 0) eqn:E; [lia | reflexivity]. }
  rewrite Hexp in Hget. clear He Hexp.
  assert (Hmem : dict_mem key (_cache c') = true).
  { destruct (dict_mem key (_cache c')) eqn:E; [reflexivity|].
    apply dict_get_none in E. congruence. }
  split.
  - intros Hlt. unfold get. rewrite Hget. simpl.
    apply PyFacts.Qltb_lt in Hlt. rewrite Hlt. simpl. auto.
  - intros Hge. unfold get. rewrite Hget. simpl.
    apply PyFacts.Qltb_ge in Hge. rewrite Hge. simpl.
    assert (Hok' : dict_ok (_cache c')) by now apply put_ok.
    assert (Habs : dict_mem key (dict_del key (_cache c')) = false)
      by now apply dict_mem_del_same.
    repeat split; auto.
    + now apply dict_del_length.
    + intros ops now' Hops. apply contains_absent.
      apply ops_keep_absent; [exact Hops | exact Habs].
Qed.

(** *** Time-to-live zero *)

(** [put(k, v, ttl=0)]: the entry never expires. *)
Lemma put_explicit_zero_never_expires now1 now2 key (value : V) c now :
  fst (get now key (put now1 now2 key value (Some 0) c)) = Some value.
Proof.
  destruct (put_get now1 now2 key value (Some 0) c) as (e & Hget & He).
  unfold get. rewrite Hget. rewrite He. reflexivity.
Qed.

(** [put(k, v)] on a cache whose default is 0: [ttl != 0] holds of
    [None], so the entry expires at the instant of the put. *)
Lemma put_default_zero_expires now1 now2 key (value : V) c now :
  default_ttl c = 0 -> (now2 <= now)%Q ->
  fst (get now key (put now1 now2 key value None c)) = None.
Proof.
  intros Hd Hnow.
  destruct (put_get now1 now2 key value None c) as (e & Hget & He).
  unfold get. rewrite Hget. rewrite He. unfold expiration. simpl. rewrite Hd.
  assert (Hge : Py.Qltb now (now2 + inject_Z 0) = false).
  { apply PyFacts.Qltb_ge. unfold inject_Z. lra. }
  rewrite Hge. reflexivity.
Qed.

(** *** Eviction at capacity *)

Lemma dict_mem_of_elem key x d : (key, x) ∈ d -> dict_mem key d = true.
Proof.
  intros Hin. apply dict_mem_elem. apply list_elem_of_fmap.
  exists (key, x). split; [reflexivity | exact Hin].
Qed.

(** C7, for a cache of capacity at least one.  On a cache that holds
    [max_size >= 1] entries, none expired: a [put] of an absent key
    evicts exactly one entry, the one of least expiration (the first of
    them in the order of insertion, when several expire at that
    instant), adds one to the eviction counter and leaves [max_size]
    entries; a [put] of a present key evicts nothing. *)
Theorem put_at_capacity now1 now2 key (value : V) (ttl : option Z) c :
  1 <= max_size c -> full_and_fresh now1 c ->
  (dict_mem key (_cache c) = false -> evicts_nearest now1 now2 key value ttl c) /\
  (dict_mem key (_cache c) = true -> evicts_nothing now1 now2 key value ttl c).
Proof.
  intros Hsize (Hok & Hlen & Hfresh).
  unfold evicts_nearest, evicts_nothing, put.
  rewrite (cleanup_none_expired now1 c Hfresh).
  cbn [max_size _cache set_cache statistics default_ttl].
  split; intros Hmem; rewrite Hmem.
  - assert (Hne : _cache c <> []).
    { intros Hnil. rewrite Hnil in Hlen. unfold Py.len in Hlen. simpl in Hlen. lia. }
    destruct (min_key_first (_cache c) Hne)
      as (before & oldest & v & e & after & Hsplit & Hmin & Hbefore & Hafter).
    exists before, oldest, v, e, after.
    split; [exact Hsplit|]. split; [exact Hbefore|]. split; [exact Hafter|].
    assert (Hfull : (max_size c <=? Py.len (_cache c)) = true) by (apply Z.leb_le; lia).
    rewrite Hfull. cbn [andb negb].
    unfold _evict_oldest. cbn [max_size _cache set_cache statistics default_ttl].
    rewrite Hmin. cbn [max_size _cache set_cache statistics default_ttl].
    assert (Habs : dict_mem key (dict_del oldest (_cache c)) = false)
      by now apply dict_mem_del_absent.
    rewrite (dict_set_new _ _ _ Habs).
    assert (Hdel : dict_del oldest (_cache c) = before ++ after).
    { rewrite Hsplit in Hok |- *. now apply dict_del_middle. }
    rewrite Hdel.
    assert (Hlen' : forall x, Py.len ((before ++ after) ++ [x]) = max_size c).
    { intros x. rewrite <- Hlen, Hsplit. unfold Py.len.
      rewrite !length_app. cbn [length]. lia. }
    rewrite <- (app_assoc before after).
    repeat split; auto; cbn [size]; rewrite (app_assoc before after); apply Hlen'.
  - rewrite andb_false_r.
    cbn [max_size _cache set_cache statistics default_ttl].
    split; [now apply dict_set_keys_mem|].
    split; [apply dict_get_set|]. split; [reflexivity|].
    now apply dict_set_length_mem.
Qed.

End Facts.

(** *** Concrete caches *)

Open Scope string_scope.

(** C6, the explicit half at work: [put("k", 7, ttl=0)] at time 100 is
    still there at time 10^9. *)
Example put_explicit_zero_example :
  fst (get 1000000000 "k" (put 100 100 "k" 7 (Some 0) (__init__ 1000 3600)))
  = Some 7.
Proof. reflexivity. Qed.

(** C6 fails on [MemoryCache(ttl=0)]: after [put("k", 7)] at time 100 the
    entry carries the expiration 100, not [float('inf')]; [get("k")] at
    time 100 and at time 101 returns [None], [contains("k")] is false, and
    the first [get] has deleted the entry. *)
Theorem put_default_zero_expires_at_once :
  let c := put 100 100 "k" 7 None (__init__ 1000 0) in
  dict_get "k" (_cache c) = Some (7, At 100) /\
  fst (get 100 "k" c) = None /\
  fst (get 101 "k" c) = None /\
  contains 101 "k" c = false /\
  _cache (snd (get 100 "k" c)) = [].
Proof. repeat split; reflexivity. Qed.

(** C7 as stated fails on a cache of capacity 0: it is empty, so it holds
    [max_size] entries and none is expired, yet a [put] finds nothing to
    evict, leaves the eviction counter alone and ends with one entry. *)
Lemma capacity_zero_put_evicts_nothing :
  let c := __init__ (K := string) (V := Z) 0 3600 in
  full_and_fresh 0 c /\ dict_mem "k" (_cache c) = false /\
  ~ evicts_nearest 0 0 "k" 7 None c /\
  evictions (statistics (put 0 0 "k" 7 None c)) = evictions (statistics c) /\
  Py.len (_cache (put 0 0 "k" 7 None c)) = 1 /\
  max_size (put 0 0 "k" 7 None c) = 0.
Proof.
  repeat split.
  - apply NoDup_nil_2.
  - apply Forall_nil_2.
  - intros (before & oldest & v & e & after & Hc & _). now destruct before.
Qed.

(** Two entries that expire at the same instant: the one inserted first
    is evicted. *)
Example put_evicts_first_of_a_tie :
  let c := put 1 1 "b" 2 (Some 5) (put 1 1 "a" 1 (Some 5) (__init__ 2 3600)) in
  map fst (_cache c) = ["a"; "b"] /\
  map fst (_cache (put 2 2 "c" 3 None c)) = ["b"; "c"].
Proof. split; reflexivity. Qed.

Lemma two_entries_full : full_and_fresh 2 Scenario.two_entries.
Proof.
  repeat split.
  - unfold dict_ok. simpl. apply NoDup_cons_2; [|apply NoDup_singleton].
    intros Hin. apply list_elem_of_singleton in Hin. discriminate.
  - repeat constructor.
Qed.

Lemma put_at_capacity_witness :
  evicts_nearest 2 2 "c" 3 None Scenario.two_entries /\
  evicts_nothing 2 2 "a" 9 None Scenario.two_entries.
Proof.
  pose proof (put_at_capacity 2 2 "c" 3 None Scenario.two_entries ltac:(simpl; lia)
                two_entries_full) as [H1 _].
  pose proof (put_at_capacity 2 2 "a" 9 None Scenario.two_entries ltac:(simpl; lia)
                two_entries_full) as [_ H2].
  split; [apply H1 | apply H2]; reflexivity.
Defined.

Lemma get_after_put_with_ttl_witness :
  let c' := put 10 10 "k" 42 (Some 1) (__init__ 2 3600) in
  fst (get (21 # 2) "k" c') = Some 42 /\
  fst (get 11 "k" c') = None /\
  contains 12 "k" (snd (get 11 "k" c')) = false.
Proof.
  intros c'.
  pose proof (get_after_put_with_ttl 10 10 "k" 42 1 (__init__ 2 3600) (21 # 2)
                ltac:(lia) (NoDup_nil_2 (A := string))) as [H1 _].
  pose proof (get_after_put_with_ttl 10 10 "k" 42 1 (__init__ 2 3600) 11
                ltac:(lia) (NoDup_nil_2 (A := string))) as [_ H2].
  split; [apply H1; reflexivity|].
  destruct (H2 ltac:(discriminate)) as (Hnone & _ & _ & _ & _ & _ & Hlater).
  split; [exact Hnone|].
  exact (Hlater [] 12%Q (Forall_nil_2 _)).
Defined.
End MemoryCacheFacts.

(** ** dedupe_by_link *)

Module WebFacts.
Import Web.

Lemma in_seen_elem (k : string) (seen : list string) :
  in_seen k seen = true <-> k ∈ seen.
Proof.
  unfold in_seen. rewrite existsb_exists. split.
  - intros (x & Hin & Heq). apply String.eqb_eq in Heq. subst x.
    now apply list_elem_of_In.
  - intros Hin. exists k. split; [now apply list_elem_of_In | apply String.eqb_refl].
Qed.

Lemma in_seen_not_elem (k : string) (seen : list string) :
  in_seen k seen = false <-> k ∉ seen.
Proof.
  rewrite <- in_seen_elem. destruct (in_seen k seen); split; congruence.
Qed.

Section Dedupe.
Context {A : Type} (read : A -> record).

Local Abbreviation key := (Web.key read).
Local Abbreviation seen_after := (Web.seen_after read).

(** An item passes the test of the loop. *)
Lemma keep_iff (x : A) (seen : list string) :
  negb (String.eqb (key x) "") && negb (in_seen (key x) seen) = true
  <-> key x <> ""%string /\ key x ∉ seen.
Proof.
  rewrite andb_true_iff, !negb_true_iff, in_seen_not_elem.
  now rewrite String.eqb_neq.
Qed.

Lemma dedupe_loop_cons_keep (x : A) (seen : list string) (xs : list A) :
  key x <> ""%string -> key x ∉ seen ->
  dedupe_loop read seen (x :: xs) = x :: dedupe_loop read (key x :: seen) xs.
Proof.
  intros H1 H2. simpl. fold (Web.key read x).
  destruct (negb (String.eqb (key x) "") && negb (in_seen (key x) seen)) eqn:E;
    [reflexivity|].
  exfalso. apply not_true_iff_false in E. apply E. now apply keep_iff.
Qed.

Lemma dedupe_loop_cons_drop (x : A) (seen : list string) (xs : list A) :
  key x = ""%string \/ key x ∈ seen ->
  dedupe_loop read seen (x :: xs) = dedupe_loop read seen xs.
Proof.
  intros H. simpl. fold (Web.key read x).
  destruct (negb (String.eqb (key x) "") && negb (in_seen (key x) seen)) eqn:E;
    [|reflexivity].
  apply keep_iff in E. destruct E as [E1 E2]. destruct H; contradiction.
Qed.

Lemma dedupe_loop_case (x : A) (seen : list string) :
  (key x <> ""%string /\ key x ∉ seen) \/ (key x = ""%string \/ key x ∈ seen).
Proof.
  destruct (decide (key x = ""%string)); [auto|].
  destruct (decide (key x ∈ seen)); auto.
Qed.

(** What the loop lets through: items with a key, new to [seen], no two
    with the same key, in the order of the input. *)
Lemma dedupe_loop_out (xs : list A) : forall seen,
  Forall (fun x => key x <> ""%string /\ key x ∉ seen) (dedupe_loop read seen xs) /\
  NoDup (map key (dedupe_loop read seen xs)) /\
  sublist (dedupe_loop read seen xs) xs.
Proof.
  induction xs as [|x xs IH]; intros seen.
  - simpl. split; [constructor|]. split; [apply NoDup_nil_2 | constructor].
  - destruct (dedupe_loop_case x seen) as [[H1 H2]|H].
    + rewrite dedupe_loop_cons_keep by assumption.
      destruct (IH (key x :: seen)) as (Hall & Hnd & Hsub).
      split; [|split].
      * constructor; [auto|].
        eapply Forall_impl; [exact Hall|]. simpl.
        intros y [Hy1 Hy2]. split; [exact Hy1|].
        intros Hin. apply Hy2. now right.
      * simpl. apply NoDup_cons_2; [|exact Hnd].
        intros Hin. apply list_elem_of_fmap in Hin as (y & Hy & Hyin).
        rewrite Forall_forall in Hall. destruct (Hall y Hyin) as [_ Hy2].
        apply Hy2. rewrite Hy. left.
      * now constructor.
    + rewrite dedupe_loop_cons_drop by assumption.
      destruct (IH seen) as (Hall & Hnd & Hsub).
      split; [exact Hall|]. split; [exact Hnd|]. now constructor.
Qed.

(** A list the loop has nothing to remove from. *)
Lemma dedupe_loop_fixed (ys : list A) : forall seen,
  Forall (fun x => key x <> ""%string /\ key x ∉ seen) ys ->
  NoDup (map key ys) ->
  dedupe_loop read seen ys = ys.
Proof.
  induction ys as [|y ys IH]; intros seen Hall Hnd; [reflexivity|].
  inversion Hall as [|? ? [Hy1 Hy2] Hall']; subst.
  simpl in Hnd. apply NoDup_cons in Hnd as [Hy Hnd].
  rewrite dedupe_loop_cons_keep by assumption. f_equal.
  apply IH; [|exact Hnd].
  rewrite Forall_forall in Hall' |- *. intros x Hx.
  destruct (Hall' x Hx) as [Hx1 Hx2]. split; [exact Hx1|].
  intros Hin. apply elem_of_cons in Hin as [Heq|Hin]; [|contradiction].
  apply Hy. apply list_elem_of_fmap. exists x. split; [now symmetry | exact Hx].
Qed.

Lemma dedupe_loop_app (xs ys : list A) : forall seen,
  dedupe_loop read seen (xs ++ ys)
  = dedupe_loop read seen xs ++ dedupe_loop read (seen_after seen xs) ys.
Proof.
  unfold Web.seen_after. induction xs as [|x xs IH]; intros seen; [reflexivity|].
  rewrite <- app_comm_cons.
  destruct (dedupe_loop_case x seen) as [[H1 H2]|H].
  - rewrite !dedupe_loop_cons_keep by assumption.
    rewrite IH. simpl. rewrite <- app_assoc. reflexivity.
  - rewrite !dedupe_loop_cons_drop by assumption. apply IH.
Qed.

Lemma seen_after_elem (k : string) (seen : list string) (xs : list A) :
  k ∈ seen_after seen xs <->
  k ∈ seen \/ (k <> ""%string /\ k ∈ map key xs).
Proof.
  unfold Web.seen_after. revert seen. induction xs as [|x xs IH]; intros seen.
  - simpl. rewrite elem_of_nil. tauto.
  - destruct (dedupe_loop_case x seen) as [[H1 H2]|H].
    + rewrite dedupe_loop_cons_keep by assumption. simpl.
      rewrite <- app_assoc. simpl.
      rewrite (IH (key x :: seen)). rewrite !elem_of_cons.
      split.
      * intros [[->|Hs]|[Hk Hin]]; auto.
      * intros [Hs|[Hk [->|Hin]]]; auto.
    + rewrite dedupe_loop_cons_drop by assumption. simpl.
      rewrite (IH seen). rewrite elem_of_cons.
      split.
      * intros [Hs|[Hk Hin]]; auto.
      * intros [Hs|[Hk [->|Hin]]]; auto.
        destruct H as [H|H]; [contradiction | auto].
Qed.

(** The key of a record is read off its fields: its ["link"] when that
    is a non-empty string, else its ["url"], else the empty string; with
    the whitespace around it removed. *)
Lemma key_of_fields (x : A) :
  (forall l, link (read x) = Some l -> l <> ""%string -> key x = Py.strip l) /\
  (link (read x) = None \/ link (read x) = Some ""%string ->
   (forall u, url (read x) = Some u -> key x = Py.strip u) /\
   (url (read x) = None -> key x = ""%string)).
Proof.
  unfold key, link_key, Py.or_, Py.truthy. split.
  - intros l -> Hl. apply String.eqb_neq in Hl.
    cbn. rewrite Hl. cbn. now rewrite Hl.
  - intros [-> | ->]; cbn; split.
    + intros u ->. destruct (String.eqb u "") eqn:E; cbn; rewrite ?E; cbn;
        [apply String.eqb_eq in E; now subst u | reflexivity].
    + now intros ->.
    + intros u ->. destruct (String.eqb u "") eqn:E; cbn; rewrite ?E; cbn;
        [apply String.eqb_eq in E; now subst u | reflexivity].
    + now intros ->.
Qed.

(** C9.  [dedupe_by_link] is idempotent.  The link of a record is its
    ["link"] when that is a non-empty string, else its ["url"], without
    the whitespace around it; a record has no link when what is left is
    empty.  The output is a subsequence of the input (the order is the
    input's) in which no link occurs twice and every link of the input
    occurs; the first item carrying a link is kept, at its place, and a
    later item with a link already met is left out, as is an item
    without link. *)
Theorem dedupe_by_link_idempotent_first_wins (xs : list A) :
  dedupe_by_link read (dedupe_by_link read xs) = dedupe_by_link read xs /\
  (forall x,
     (forall l, link (read x) = Some l -> l <> ""%string -> key x = Py.strip l) /\
     (link (read x) = None \/ link (read x) = Some ""%string ->
      (forall u, url (read x) = Some u -> key x = Py.strip u) /\
      (url (read x) = None -> key x = ""%string))) /\
  sublist (dedupe_by_link read xs) xs /\
  NoDup (map key (dedupe_by_link read xs)) /\
  (forall k, k ∈ map key (dedupe_by_link read xs) <->
             k <> ""%string /\ k ∈ map key xs) /\
  (forall pre x post, xs = pre ++ x :: post ->
     (key x <> ""%string -> key x ∉ map key pre ->
        exists out, dedupe_by_link read xs = dedupe_by_link read pre ++ x :: out) /\
     (key x <> ""%string -> key x ∈ map key pre ->
        exists out, dedupe_by_link read xs = dedupe_by_link read pre ++ out /\
                    key x ∉ map key out) /\
     (key x = ""%string ->
        dedupe_by_link read xs = dedupe_by_link read (pre ++ post))).
Proof.
  unfold dedupe_by_link.
  destruct (dedupe_loop_out xs []) as (Hall & Hnd & Hsub).
  split; [now apply dedupe_loop_fixed|].
  split; [exact key_of_fields|].
  split; [exact Hsub|]. split; [exact Hnd|].
  split.
  { intros k. pose proof (seen_after_elem k [] xs) as Hk.
    unfold seen_after in Hk. rewrite app_nil_r, elem_of_nil in Hk.
    rewrite !list_elem_of_In in Hk. rewrite <- in_rev in Hk.
    rewrite !list_elem_of_In. tauto. }
  intros pre x post ->. rewrite !dedupe_loop_app.
  split; [|split];
    [intros Hk Hpre | intros Hk Hpre
     | intros Hk; now rewrite dedupe_loop_cons_drop by auto].
  - assert (Hnew : key x ∉ seen_after [] pre).
    { rewrite seen_after_elem, elem_of_nil. tauto. }
    rewrite dedupe_loop_cons_keep by assumption. eauto.
  - assert (Hold : key x ∈ seen_after [] pre).
    { rewrite seen_after_elem. auto. }
    rewrite dedupe_loop_cons_drop by auto.
    eexists. split; [reflexivity|].
    destruct (dedupe_loop_out post (seen_after [] pre)) as (Hall' & _ & _).
    intros Hin. apply list_elem_of_fmap in Hin as (y & Hy & Hyin).
    rewrite Forall_forall in Hall'. destruct (Hall' y Hyin) as [_ Hy2].
    apply Hy2. now rewrite <- Hy.
Qed.

(** A record without a link changes nothing for the others. *)
Lemma dedupe_by_link_skips_empty (xs ys : list A) (p : A) :
  key p = ""%string ->
  dedupe_by_link read (xs ++ p :: ys) = dedupe_by_link read (xs ++ ys).
Proof.
  intros Hp. unfold dedupe_by_link. rewrite !dedupe_loop_app.
  now rewrite dedupe_loop_cons_drop by auto.
Qed.

Lemma dedupe_by_link_keys (xs : list A) :
  Forall (fun x => key x <> ""%string) (dedupe_by_link read xs).
Proof.
  destruct (dedupe_loop_out xs []) as (Hall & _ & _).
  eapply Forall_impl; [exact Hall|]. now intros x [Hx _].
Qed.

End Dedupe.

(** Five records: a page, a second page known by its url only, the first
    page again under a padded link, a record without link, the second page
    again.  The first of each page stays, in the order of the input. *)
Example dedupe_by_link_example :
  let a := mkRecord (Some "A") (Some "https://a.org/1") None None None None None in
  let b := mkRecord (Some "B") None (Some "https://b.org/x") None None None None in
  let a' := mkRecord (Some "A again") (Some " https://a.org/1 ") None None None None None in
  let p := mkRecord (Some "s") (Some "") None None None (Some "Websearch error: e") None in
  dedupe_by_link (fun r => r) [a; b; a'; p; b] = [a; b].
Proof. reflexivity. Qed.

End WebFacts.

(** ** The heap of records and the workers *)

Module HeapFacts.
Import Web.

Lemma length_update (h : heap) (a : addr) (f : record -> record) :
  length (update h a f) = length h.
Proof. unfold update. apply length_insert. Qed.

Lemma deref_update_same (h : heap) (a : addr) (f : record -> record) :
  (a < length h)%nat -> deref (update h a f) a = f (deref h a).
Proof.
  intros Ha. unfold update. set (x := f (deref h a)). unfold deref.
  now rewrite list_lookup_insert_eq.
Qed.

Lemma deref_update_other (h : heap) (a b : addr) (f : record -> record) :
  a <> b -> deref (update h a f) b = deref h b.
Proof.
  intros Hne. unfold deref, update. now rewrite list_lookup_insert_ne.
Qed.

Lemma deref_elem (P : record -> Prop) (h : heap) (a : addr) :
  Forall P h -> (a < length h)%nat -> P (deref h a).
Proof.
  intros Hall Ha. unfold deref.
  destruct (lookup_lt_is_Some_2 h a Ha) as [r Hr]. rewrite Hr. simpl.
  rewrite Forall_forall in Hall. apply Hall.
  apply list_elem_of_lookup. eauto.
Qed.

Lemma Forall_update (P : record -> Prop) (h : heap) (a : addr) (f : record -> record) :
  Forall P h -> (forall r, P r -> P (f r)) -> Forall P (update h a f).
Proof.
  intros Hall Hf. unfold update.
  destruct (decide (a < length h)%nat) as [Ha|Ha].
  - apply Forall_insert; [exact Hall|]. apply Hf. now apply deref_elem.
  - rewrite list_insert_ge by lia. exact Hall.
Qed.

Lemma deref_app_l (h h' : heap) (a : addr) :
  (a < length h)%nat -> deref (h ++ h') a = deref h a.
Proof. intros Ha. unfold deref. now rewrite lookup_app_l. Qed.

Lemma keeps_link_key (f : record -> record) (r : record) :
  keeps f -> link_key (f r) = link_key r.
Proof.
  intros Hf. destruct (Hf r) as (Hl & Hu & _). unfold link_key. now rewrite Hl, Hu.
Qed.

Lemma keeps_id : keeps (fun r => r).
Proof. now intros r. Qed.

Lemma keeps_set_summary (s : string) : keeps (fun r => set_summary r s).
Proof. now intros r. Qed.

Lemma keeps_set_summary_title (s t : string) :
  keeps (fun r => set_title (set_summary r s) t).
Proof. now intros r. Qed.

Section Worker.
Variable netloc : string -> option string.
Variable ALLOWED_DOMAINS : list string.

Lemma keeps_summarize_loop (w : worker_env) (title0 : string) :
  keeps (summarize_loop w title0).
Proof.
  intros r. unfold summarize_loop.
  destruct (Llm.retry_loop _ _ _) as [r'|] eqn:E; simpl; [|auto].
  revert E.
  apply (LlmFacts.retry_loop_result
           (fun r' => link r' = link r /\ url r' = url r /\ n r' = n r)).
  - intros attempt x. unfold summarize_attempt.
    destruct (summarize w attempt) as [[text|]|e]; try discriminate.
    now intros [= <-].
  - now intros e.
Qed.

Lemma worker_shape (w : worker_env) (a : addr) (h : heap) (queue : list addr) :
  exists f,
    keeps f /\
    expand_and_summarize_web netloc ALLOWED_DOMAINS w a (h, queue)
    = (update h a f, queue ++ worker_puts netloc ALLOWED_DOMAINS w (deref h a) a).
Proof.
  unfold expand_and_summarize_web, worker_puts, early_return.
  set (url0 := default ""%string _).
  destruct (String.eqb url0 "" || negb (is_allowed_url netloc ALLOWED_DOMAINS url0)) eqn:E.
  { simpl. eexists. split; [apply (keeps_set_summary "Filtered or invalid URL")|].
    now rewrite <- app_assoc. }
  simpl. set (title0 := match title (deref h a) with Some t => t | None => _ end).
  destruct (fetch w) as [|e|ctype].
  - eexists. split; [apply (keeps_set_summary_title "Failed to fetch page." title0)|].
    now rewrite <- app_assoc.
  - eexists. split; [apply (keeps_summarize_loop w title0)|]. reflexivity.
  - destruct (is_probably_pdf url0 (Some ctype)).
    + eexists. split; [apply (keeps_set_summary_title "PDF detected; skipped parsing." title0)|].
      now rewrite <- app_assoc.
    + eexists. split; [apply (keeps_summarize_loop w title0)|]. reflexivity.
Qed.

End Worker.
End HeapFacts.

(** ** executor: aggregation *)

Module ExecutorFacts.
Import Web Models Agents HeapFacts.

Lemma allocated_grow (h h' : heap) (rs : list addr) :
  (length h <= length h')%nat -> allocated h rs -> allocated h' rs.
Proof.
  intros Hle Hrs. unfold allocated in *.
  eapply Forall_impl; [exact Hrs|]. simpl. intros a Ha. lia.
Qed.

Lemma alloc_all_spec (rs : list record) : forall h,
  alloc_all h rs = (h ++ rs, seq (length h) (length rs)).
Proof.
  induction rs as [|r rs IH]; intros h; simpl.
  - now rewrite app_nil_r.
  - rewrite IH. rewrite length_app. simpl.
    rewrite <- app_assoc. simpl. do 3 f_equal. lia.
Qed.

Lemma search_spec (o : cse_outcome) (h : heap) :
  exists rs,
    search_with_google_cse o h = (h ++ rs, seq (length h) (length rs)) /\
    unnumbered rs.
Proof.
  destruct o as [items|e]; simpl.
  - exists (map record_of_item items). split; [apply alloc_all_spec|].
    unfold unnumbered. apply Forall_fmap. now apply Forall_true.
  - exists []. rewrite app_nil_r. split; [reflexivity | constructor].
Qed.

Lemma slice_to_prefix {A} (xs : list A) (m : Z) :
  exists k, Py.slice_to xs m = take k xs.
Proof. unfold Py.slice_to. destruct (0 <=? m); eauto. Qed.

(** The queue holds what the threads put, each put once. *)
Lemma interleave_perm (sched : list nat) : forall puts,
  interleave sched puts ≡ₚ concat puts.
Proof.
  induction sched as [|w sched IH]; intros puts; simpl; [reflexivity|].
  destruct (puts !! w) as [[|x rest]|] eqn:E; try apply IH.
  rewrite IH.
  rewrite <- (take_drop_middle puts w (x :: rest) E) at 2.
  rewrite insert_take_drop by (eapply lookup_lt_Some; exact E).
  rewrite !concat_app. simpl. apply Permutation_middle.
Qed.

Section Aggregation.
Variable SUBQ_SEARCH_COUNT : Z.
Variable ALLOWED_DOMAINS : list string.
Variable netloc : string -> option string.

Lemma run_workers_spec (env : nat -> worker_env) (links : list addr) :
  forall i h,
    exists h' puts,
      run_workers ALLOWED_DOMAINS netloc env i links h = (h', puts) /\
      length h' = length h /\
      (unnumbered h -> unnumbered h') /\
      Forall (fun a => a ∈ links) (concat puts).
Proof.
  induction links as [|a links IH]; intros i h; cbn [run_workers].
  - exists h, []. repeat split; auto.
  - destruct (worker_shape netloc ALLOWED_DOMAINS (env i) a h [])
      as (f & Hf & ->).
    destruct (IH (S i) (update h a f)) as (h' & puts & -> & Hlen & Hn & Hin).
    eexists _, _. split; [reflexivity|]. split; [|split].
    + now rewrite Hlen, length_update.
    + intros Hh. apply Hn. apply Forall_update; [exact Hh|].
      intros r Hr. destruct (Hf r) as (_ & _ & ->). exact Hr.
    + simpl. apply Forall_app. split.
      * unfold worker_puts. destruct (early_return _ _ _ _); repeat constructor.
      * eapply Forall_impl; [exact Hin|]. intros b Hb. now right.
Qed.

Lemma executor_subq_ok (env : subq_env) (subq : string) (ha : heap * list addr) :
  aggregate_ok ha ->
  aggregate_ok (executor_subq SUBQ_SEARCH_COUNT ALLOWED_DOMAINS netloc env subq ha).
Proof.
  destruct ha as [h aggregated]. intros [Hn Ha]. simpl in Hn, Ha.
  unfold executor_subq.
  destruct (search_spec (cse env) h) as (rs & -> & Hrs).
  set (h1 := h ++ rs).
  assert (Hn1 : unnumbered h1) by (apply Forall_app; now split).
  assert (Ha1 : allocated h1 aggregated).
  { eapply allocated_grow; [|exact Ha]. unfold h1. rewrite length_app. lia. }
  set (links := Py.slice_to _ SUBQ_SEARCH_COUNT).
  assert (Hlinks : allocated h1 links).
  { unfold links. destruct (slice_to_prefix
      (filter (fun l => allowed_url
                 (default ""%string (Py.or_ (link (deref h1 l)) (url (deref h1 l)))) = true)
              (seq (length h) (length rs))) SUBQ_SEARCH_COUNT) as [k ->].
    apply Forall_take. apply Forall_forall. intros a Ha'.
    apply list_elem_of_filter in Ha' as [_ Ha']. apply elem_of_seq in Ha'.
    unfold h1. rewrite length_app. lia. }
  clearbody links.
  assert (Hgoal : forall h2 agg2 threads,
            unnumbered h2 -> allocated h2 agg2 -> allocated h2 threads ->
            aggregate_ok
              (let '(h3, puts) :=
                 run_workers ALLOWED_DOMAINS netloc (worker env) 0 threads h2 in
               (h3, agg2 ++ interleave (schedule env) puts))).
  { intros h2 agg2 threads Hn2 Ha2 Ht2.
    destruct (run_workers_spec (worker env) threads 0%nat h2)
      as (h3 & puts & -> & Hlen & Hn3 & Hin).
    split; simpl; [auto|].
    apply Forall_app. split.
    - eapply allocated_grow; [|exact Ha2]. lia.
    - unfold allocated. rewrite (interleave_perm (schedule env) puts).
      eapply Forall_impl; [exact Hin|]. intros a Hin'. rewrite Hlen.
      unfold allocated in Ht2. rewrite Forall_forall in Ht2. auto. }
  destruct (try_ends env) as [|started e].
  - now apply Hgoal.
  - unfold alloc. apply Hgoal.
    + apply Forall_app. split; [exact Hn1 | repeat constructor].
    + apply Forall_app. split.
      * eapply allocated_grow; [|exact Ha1]. rewrite length_app. lia.
      * repeat constructor. rewrite length_app. simpl. lia.
    + eapply allocated_grow; [|apply Forall_take; exact Hlinks].
      rewrite length_app. lia.
Qed.

Lemma executor_loop_ok (envs : nat -> subq_env) (subqs : list string) :
  forall i ha,
    aggregate_ok ha ->
    aggregate_ok
      (executor_loop SUBQ_SEARCH_COUNT ALLOWED_DOMAINS netloc envs i subqs ha).
Proof.
  induction subqs as [|subq subqs IH]; intros i ha Hok; simpl; [exact Hok|].
  apply IH. now apply executor_subq_ok.
Qed.

Lemma aggregate_is_ok (env : executor_env) (state : QueryState) :
  aggregate_ok (aggregate SUBQ_SEARCH_COUNT ALLOWED_DOMAINS netloc env state).
Proof.
  unfold aggregate. apply executor_loop_ok. split; constructor.
Qed.

End Aggregation.
(** ** executor: numbering *)

Lemma numbered_indices (rs : list record) : forall i,
  map n (numbered i rs) = Some <$> seqZ (i + 1) (Py.len rs).
Proof.
  unfold Py.len. induction rs as [|r rs IH]; intros i; [reflexivity|].
  cbn [numbered map length]. rewrite IH.
  rewrite (seqZ_cons (i + 1)) by lia. cbn [fmap list_fmap n set_n].
  do 3 f_equal; lia.
Qed.

Lemma unnumbered_indices (rs : list record) :
  unnumbered rs -> map n rs = replicate (length rs) None.
Proof.
  induction 1 as [|r rs Hr _ IH]; [reflexivity|].
  simpl. now rewrite Hr, IH.
Qed.

Lemma length_number_from (rs : list addr) : forall i h,
  length (number_from i rs h) = length h.
Proof.
  induction rs as [|r rs IH]; intros i h; simpl; [reflexivity|].
  now rewrite IH, length_update.
Qed.

Lemma number_from_other (rs : list addr) (b : addr) : forall i h,
  b ∉ rs -> deref (number_from i rs h) b = deref h b.
Proof.
  induction rs as [|r rs IH]; intros i h Hb; simpl; [reflexivity|].
  rewrite not_elem_of_cons in Hb. destruct Hb as [Hne Hb].
  rewrite IH by assumption. apply deref_update_other. congruence.
Qed.

Lemma number_from_numbered (rs : list addr) : forall i h,
  NoDup rs -> allocated h rs ->
  map (deref (number_from i rs h)) rs = numbered i (map (deref h) rs).
Proof.
  induction rs as [|r rs IH]; intros i h Hnd Hal; [reflexivity|].
  apply NoDup_cons in Hnd as [Hr Hnd]. inversion Hal as [|? ? Hr' Hal']; subst.
  cbn [number_from map numbered]. f_equal.
  - rewrite number_from_other by assumption. now apply deref_update_same.
  - rewrite IH; [|exact Hnd|].
    + f_equal. apply map_ext_in. intros b Hb.
      apply deref_update_other. intros ->. apply Hr. now apply list_elem_of_In.
    + eapply allocated_grow; [|exact Hal']. now rewrite length_update.
Qed.

Lemma number_from_link_key (rs : list addr) (b : addr) : forall i h,
  link_key (deref (number_from i rs h) b) = link_key (deref h b).
Proof.
  induction rs as [|r rs IH]; intros i h; simpl; [reflexivity|].
  rewrite IH. destruct (decide (r = b)) as [->|Hne].
  - destruct (decide (b < length h)%nat) as [Hb|Hb].
    + now rewrite deref_update_same.
    + unfold update. now rewrite list_insert_ge by lia.
  - now rewrite deref_update_other.
Qed.

Lemma executor_rag_subqueries (o : rag_outcome) (state : QueryState) :
  subqueries (executor_rag o state) = subqueries state.
Proof. destruct o as [text [s|]|e]; reflexivity. Qed.

Section Executor.
Variable SUBQ_SEARCH_COUNT : Z.
Variable MAX_SOURCES_FOR_CITATIONS : Z.
Variable ALLOWED_DOMAINS : list string.
Variable netloc : string -> option string.

Let aggregate := aggregate SUBQ_SEARCH_COUNT ALLOWED_DOMAINS netloc.
Let executor :=
  executor SUBQ_SEARCH_COUNT MAX_SOURCES_FOR_CITATIONS ALLOWED_DOMAINS netloc.

Lemma executor_web_results (env : executor_env) (state : QueryState) :
  let h := fst (aggregate env state) in
  let web := dedupe_by_link (deref h) (snd (aggregate env state)) in
  web_results (executor env state)
  = map (deref (number_from 0 (Py.slice_to web MAX_SOURCES_FOR_CITATIONS) h)) web.
Proof.
  unfold executor, Agents.executor, aggregate, Agents.aggregate.
  rewrite executor_rag_subqueries.
  destruct (executor_loop _ _ _ _ _ _ _) as [h agg]. reflexivity.
Qed.

(** C5, for a bound [MAX_SOURCES_FOR_CITATIONS] that is not negative.
    The executor numbers after deduplicating: when the loop over
    the subquestions is over no aggregated record carries an index;
    [web_results] is the deduplicated list with [n = 1..k] written on
    its first [k] records, [k] the smaller of its length and
    [MAX_SOURCES_FOR_CITATIONS], the records after them left without
    index. *)
Theorem executor_citation_indices (env : executor_env) (state : QueryState) :
  0 <= MAX_SOURCES_FOR_CITATIONS ->
  let h := fst (aggregate env state) in
  let aggregated := snd (aggregate env state) in
  let deduped := map (deref h) (dedupe_by_link (deref h) aggregated) in
  let k := Z.min (Py.len deduped) MAX_SOURCES_FOR_CITATIONS in
  Forall (fun a => n (deref h a) = None) aggregated /\
  web_results (executor env state)
  = numbered 0 (take (Z.to_nat k) deduped) ++ drop (Z.to_nat k) deduped /\
  map n (web_results (executor env state))
  = (Some <$> seqZ 1 k) ++ replicate (length deduped - Z.to_nat k) None.
Proof.
  intros Hmax h aggregated deduped k.
  destruct (aggregate_is_ok SUBQ_SEARCH_COUNT ALLOWED_DOMAINS netloc env state)
    as [Hn Hal].
  fold aggregate in Hn, Hal. fold h in Hn, Hal. fold aggregated in Hal.
  set (web := dedupe_by_link (deref h) aggregated) in *.
  destruct (WebFacts.dedupe_loop_out (deref h) aggregated []) as (_ & Hnd & Hsub).
  fold (dedupe_by_link (deref h) aggregated) in Hnd, Hsub. fold web in Hnd, Hsub.
  apply NoDup_fmap_1 in Hnd.
  assert (Hweb : allocated h web).
  { unfold allocated in *. rewrite Forall_forall in Hal |- *.
    intros a Ha. apply Hal. eapply elem_of_sublist; eassumption. }
  assert (Hnone : forall a, a ∈ aggregated -> n (deref h a) = None).
  { intros a Ha. unfold allocated in Hal. rewrite Forall_forall in Hal.
    apply (deref_elem (fun r => n r = None)); auto. }
  assert (Hk : Z.to_nat k = Nat.min (Z.to_nat MAX_SOURCES_FOR_CITATIONS) (length web)).
  { unfold k, deduped, Py.len. rewrite length_map. lia. }
  assert (Hres : web_results (executor env state)
                 = numbered 0 (take (Z.to_nat k) deduped) ++ drop (Z.to_nat k) deduped).
  { rewrite executor_web_results. fold aggregate h aggregated web.
    rewrite PyFacts.slice_to_nonneg by assumption.
    rewrite <- (take_drop (Z.to_nat MAX_SOURCES_FOR_CITATIONS) web) at 2.
    rewrite <- (take_drop (Z.to_nat MAX_SOURCES_FOR_CITATIONS) web) in Hnd.
    apply NoDup_app in Hnd as (Hnd1 & Hdisj & _).
    rewrite map_app. unfold deduped.
    assert (Htake : take (Z.to_nat k) (map (deref h) web)
                    = map (deref h) (take (Z.to_nat MAX_SOURCES_FOR_CITATIONS) web)).
    { rewrite Hk. rewrite <- fmap_take. f_equal.
      rewrite <- take_take. now rewrite firstn_all. }
    assert (Hdrop : drop (Z.to_nat k) (map (deref h) web)
                    = map (deref h) (drop (Z.to_nat MAX_SOURCES_FOR_CITATIONS) web)).
    { rewrite <- fmap_drop. f_equal. rewrite Hk.
      destruct (decide (Z.to_nat MAX_SOURCES_FOR_CITATIONS <= length web)%nat).
      - f_equal. lia.
      - rewrite !drop_ge by lia. reflexivity. }
    rewrite Htake, Hdrop. f_equal.
    - apply number_from_numbered; [exact Hnd1|].
      now apply Forall_take.
    - apply map_ext_in. intros b Hb. apply number_from_other.
      intros Hin. eapply Hdisj; [exact Hin|]. now apply list_elem_of_In. }
  split; [now apply Forall_forall|]. split; [exact Hres|].
  rewrite Hres, map_app, numbered_indices. f_equal.
  - f_equal. f_equal. unfold Py.len. rewrite length_take. unfold k, Py.len. lia.
  - rewrite <- length_drop. apply unnumbered_indices.
    apply Forall_drop. unfold deduped. apply Forall_fmap.
    apply Forall_forall. intros a Ha. simpl.
    apply Hnone. eapply elem_of_sublist; eassumption.
Qed.

(** Every record of [web_results] has a link. *)
Lemma executor_results_have_links (env : executor_env) (state : QueryState) :
  Forall (fun r => link_key r <> ""%string) (web_results (executor env state)).
Proof.
  rewrite executor_web_results. apply Forall_fmap.
  eapply Forall_impl; [apply WebFacts.dedupe_by_link_keys|].
  intros a Ha. simpl. unfold Web.key in Ha. now rewrite number_from_link_key.
Qed.

End Executor.

(** ** Concrete passes of the executor *)

(** C5 as stated fails for a negative [MAX_SOURCES_FOR_CITATIONS], which
    [int(os.getenv(...))] accepts: the slice [web_results[:-1]] counts
    from the end, so with two deduplicated records the first is numbered
    1 and the second left without index, whereas [k], the smaller of 2
    and -1, is -1 and announces no index at all. *)
Lemma negative_cap_numbers_from_the_end :
  let env := Scenario.env_of [] in
  let state := Scenario.asking ["s"%string] in
  let h := fst (Scenario.aggregate env state) in
  let aggregated := snd (Scenario.aggregate env state) in
  let deduped := map (deref h) (dedupe_by_link (deref h) aggregated) in
  let k := Z.min (Py.len deduped) (-1) in
  let web_results := web_results (Agents.executor 3 (-1) [] Scenario.netloc env state) in
  Py.len deduped = 2 /\ k = -1 /\
  map n web_results = [Some 1; None] /\
  map n web_results
  <> (Some <$> seqZ 1 k) ++ replicate (length deduped - Z.to_nat k) None.
Proof. vm_compute. repeat split; try reflexivity. discriminate. Qed.

Lemma executor_citation_indices_witness :
  map n (web_results (Scenario.executor (Scenario.env_of []) (Scenario.asking ["s"%string])))
  = [Some 1; Some 2].
Proof.
  destruct (executor_citation_indices 3 10 [] Scenario.netloc
              (Scenario.env_of []) (Scenario.asking ["s"%string]) ltac:(lia))
    as (_ & _ & H).
  exact H.
Defined.

Lemma placeholder_has_no_link (subq e : string) :
  link_key (placeholder subq e) = ""%string.
Proof. reflexivity. Qed.

(** No record of [web_results] is a placeholder of a failed search. *)
Lemma executor_never_reports_placeholder
    (SUBQ_SEARCH_COUNT MAX_SOURCES_FOR_CITATIONS : Z) (ALLOWED_DOMAINS : list string)
    (netloc : string -> option string) (env : executor_env) (state : QueryState)
    (r : record) (subq e : string) :
  r ∈ web_results
        (Agents.executor SUBQ_SEARCH_COUNT MAX_SOURCES_FOR_CITATIONS ALLOWED_DOMAINS
           netloc env state) ->
  link r <> link (placeholder subq e) \/ url r <> url (placeholder subq e).
Proof.
  intros Hin.
  pose proof (executor_results_have_links SUBQ_SEARCH_COUNT MAX_SOURCES_FOR_CITATIONS
                ALLOWED_DOMAINS netloc env state) as Hall.
  rewrite Forall_forall in Hall. specialize (Hall r Hin).
  destruct (option_eq_dec (link r) (link (placeholder subq e))) as [Hl|Hl]; [|auto].
  destruct (option_eq_dec (url r) (url (placeholder subq e))) as [Hu|Hu]; [|auto].
  exfalso. apply Hall. unfold link_key. rewrite Hl, Hu. reflexivity.
Qed.

(** C3 fails.  With one subquestion ["s"]: when the search request fails,
    [search_with_google_cse] returns an empty list and nothing at all is
    aggregated; when an exception escapes the [try] block, the placeholder
    is aggregated, but its link is empty and [dedupe_by_link] drops it.
    Either way [web_results] is empty.  With a second subquestion whose
    search succeeds, [web_results] is what that subquestion alone gives. *)
Theorem executor_drops_search_placeholder :
  let s := ["s"%string] in
  snd (Scenario.aggregate (Scenario.env_of [Scenario.subq_http_error]) (Scenario.asking s)) = [] /\
  web_results (Scenario.executor (Scenario.env_of [Scenario.subq_http_error]) (Scenario.asking s)) = [] /\
  map (deref (fst (Scenario.aggregate (Scenario.env_of [Scenario.subq_raises]) (Scenario.asking s))))
      (snd (Scenario.aggregate (Scenario.env_of [Scenario.subq_raises]) (Scenario.asking s)))
  = [placeholder "s" "timed out"] /\
  web_results (Scenario.executor (Scenario.env_of [Scenario.subq_raises]) (Scenario.asking s)) = [] /\
  web_results (Scenario.executor (Scenario.env_of [Scenario.subq_raises; Scenario.subq_found])
                 (Scenario.asking ["s"; "t"]%string))
  = web_results (Scenario.executor (Scenario.env_of [Scenario.subq_found])
                   (Scenario.asking ["t"%string])).
Proof. repeat split; reflexivity. Qed.

(** C10.  A worker puts its record on the queue twice when it leaves by
    an early [return] (URL empty or filtered, no response, PDF), and once
    otherwise, whatever the summarisation does; so every worker puts at
    least once, both puts are the same object, and the aggregate of a pass
    can hold a record twice: it does for a link whose fetch fails. *)
Theorem worker_enqueues_twice_on_early_return :
  (forall netloc ALLOWED_DOMAINS w a h queue,
     snd (expand_and_summarize_web netloc ALLOWED_DOMAINS w a (h, queue))
     = queue ++ (if early_return netloc ALLOWED_DOMAINS w (deref h a)
                 then [a; a] else [a])) /\
  snd (Scenario.aggregate (Scenario.env_of [Scenario.subq_fetch_down])
         (Scenario.asking ["s"%string]))
  = [0%nat; 0%nat].
Proof.
  split; [|reflexivity].
  intros netloc doms w a h queue.
  destruct (worker_shape netloc doms w a h queue) as (f & _ & ->). reflexivity.
Qed.

End ExecutorFacts.

(** ** The stages *)

Module AgentsFacts.
Import Models Agents.
Open Scope string_scope.
Open Scope Z_scope.

Lemma structured_summarizer_keeps (llm : Z -> Llm.gen_result) (state : QueryState) :
  exists state', structured_summarizer llm state = Some state' /\ same_verdict state state'.
Proof.
  unfold structured_summarizer.
  destruct (LlmFacts.retry_loop_returns
              (fun attempt =>
                 match llm attempt with
                 | Llm.GenText t => inl (set_summary state (Py.strip (Llm.text_or_empty t)))
                 | Llm.GenRaise e => inr e
                 end)
              (fun e => set_summary state ("Error: " ++ e)%string)) as [state' H].
  exists state'. split; [exact H|]. revert H.
  apply (LlmFacts.retry_loop_result (same_verdict state)).
  - intros attempt x. destruct (llm attempt); [|discriminate].
    intros [= <-]. now repeat split.
  - intros e. now repeat split.
Qed.

(** Whatever the assignments of [planner] preserve holds of the state
    it returns. *)
Lemma planner_loop_result (P : QueryState -> Prop) (parse : string -> list string)
    (llm : Z -> Llm.gen_response) (range : list Z) : forall state state',
  (forall s, P s -> P (set_previous_subqueries s (subqueries s))) ->
  (forall s v, P s -> P (set_subqueries s v)) ->
  P state -> planner_loop parse llm range state = Some state' -> P state'.
Proof.
  intros state state' Hprev Hsub. revert state.
  induction range as [|attempt range IH]; intros state HP; cbn [planner_loop];
    [discriminate|].
  destruct (llm attempt) as [e|t|e].
  - destruct (Llm.rate_limited e attempt); [now apply IH|].
    intros [= <-]. now apply Hsub.
  - intros [= <-]. now apply Hsub, Hprev.
  - destruct (Llm.rate_limited e attempt); [apply IH; now apply Hprev|].
    intros [= <-]. now apply Hsub, Hprev.
Qed.

(** Over [range(3)] the loop of [planner] always returns. *)
Lemma planner_returns (parse : string -> list string) (llm : Z -> Llm.gen_response)
    (state : QueryState) :
  exists state', planner parse llm state = Some state'.
Proof.
  unfold planner, Py.range3. cbn [planner_loop].
  destruct (llm 0) as [e0|t0|e0]; [|eauto|];
    (destruct (Llm.rate_limited e0 0); [|eauto]);
    (destruct (llm 1) as [e1|t1|e1]; [|eauto|]);
    (destruct (Llm.rate_limited e1 1); [|eauto]);
    destruct (llm 2) as [e2|t2|e2];
    rewrite ?LlmFacts.not_rate_limited_last; eauto.
Qed.

Lemma planner_keeps (parse : string -> list string) (llm : Z -> Llm.gen_response)
    (state : QueryState) :
  exists state', planner parse llm state = Some state' /\ same_verdict state state'.
Proof.
  destruct (planner_returns parse llm state) as [state' H].
  exists state'. split; [exact H|]. revert H.
  apply (planner_loop_result (same_verdict state)).
  - intros s (H1 & H2 & H3). now repeat split.
  - intros s v (H1 & H2 & H3). now repeat split.
  - now repeat split.
Qed.

Lemma synthesizer_keeps (llm : Z -> Llm.gen_result) (state : QueryState) :
  exists state', synthesizer llm state = Some state' /\ same_verdict state state'.
Proof.
  unfold synthesizer.
  destruct (LlmFacts.retry_loop_returns
              (fun attempt =>
                 match llm attempt with
                 | Llm.GenText t => inl (set_final_answer state (Py.strip (Llm.text_or_empty t)))
                 | Llm.GenRaise e => inr e
                 end)
              (fun e => set_final_answer state ("Error: " ++ e)%string)) as [state' H].
  exists state'. split; [exact H|]. revert H.
  apply (LlmFacts.retry_loop_result (same_verdict state)).
  - intros attempt x. destruct (llm attempt); [|discriminate].
    intros [= <-]. now repeat split.
  - intros e. now repeat split.
Qed.

Lemma executor_keeps (c1 c2 : Z) (doms : list string) (netloc : string -> option string)
    (env : executor_env) (state : QueryState) :
  same_verdict state (executor c1 c2 doms netloc env state).
Proof.
  unfold executor. destruct (aggregate _ _ _ _ _) as [h agg].
  destruct (rag env) as [text [s|]|e]; now repeat split.
Qed.

Lemma answer_subquestions_keeps (llm : nat -> Z -> Llm.gen_result) (state : QueryState) :
  same_verdict state (answer_subquestions llm state).
Proof. now repeat split. Qed.

Section Evaluate.
Variable MIN_OVERALL : Py.float.
Variable MAX_LOOPS : Z.
Variable json : Type.
Variable json_loads : string -> json + string.
Variable rubric_of_json : json -> EvalRubric + string.

Let evaluator := evaluator MIN_OVERALL json json_loads rubric_of_json.
Let evaluator_attempt := evaluator_attempt MIN_OVERALL json json_loads rubric_of_json.
Let should_replan := should_replan MIN_OVERALL MAX_LOOPS.
Let attempt_succeeds := attempt_succeeds json json_loads rubric_of_json.
Let attempt_fails := attempt_fails json json_loads rubric_of_json.

(** What [should_replan] answers once a rubric is set.  At the loop cap
    it is "end" whatever the score, the cap being tested first.  Below
    the cap it is "replan" exactly when [overall < MIN_OVERALL], and "end"
    otherwise; with numbers on both sides that is exactly when
    [overall >= MIN_OVERALL], but on a score that is NaN neither
    comparison holds and the answer is "end". *)
Lemma should_replan_decision (state : QueryState) (rubric : EvalRubric) :
  scores state = Some rubric ->
  ((MAX_LOOPS <= loop_count state)%Z -> should_replan state = "end") /\
  ((loop_count state < MAX_LOOPS)%Z ->
     (should_replan state = "replan" <->
      Py.float_lt (overall rubric) MIN_OVERALL = true) /\
     (should_replan state = "end" <->
      Py.float_lt (overall rubric) MIN_OVERALL = false) /\
     (Py.float_ge (overall rubric) MIN_OVERALL = true -> should_replan state = "end") /\
     (Py.is_nan (overall rubric) = false -> Py.is_nan MIN_OVERALL = false ->
      (should_replan state = "end" <->
       Py.float_ge (overall rubric) MIN_OVERALL = true)) /\
     (Py.is_nan (overall rubric) = true ->
      should_replan state = "end" /\
      Py.float_ge (overall rubric) MIN_OVERALL = false)).
Proof.
  intros Hs. unfold should_replan, Agents.should_replan. rewrite Hs. split.
  - intros Hcap. apply Z.leb_le in Hcap. now rewrite Hcap.
  - intros Hcap. apply Z.leb_gt in Hcap. rewrite Hcap.
    destruct (Py.float_lt (overall rubric) MIN_OVERALL) eqn:E.
    + split; [easy|]. split; [easy|]. split.
      { intros Hge. apply PyFacts.float_ge_not_lt in Hge. congruence. }
      split.
      * intros Hx Hy. rewrite (PyFacts.float_lt_or_ge _ _ Hx Hy) in E.
        destruct (Py.float_ge (overall rubric) MIN_OVERALL); [discriminate | easy].
      * intros Hnan. destruct (overall rubric); discriminate.
    + split; [easy|]. split; [easy|]. split; [easy|]. split.
      * intros Hx Hy. rewrite (PyFacts.float_lt_or_ge _ _ Hx Hy) in E.
        destruct (Py.float_ge (overall rubric) MIN_OVERALL); [easy | discriminate].
      * intros Hnan. split; [reflexivity|].
        destruct (overall rubric); try discriminate. apply PyFacts.float_nan_l.
Qed.

(** [should_replan] has no third answer, and it never sends a run at
    the cap back to the planner. *)
Lemma should_replan_labels (state : QueryState) :
  should_replan state = "end" \/
  (should_replan state = "replan" /\ (loop_count state < MAX_LOOPS)%Z).
Proof.
  unfold should_replan, Agents.should_replan.
  destruct (MAX_LOOPS <=? loop_count state) eqn:E; [now left|].
  apply Z.leb_gt in E. destruct (scores state) as [r|]; [|now left].
  destruct (Py.float_lt (overall r) MIN_OVERALL); [now right | now left].
Qed.

(** One attempt of the evaluator against what the service answered: it
    completes exactly when the answers make a rubric, with the branch
    taken on that rubric, and raises exactly the exception the answers
    fail with. *)
Lemma evaluator_attempt_inv (calls : Z -> eval_calls) (state : QueryState)
    (attempt : Z) :
  match evaluator_attempt calls state attempt with
  | inl state' =>
      exists rubric,
        attempt_succeeds (calls attempt) rubric /\
        state' = evaluator_verdict MIN_OVERALL state rubric
  | inr e => attempt_fails (calls attempt) e
  end.
Proof.
  unfold evaluator_attempt, Agents.evaluator_attempt.
  destruct (first_call (calls attempt)) as [t|e] eqn:F;
    [|now apply fails_first_call].
  destruct (String.eqb _ "") eqn:Eraw.
  { apply String.eqb_eq in Eraw. now apply (fails_empty _ _ _ _ _ t). }
  apply String.eqb_neq in Eraw.
  destruct (json_loads (Py.strip (Llm.text_or_empty t))) as [data|e0] eqn:J.
  - destruct (rubric_of_json data) as [rubric|e] eqn:R.
    + exists rubric. split; [|reflexivity].
      now apply (succeeds_at_once _ _ _ _ _ t data).
    + now apply (fails_rubric _ _ _ _ _ t data).
  - destruct (repair_call (calls attempt)) as [t'|e] eqn:F'.
    2:{ now apply (fails_repair_call _ _ _ _ _ t e0). }
    destruct (json_loads (Py.strip (Llm.text_or_empty t'))) as [data|e] eqn:J'.
    2:{ now apply (fails_repaired_text _ _ _ _ _ t t' e0). }
    destruct (rubric_of_json data) as [rubric|e] eqn:R.
    + exists rubric. split; [|reflexivity].
      now apply (succeeds_repaired _ _ _ _ _ t t' e0 data).
    + now apply (fails_repaired_rubric _ _ _ _ _ t t' e0 data).
Qed.

Lemma attempt_succeeds_run (calls : Z -> eval_calls) (state : QueryState)
    (attempt : Z) (rubric : EvalRubric) :
  attempt_succeeds (calls attempt) rubric ->
  evaluator_attempt calls state attempt = inl (evaluator_verdict MIN_OVERALL state rubric).
Proof.
  unfold evaluator_attempt, Agents.evaluator_attempt.
  intros [t data F Hraw J R | t t' e0 data F Hraw J F' J' R];
    rewrite F; apply String.eqb_neq in Hraw; rewrite Hraw, J.
  - now rewrite R.
  - now rewrite F', J', R.
Qed.

Lemma attempt_fails_run (calls : Z -> eval_calls) (state : QueryState)
    (attempt : Z) (e : string) :
  attempt_fails (calls attempt) e ->
  evaluator_attempt calls state attempt = inr e.
Proof.
  unfold evaluator_attempt, Agents.evaluator_attempt.
  intros [F | t F Hraw -> | t data F Hraw J R | t e0 F Hraw J F'
          | t t' e0 F Hraw J F' J' | t t' e0 data F Hraw J F' J' R];
    rewrite F; try reflexivity.
  - apply String.eqb_eq in Hraw. now rewrite Hraw.
  - apply String.eqb_neq in Hraw. now rewrite Hraw, J, R.
  - apply String.eqb_neq in Hraw. now rewrite Hraw, J, F'.
  - apply String.eqb_neq in Hraw. now rewrite Hraw, J, F', J'.
  - apply String.eqb_neq in Hraw. now rewrite Hraw, J, F', J', R.
Qed.

Lemma evaluator_attempt_completes (calls : Z -> eval_calls) (state state' : QueryState)
    (attempt : Z) :
  evaluator_attempt calls state attempt = inl state' ->
  exists rubric, state' = evaluator_verdict MIN_OVERALL state rubric.
Proof.
  intros H. pose proof (evaluator_attempt_inv calls state attempt) as Hinv.
  rewrite H in Hinv. destruct Hinv as (rubric & _ & ->). eauto.
Qed.

Lemma slept_through_body (calls : Z -> eval_calls) (state : QueryState) (attempt : Z) :
  slept_through json json_loads rubric_of_json calls attempt ->
  forall j, 0 <= j < attempt ->
    exists e, evaluator_attempt calls state j = inr e /\ Llm.rate_limited e j = true.
Proof.
  intros [_ Hpre] j Hj. destruct (Hpre j Hj) as (e & Hf & Hrl).
  exists e. split; [now apply attempt_fails_run | exact Hrl].
Qed.

Lemma evaluator_verdict_spec (state : QueryState) (rubric : EvalRubric) :
  let state' := evaluator_verdict MIN_OVERALL state rubric in
  scores state' = Some rubric /\ loop_count state' = loop_count state /\
  (Py.float_ge (overall rubric) MIN_OVERALL = true -> passed state') /\
  (Py.float_ge (overall rubric) MIN_OVERALL = false -> sent_back state state' rubric).
Proof.
  unfold evaluator_verdict, passed, sent_back.
  destruct (Py.float_ge (overall rubric) MIN_OVERALL) eqn:E.
  - repeat split; try reflexivity; discriminate.
  - repeat split; try reflexivity; try discriminate.
    simpl. now destruct (String.eqb (critique rubric) "").
Qed.

(** The evaluator, on every input: it returns; the loop count is one
    more, also when the evaluation fails; the attempt that settles the
    retry loop either gave up, leaving the zero rubric with
    [replan_needed] and the error as critique and feedback and the
    verdict "no", or built a rubric and set the verdict by it. *)
Lemma evaluator_spec (calls : Z -> eval_calls) (state : QueryState) :
  let bumped := set_loop_count state (loop_count state + 1) in
  exists attempt state',
    Llm.settles (evaluator_attempt calls bumped) attempt /\
    evaluator calls state = Some state' /\
    loop_count state' = loop_count state + 1 /\
    scores state' <> None /\ evaluation state' <> "" /\
    match evaluator_attempt calls bumped attempt with
    | inr e => gave_up state state' e
    | inl _ =>
        exists rubric,
          scores state' = Some rubric /\
          (Py.float_ge (overall rubric) MIN_OVERALL = true -> passed state') /\
          (Py.float_ge (overall rubric) MIN_OVERALL = false ->
           sent_back state state' rubric)
    end.
Proof.
  intros bumped. unfold evaluator, Agents.evaluator. fold bumped.
  fold (evaluator_attempt calls bumped).
  destruct (LlmFacts.retry_loop_settles (evaluator_attempt calls bumped)
              (evaluator_failed bumped)) as (attempt & Hsettles & ->).
  exists attempt. eexists. split; [exact Hsettles|]. split; [reflexivity|].
  destruct (evaluator_attempt calls bumped attempt) as [state'|e] eqn:B.
  - apply evaluator_attempt_completes in B as [rubric ->].
    destruct (evaluator_verdict_spec bumped rubric) as (Hs & Hl & Hyes & Hno).
    split; [now rewrite Hl|]. split; [now rewrite Hs|]. split.
    + unfold evaluator_verdict.
      destruct (Py.float_ge (overall rubric) MIN_OVERALL); discriminate.
    + exists rubric. auto.
  - now repeat split.
Qed.

(** The evaluator against what the service answered: the attempt at
    which the evaluation is settled decides the state returned. *)
Lemma evaluator_succeeds (calls : Z -> eval_calls) (state : QueryState)
    (attempt : Z) (rubric : EvalRubric) :
  succeeds json json_loads rubric_of_json calls attempt rubric ->
  evaluator calls state
  = Some (evaluator_verdict MIN_OVERALL
            (set_loop_count state (loop_count state + 1)) rubric).
Proof.
  intros [Hpre Hok]. unfold evaluator, Agents.evaluator.
  set (bumped := set_loop_count state (loop_count state + 1)).
  fold (evaluator_attempt calls bumped).
  rewrite (LlmFacts.retry_loop_at _ _ attempt).
  - now rewrite (attempt_succeeds_run calls bumped attempt rubric Hok).
  - split; [apply Hpre|]. split; [now apply slept_through_body|].
    now rewrite (attempt_succeeds_run calls bumped attempt rubric Hok).
Qed.

Lemma evaluator_unrecoverable (calls : Z -> eval_calls) (state : QueryState)
    (attempt : Z) (e : string) :
  unrecoverable json json_loads rubric_of_json calls attempt e ->
  evaluator calls state
  = Some (evaluator_failed (set_loop_count state (loop_count state + 1)) e).
Proof.
  intros (Hpre & Hfail & Hrl). unfold evaluator, Agents.evaluator.
  set (bumped := set_loop_count state (loop_count state + 1)).
  fold (evaluator_attempt calls bumped).
  rewrite (LlmFacts.retry_loop_at _ _ attempt).
  - now rewrite (attempt_fails_run calls bumped attempt e Hfail).
  - split; [apply Hpre|]. split; [now apply slept_through_body|].
    now rewrite (attempt_fails_run calls bumped attempt e Hfail).
Qed.

(** The evaluation is always settled at some attempt. *)
Lemma evaluator_settled (calls : Z -> eval_calls) :
  exists attempt,
    (exists rubric, succeeds json json_loads rubric_of_json calls attempt rubric) \/
    (exists e, unrecoverable json json_loads rubric_of_json calls attempt e).
Proof.
  set (state := initial "").
  destruct (LlmFacts.retry_loop_settles (evaluator_attempt calls state)
              (evaluator_failed state)) as (attempt & (Hr & Hpre & Hlast) & _).
  assert (Hslept : slept_through json json_loads rubric_of_json calls attempt).
  { split; [exact Hr|]. intros j Hj. destruct (Hpre j Hj) as (e & He & Hrl).
    exists e. split; [|exact Hrl].
    pose proof (evaluator_attempt_inv calls state j) as Hinv. now rewrite He in Hinv. }
  exists attempt. pose proof (evaluator_attempt_inv calls state attempt) as Hinv.
  destruct (evaluator_attempt calls state attempt) as [state'|e].
  - destruct Hinv as (rubric & Hok & _). left. exists rubric. now split.
  - right. exists e. split; [exact Hslept|]. split; [exact Hinv | exact Hlast].
Qed.

End Evaluate.

Example should_replan_decision_example :
  let state := set_scores (set_loop_count (initial "q") 1)
                 (Some (mkRubric (Py.Num (1 # 2)) (Py.Num (1 # 2)) (Py.Num (1 # 2))
                          (Py.Num (1 # 2)) true "thin")) in
  Agents.should_replan (Py.Num (7 # 10)) 3 state = "replan" /\
  Agents.should_replan (Py.Num (7 # 10)) 1 state = "end".
Proof. split; reflexivity. Qed.

End AgentsFacts.

(** ** The graph *)

Module GraphFacts.
Import Models Agents Graph AgentsFacts.

Lemma counted_sorted (steps : list (node * QueryState)) : forall prev,
  counted prev steps ->
  StronglySorted Z.le (prev :: map (fun s => loop_count (snd s)) steps).
Proof.
  induction steps as [|[nd state] steps IH]; intros prev Hc.
  - repeat constructor.
  - destruct Hc as [Hstep Hc]. specialize (IH _ Hc). simpl.
    constructor; [exact IH|].
    assert (Hle : prev <= loop_count state) by (destruct (is_evaluator nd); lia).
    constructor; [exact Hle|].
    apply StronglySorted_inv in IH as [_ Hall].
    eapply Forall_impl; [exact Hall|]. simpl. intros c Hc'. lia.
Qed.

Lemma evaluate_passes_cons (nd : node) (state : QueryState)
    (steps : list (node * QueryState)) :
  evaluate_passes ((nd, state) :: steps)
  = (if is_evaluator nd then 1 else 0) + evaluate_passes steps.
Proof.
  unfold evaluate_passes, Py.len. destruct (is_evaluator nd) eqn:E.
  - rewrite filter_cons_True by exact E. simpl length. lia.
  - rewrite filter_cons_False; [lia|]. simpl. rewrite E. discriminate.
Qed.

Section Run.
Variable SUBQ_SEARCH_COUNT : Z.
Variable MAX_SOURCES_FOR_CITATIONS : Z.
Variable MIN_OVERALL : Py.float.
Variable MAX_LOOPS : Z.
Variable ALLOWED_DOMAINS : list string.
Variable netloc : string -> option string.
Variable parse_subquestions : string -> list string.
Variable json : Type.
Variable json_loads : string -> json + string.
Variable rubric_of_json : json -> EvalRubric + string.

Let run_node :=
  run_node SUBQ_SEARCH_COUNT MAX_SOURCES_FOR_CITATIONS MIN_OVERALL ALLOWED_DOMAINS
    netloc parse_subquestions json json_loads rubric_of_json.
Let edge := edge MIN_OVERALL MAX_LOOPS.
Let run_from :=
  run_from SUBQ_SEARCH_COUNT MAX_SOURCES_FOR_CITATIONS MIN_OVERALL MAX_LOOPS
    ALLOWED_DOMAINS netloc parse_subquestions json json_loads rubric_of_json.
Let needed := needed MAX_LOOPS.
Let run :=
  run SUBQ_SEARCH_COUNT MAX_SOURCES_FOR_CITATIONS MIN_OVERALL MAX_LOOPS
    ALLOWED_DOMAINS netloc parse_subquestions json json_loads rubric_of_json.

Lemma run_node_other (E : env) (p : nat) (nd : node) (state : QueryState) :
  is_evaluator nd = false ->
  exists state', run_node E p nd state = Some state' /\ same_verdict state state'.
Proof.
  destruct nd; try discriminate; intros _; unfold run_node, Graph.run_node.
  - apply structured_summarizer_keeps.
  - apply planner_keeps.
  - eexists. split; [reflexivity | apply executor_keeps].
  - eexists. split; [reflexivity | apply answer_subquestions_keeps].
  - apply synthesizer_keeps.
Qed.

Lemma run_node_evaluator (E : env) (p : nat) (state : QueryState) :
  exists state',
    run_node E p evaluator state = Some state' /\
    loop_count state' = loop_count state + 1 /\ scores state' <> None.
Proof.
  destruct (evaluator_spec MIN_OVERALL json json_loads rubric_of_json
              (evaluator_calls (passes E p)) state)
    as (attempt & state' & _ & Hrun & Hl & Hs & _).
  exists state'. auto.
Qed.

Lemma edge_other (nd : node) (state : QueryState) :
  is_evaluator nd = false -> edge nd state = Some (Node (next nd)).
Proof. now destruct nd. Qed.

Lemma edge_evaluator (state : QueryState) :
  edge evaluator state = Some END \/
  (edge evaluator state = Some (Node planner) /\ loop_count state < MAX_LOOPS).
Proof.
  unfold edge, Graph.edge.
  destruct (should_replan_labels MIN_OVERALL MAX_LOOPS state) as [-> | [-> Hlt]];
    [now left | now right].
Qed.

Lemma run_from_S (limit : nat) (E : env) (p : nat) (nd : node) (state : QueryState) :
  run_from (S limit) E p nd state =
  match run_node E p nd state with
  | None => ([], NodeFailed)
  | Some state' =>
      match edge nd state' with
      | None => ([(nd, state')], NodeFailed)
      | Some END =>
          ([(nd, state')], match limit with O => OutOfSteps | S _ => Finished end)
      | Some (Node nd') =>
          let rest :=
            run_from limit E (match nd with evaluator => S p | _ => p end) nd' state' in
          ((nd, state') :: fst rest, snd rest)
      end
  end.
Proof.
  unfold run_from, run_node, edge. cbn [Graph.run_from].
  destruct (Graph.run_node _ _ _ _ _ _ _ _ _ _ _ _ _) as [state'|]; [|reflexivity].
  destruct (Graph.edge _ _ _ _) as [[nd'|]|]; try reflexivity.
  now destruct (Graph.run_from _ _ _ _ _ _ _ _ _ _ _ _ _ _ _).
Qed.

(** What holds of the steps of a run, however it ends. *)
Lemma run_from_steps (limit : nat) : forall (E : env) (p : nat) (nd : node)
    (state : QueryState),
  verdict_has_scores state ->
  let steps := fst (run_from limit E p nd state) in
  counted (loop_count state) steps /\
  Forall (fun s => verdict_has_scores (snd s)) steps /\
  (forall final, final_state steps = Some final ->
     loop_count final = loop_count state + evaluate_passes steps).
Proof.
  induction limit as [|limit IH]; intros E p nd state Hv.
  { simpl. split; [exact I|]. split; [constructor | discriminate]. }
  rewrite run_from_S.
  assert (Hone : forall state',
            loop_count state' = loop_count state + (if is_evaluator nd then 1 else 0) ->
            verdict_has_scores state' ->
            let steps := [(nd, state')] in
            counted (loop_count state) steps /\
            Forall (fun s => verdict_has_scores (snd s)) steps /\
            (forall final, final_state steps = Some final ->
               loop_count final = loop_count state + evaluate_passes steps)).
  { intros state' Hl Hv'. simpl. split; [auto|]. split; [repeat constructor; auto|].
    intros final [= <-]. rewrite evaluate_passes_cons.
    unfold evaluate_passes, Py.len. simpl. lia. }
  assert (Hmore : forall state' p' nd',
            loop_count state' = loop_count state + (if is_evaluator nd then 1 else 0) ->
            verdict_has_scores state' ->
            let steps := (nd, state') :: fst (run_from limit E p' nd' state') in
            counted (loop_count state) steps /\
            Forall (fun s => verdict_has_scores (snd s)) steps /\
            (forall final, final_state steps = Some final ->
               loop_count final = loop_count state + evaluate_passes steps)).
  { intros state' p' nd' Hl Hv'.
    destruct (IH E p' nd' state' Hv') as (Hc & Hall & Hfin).
    cbn zeta. split; [simpl; auto|]. split; [constructor; auto|].
    intros final Hf.
    pose proof (evaluate_passes_cons nd state' (fst (run_from limit E p' nd' state')))
      as Hpasses.
    rewrite Hpasses.
    destruct (fst (run_from limit E p' nd' state')) as [|s steps] eqn:Hsteps.
    - unfold final_state in Hf. simpl in Hf. injection Hf as <-.
      unfold evaluate_passes, Py.len. simpl. lia.
    - assert (Hf' : final_state (s :: steps) = Some final).
      { unfold final_state in *. now rewrite last_cons_cons in Hf. }
      rewrite (Hfin final Hf'). lia. }
  destruct (is_evaluator nd) eqn:Hnd.
  - destruct nd; try discriminate.
    destruct (run_node_evaluator E p state) as (state' & -> & Hl & Hs).
    assert (Hv' : verdict_has_scores state') by (intros _; exact Hs).
    destruct (edge_evaluator state') as [-> | [-> _]].
    + apply Hone; [lia | exact Hv'].
    + apply Hmore; [lia | exact Hv'].
  - destruct (run_node_other E p nd state Hnd) as (state' & -> & Hl & He & Hs).
    assert (Hv' : verdict_has_scores state').
    { unfold verdict_has_scores. rewrite He, Hs. exact Hv. }
    rewrite (edge_other nd state' Hnd).
    apply Hmore; [lia | exact Hv'].
Qed.

Lemma run_from_finishes (limit : nat) : forall (E : env) (p : nat) (nd : node)
    (state : QueryState),
  loop_count state < MAX_LOOPS ->
  (needed nd state <= limit)%nat ->
  snd (run_from limit E p nd state) = Finished /\
  exists final,
    final_state (fst (run_from limit E p nd state)) = Some final /\
    loop_count final <= MAX_LOOPS.
Proof.
  induction limit as [|limit IH]; intros E p nd state Hlt Hneed.
  { unfold needed, Graph.needed in Hneed. destruct nd; simpl in Hneed; lia. }
  rewrite run_from_S.
  destruct (is_evaluator nd) eqn:Hnd.
  - destruct nd; try discriminate.
    destruct (run_node_evaluator E p state) as (state' & -> & Hl & Hs).
    destruct (edge_evaluator state') as [-> | [-> Hlt']].
    + destruct limit as [|limit'].
      { unfold needed, Graph.needed in Hneed. simpl in Hneed. lia. }
      split; [reflexivity|]. exists state'. split; [reflexivity | lia].
    + destruct (IH E (S p) planner state' Hlt') as (Hfin & final & Hf & Hle).
      { unfold needed, Graph.needed in *. simpl in *. lia. }
      cbn zeta. split; [exact Hfin|]. exists final. split; [|exact Hle].
      cbn [fst]. unfold final_state in *.
      destruct (fst (run_from limit E (S p) planner state')); [discriminate|].
      now rewrite last_cons_cons.
  - destruct (run_node_other E p nd state Hnd) as (state' & -> & Hl & He & Hs).
    rewrite (edge_other nd state' Hnd).
    destruct (IH E (match nd with evaluator => S p | _ => p end) (next nd) state')
      as (Hfin & final & Hf & Hle).
    { lia. }
    { unfold needed, Graph.needed in *. rewrite Hl. destruct nd; try discriminate; simpl in *; lia. }
    cbn zeta. split; [exact Hfin|]. exists final. split; [|exact Hle].
    cbn [fst]. unfold final_state in *.
    destruct (fst (run_from limit E _ (next nd) state')); [discriminate|].
    now rewrite last_cons_cons.
Qed.

(** C2.  With [MAX_LOOPS >= 1], the run of the graph on a question,
    under the step limit [api/routes.py] gives it, reaches [END].  The
    loop count starts at 0, goes up by exactly one at each Evaluate
    step and stays as it is at every other step, so it never goes down;
    there are at most [MAX_LOOPS] Evaluate passes; the final loop count
    is their number and is at most [MAX_LOOPS]. *)
Theorem run_ends_within_loop_cap (E : env) (q : string) :
  1 <= MAX_LOOPS ->
  let result := run (recursion_limit MAX_LOOPS) E q in
  let steps := fst result in
  snd result = Finished /\
  loop_count (initial q) = 0 /\
  counted 0 steps /\
  StronglySorted Z.le (loop_counts q steps) /\
  evaluate_passes steps <= MAX_LOOPS /\
  exists final,
    final_state steps = Some final /\
    loop_count final = evaluate_passes steps /\
    loop_count final <= MAX_LOOPS.
Proof.
  intros Hmax result steps. subst steps result. unfold run, Graph.run.
  fold run_from.
  assert (Hv : verdict_has_scores (initial q)) by (intros H; now elim H).
  destruct (run_from_steps (recursion_limit MAX_LOOPS) E 0 summarizer (initial q) Hv)
    as (Hc & _ & Hpasses).
  destruct (run_from_finishes (recursion_limit MAX_LOOPS) E 0 summarizer (initial q))
    as (Hfin & final & Hf & Hle).
  { simpl. lia. }
  { unfold needed, Graph.needed, recursion_limit. simpl. lia. }
  specialize (Hpasses final Hf). simpl in Hpasses, Hc.
  unfold run_from in *.
  split; [exact Hfin|]. split; [reflexivity|]. split; [exact Hc|].
  split; [now apply counted_sorted|].
  split; [lia|].
  exists final. split; [exact Hf|]. split; lia.
Qed.

(** C4.  The evaluator, on every input: it returns, with the loop count
    one higher, also when the evaluation fails (the count is raised
    before any call), with a rubric and a verdict.  The answers of the
    service settle the evaluation at one attempt, the earlier ones having
    failed on a rate limit.  When that attempt fails with an error [e]
    the loop does not retry, [scores] is the rubric with [overall = 0.0],
    [replan_needed = true] and "Evaluation failed: e" as critique, the
    verdict is "no", the feedback is that critique and [bad_subqueries]
    the current subqueries.  When it succeeds with a rubric, [scores] is
    that rubric, and [overall >= MIN_OVERALL] gives "yes" with feedback
    and [bad_subqueries] cleared; [overall < MIN_OVERALL], and any other
    score that is not [>= MIN_OVERALL], gives "no", the critique (or the
    default string) as feedback and the current subqueries as
    [bad_subqueries].  In every state a run streams, a verdict comes with
    a rubric. *)
Theorem evaluator_counts_and_scores (calls : Z -> eval_calls) (state : QueryState)
    (E : env) (q : string) (limit : nat) :
  (exists state',
     Agents.evaluator MIN_OVERALL json json_loads rubric_of_json calls state = Some state' /\
     loop_count state' = loop_count state + 1 /\
     scores state' <> None /\ evaluation state' <> ""%string /\
     (exists attempt,
        (exists rubric, succeeds json json_loads rubric_of_json calls attempt rubric) \/
        (exists e, unrecoverable json json_loads rubric_of_json calls attempt e)) /\
     (forall attempt e,
        unrecoverable json json_loads rubric_of_json calls attempt e ->
        gave_up state state' e) /\
     (forall attempt rubric,
        succeeds json json_loads rubric_of_json calls attempt rubric ->
        scores state' = Some rubric /\
        (Py.float_ge (overall rubric) MIN_OVERALL = true -> passed state') /\
        (Py.float_lt (overall rubric) MIN_OVERALL = true ->
         sent_back state state' rubric) /\
        (Py.float_ge (overall rubric) MIN_OVERALL = false ->
         sent_back state state' rubric))) /\
  Forall (fun s => verdict_has_scores (snd s)) (fst (run limit E q)).
Proof.
  split.
  - destruct (evaluator_spec MIN_OVERALL json json_loads rubric_of_json calls state)
      as (attempt0 & state' & _ & Hrun & Hl & Hs & He & _).
    exists state'. split; [exact Hrun|]. split; [exact Hl|].
    split; [exact Hs|]. split; [exact He|].
    split; [apply (evaluator_settled MIN_OVERALL)|]. split.
    + intros attempt e Hfail.
      rewrite (evaluator_unrecoverable MIN_OVERALL json json_loads rubric_of_json
                 calls state attempt e Hfail) in Hrun.
      injection Hrun as <-. unfold gave_up. now repeat split.
    + intros attempt rubric Hok.
      rewrite (evaluator_succeeds MIN_OVERALL json json_loads rubric_of_json
                 calls state attempt rubric Hok) in Hrun.
      injection Hrun as <-.
      destruct (evaluator_verdict_spec MIN_OVERALL
                  (set_loop_count state (loop_count state + 1)) rubric)
        as (Hsc & _ & Hyes & Hno).
      split; [exact Hsc|]. split; [exact Hyes|]. split; [|exact Hno].
      intros Hlt. apply Hno. now apply PyFacts.float_lt_not_ge.
  - apply (run_from_steps limit E 0%nat summarizer (initial q)).
    intros H. now elim H.
Qed.

End Run.
(** ** Concrete runs *)

Lemma run_ends_within_loop_cap_witness :
  snd (Scenario.run Scenario.all_down "q") = Finished.
Proof.
  pose proof (run_ends_within_loop_cap 3 10 (Py.Num (7 # 10)) 3 [] Scenario.netloc
                (fun _ => ["s"%string]) EvalRubric Scenario.json_loads
                Scenario.rubric_of_json Scenario.all_down "q" ltac:(lia)) as H.
  exact (proj1 H).
Defined.

(** Every upstream call fails with a persistent 500: the stages degrade
    to placeholders, every evaluation gives up, and the run ends at the
    loop cap with the verdict "no" and the zero rubric. *)
Example run_all_down :
  let result := Scenario.run Scenario.all_down "What causes migraines?" in
  snd result = Finished /\
  evaluate_passes (fst result) = 3 /\
  (loop_count <$> final_state (fst result)) = Some 3 /\
  (evaluation <$> final_state (fst result)) = Some "no"%string /\
  (scores <$> final_state (fst result))
  = Some (Some (mkRubric (Py.Num 0) (Py.Num 0) (Py.Num 0) (Py.Num 0) true
                  "Evaluation failed: 500 Internal error")) /\
  (web_results <$> final_state (fst result)) = Some [].
Proof. vm_compute. repeat split; reflexivity. Qed.

(** C1 fails on a rubric whose overall score is NaN.  The JSON service
    answers a rubric whose [overall] is NaN ([json.loads] reads the
    literal and [float] keeps it).  The evaluator stores it and, since
    [overall >= MIN_OVERALL] is false, sets the verdict "no", the
    feedback, and [bad_subqueries] for the next plan.  The loop count is
    1, below the cap 3, and [should_replan] answers "end" all the same:
    [overall < MIN_OVERALL] is false as well.  The run on these answers
    ends after its first pass, on the verdict "no". *)
Theorem should_replan_ends_on_nan :
  let MIN_OVERALL := Py.Num (7 # 10) in
  let calls := Scenario.calls_of (Llm.GenText (Some "nan"%string)) in
  let state := set_subqueries (initial "q") ["s"%string] in
  let result := Scenario.run Scenario.all_nan "q" in
  (exists state' rubric,
     Agents.evaluator MIN_OVERALL EvalRubric Scenario.json_loads
       Scenario.rubric_of_json calls state = Some state' /\
     scores state' = Some rubric /\ overall rubric = Py.NaN /\
     loop_count state' = 1 /\
     evaluation state' = "no"%string /\
     feedback state' = "Needs improvement"%string /\
     bad_subqueries state' = ["s"%string] /\
     Py.float_ge (overall rubric) MIN_OVERALL = false /\
     Py.float_lt (overall rubric) MIN_OVERALL = false /\
     Agents.should_replan MIN_OVERALL 3 state' = "end"%string) /\
  snd result = Finished /\
  map fst (fst result)
  = [summarizer; planner; executor; answer_subqs; synthesizer; evaluator] /\
  (loop_count <$> final_state (fst result)) = Some 1 /\
  (evaluation <$> final_state (fst result)) = Some "no"%string /\
  (overall <$> (final_state (fst result) ≫= scores)) = Some Py.NaN.
Proof.
  cbv zeta. split.
  - eexists. eexists. split; [reflexivity|]. repeat split; reflexivity.
  - vm_compute. repeat split; reflexivity.
Qed.

(** The first evaluation is above the threshold: one pass, no replanning. *)
Example run_all_good :
  let result := Scenario.run Scenario.all_good "What causes migraines?" in
  snd result = Finished /\
  (loop_count <$> final_state (fst result)) = Some 1 /\
  (evaluation <$> final_state (fst result)) = Some "yes"%string /\
  (previous_subqueries <$> final_state (fst result)) = Some [] /\
  (map Web.n <$> (web_results <$> final_state (fst result)))
  = Some [Some 1; Some 2].
Proof. vm_compute. repeat split; reflexivity. Qed.

End GraphFacts.

(** ** MemoryCache: what every sequence of operations maintains *)

Module CacheInvariants.
Import MemoryCache MemoryCacheFacts CacheOps.
Open Scope string_scope.
Open Scope Z_scope.

Lemma expiry_not_le_gt (e : expiry) (now : Q) :
  expiry_le e now = false -> expiry_gt e now = true.
Proof.
  destruct e; simpl; [|reflexivity].
  intros H. apply PyFacts.Qleb_gt in H. now apply PyFacts.Qltb_lt.
Qed.

Section Facts.
Context {K V : Type} `{EqDecision K}.
Implicit Types (d : list (entry K V)) (c : t K V) (key : K) (o : op K V).

Lemma dict_del_length_le key d : Py.len (dict_del key d) <= Py.len d.
Proof.
  unfold Py.len. induction d as [|[k y] d IH]; simpl; [lia|].
  destruct (decide (k = key)); simpl; lia.
Qed.

Lemma dict_set_length_le key x d : Py.len (dict_set key x d) <= Py.len d + 1.
Proof.
  unfold Py.len. induction d as [|[k y] d IH]; simpl; [lia|].
  destruct (decide (k = key)); simpl; lia.
Qed.

Lemma dict_mem_set_same key x d : dict_mem key (dict_set key x d) = true.
Proof.
  destruct (dict_mem key (dict_set key x d)) eqn:E; [reflexivity|].
  apply dict_get_none in E. rewrite dict_get_set in E. discriminate.
Qed.

Lemma dict_get_del_other key k d :
  k <> key -> dict_get k (dict_del key d) = dict_get k d.
Proof.
  intros Hne. induction d as [|[k0 y] d IH]; simpl; [reflexivity|].
  destruct (decide (k0 = key)) as [->|Hk0]; simpl.
  - destruct (decide (key = k)); [congruence | reflexivity].
  - destruct (decide (k0 = k)); [reflexivity | exact IH].
Qed.

Lemma dict_get_del_same key d : dict_ok d -> dict_get key (dict_del key d) = None.
Proof.
  intros Hok. apply dict_get_none. now apply dict_mem_del_same.
Qed.

Lemma dict_get_set_other key k x d :
  k <> key -> dict_get k (dict_set key x d) = dict_get k d.
Proof.
  intros Hne. induction d as [|[k0 y] d IH]; simpl.
  - destruct (decide (key = k)); [congruence | reflexivity].
  - destruct (decide (k0 = key)) as [->|Hk0]; simpl.
    + destruct (decide (key = k)); [congruence | reflexivity].
    + destruct (decide (k0 = k)); [reflexivity | exact IH].
Qed.

Lemma dict_get_elem key x d : dict_get key d = Some x -> (key, x) ∈ d.
Proof.
  induction d as [|[k y] d IH]; simpl; [discriminate|].
  destruct (decide (k = key)) as [->|Hne].
  - intros [= ->]. left.
  - intros Hg. right. auto.
Qed.

(** *** [_cleanup_expired] *)

Lemma foldl_del_head (ks : list K) : forall d k (x : V * expiry),
  k ∉ ks ->
  foldl (fun d k => dict_del k d) ((k, x) :: d) ks
  = (k, x) :: foldl (fun d k => dict_del k d) d ks.
Proof.
  induction ks as [|k0 ks IH]; intros d k x Hk; simpl; [reflexivity|].
  apply not_elem_of_cons in Hk as [Hne Hk].
  destruct (decide (k = k0)); [congruence|]. now apply IH.
Qed.

Lemma foldl_del_expired now d :
  dict_ok d ->
  foldl (fun d k => dict_del k d) d (expired_keys now d) = unexpired now d.
Proof.
  unfold dict_ok, expired_keys, unexpired.
  induction d as [|[k [v e]] d IH]; [reflexivity|].
  cbn [map fst]. rewrite NoDup_cons. intros [Hk Hd].
  destruct (expiry_le e now) eqn:E.
  - rewrite filter_cons_True by exact E.
    rewrite filter_cons_False.
    2:{ cbn [snd]. rewrite (expiry_le_not_gt _ _ E). discriminate. }
    cbn [map fst foldl dict_del].
    destruct (decide (k = k)); [|congruence]. now apply IH.
  - rewrite filter_cons_False by (cbn [snd]; rewrite E; discriminate).
    rewrite filter_cons_True by (cbn [snd]; now apply expiry_not_le_gt).
    rewrite foldl_del_head.
    + f_equal. now apply IH.
    + intros Hin. apply Hk. apply list_elem_of_fmap in Hin as ([k' x'] & -> & Hin).
      apply list_elem_of_filter in Hin as [_ Hin].
      apply list_elem_of_fmap. exists (k', x'). auto.
Qed.

Lemma cleanup_cache now c :
  dict_ok (_cache c) -> _cache (_cleanup_expired now c) = unexpired now (_cache c).
Proof.
  intros Hok. unfold _cleanup_expired. cbn [_cache set_cache].
  now apply foldl_del_expired.
Qed.

Lemma unexpired_fresh now d : none_expired now (unexpired now d).
Proof.
  unfold none_expired, unexpired. apply Forall_forall. intros kv Hkv.
  now apply list_elem_of_filter in Hkv as [Hkv _].
Qed.

Lemma expired_keys_length now d :
  Py.len (expired_keys now d) = Py.len d - Py.len (unexpired now d).
Proof.
  unfold expired_keys, unexpired, Py.len, entry in *. rewrite length_map.
  induction d as [|[k [v e]] d IH]; [reflexivity|].
  destruct (expiry_le e now) eqn:E.
  - rewrite filter_cons_True by exact E.
    rewrite filter_cons_False.
    2:{ cbn [snd]. rewrite (expiry_le_not_gt _ _ E). discriminate. }
    cbn [length]. lia.
  - rewrite filter_cons_False by (cbn [snd]; rewrite E; discriminate).
    rewrite filter_cons_True by (cbn [snd]; now apply expiry_not_le_gt).
    cbn [length]. lia.
Qed.

Lemma unexpired_length_le now d : Py.len (unexpired now d) <= Py.len d.
Proof.
  unfold unexpired, Py.len.
  apply inj_le. apply length_filter.
Qed.

(** X1.  [_cleanup_expired] removes exactly the entries whose
    expiration is at or before the clock: what stays are the entries
    with [expiration > now], in their order; the eviction counter grows
    by the number of entries removed and [size] is the number left. *)
Theorem cleanup_removes_exactly_expired now c :
  dict_ok (_cache c) ->
  let c' := _cleanup_expired now c in
  _cache c' = unexpired now (_cache c) /\
  none_expired now (_cache c') /\
  evictions (statistics c') =
    evictions (statistics c) + (Py.len (_cache c) - Py.len (_cache c')) /\
  size (statistics c') = Py.len (_cache c') /\
  hits (statistics c') = hits (statistics c) /\
  misses (statistics c') = misses (statistics c) /\
  insertions (statistics c') = insertions (statistics c).
Proof.
  intros Hok c'.
  assert (Hc : _cache c' = unexpired now (_cache c)) by now apply cleanup_cache.
  split; [exact Hc|]. split; [rewrite Hc; apply unexpired_fresh|].
  split; [|now repeat split].
  rewrite Hc. unfold c', _cleanup_expired. cbn [statistics set_cache evictions].
  now rewrite expired_keys_length.
Qed.

(** *** The [size] statistic *)

Lemma apply_op_size c o :
  size (statistics c) = Py.len (_cache c) ->
  size (statistics (apply_op c o)) = Py.len (_cache (apply_op c o)).
Proof.
  intros Hs. destruct o as [now1 now2 k v ttl|now k|k|]; simpl.
  - reflexivity.
  - unfold get. destruct (dict_get k (_cache c)) as [[v e]|]; [|exact Hs].
    destruct (expiry_gt e now); [exact Hs | reflexivity].
  - unfold remove. destruct (dict_mem k (_cache c)); [reflexivity | exact Hs].
  - reflexivity.
Qed.

(** X2.  After [MemoryCache(max_size, ttl)] and any operations, the
    [size] statistic that [get_stats] reports is the number of entries
    the cache holds. *)
Theorem size_statistic_is_len (m ttl : Z) (ops : list (op K V)) :
  size (get_stats (after m ttl ops)) = Py.len (_cache (after m ttl ops)).
Proof.
  unfold after, get_stats.
  assert (H0 : size (statistics (__init__ (K := K) (V := V) m ttl))
               = Py.len (_cache (__init__ (K := K) (V := V) m ttl))) by reflexivity.
  revert H0. generalize (__init__ (K := K) (V := V) m ttl) as c.
  induction ops as [|o ops IH]; intros c Hc; simpl; [exact Hc|].
  apply IH. now apply apply_op_size.
Qed.

(** *** The capacity *)

Lemma cleanup_length_le now c :
  Py.len (_cache (_cleanup_expired now c)) <= Py.len (_cache c).
Proof.
  unfold _cleanup_expired. cbn [_cache set_cache].
  generalize (expired_keys now (_cache c)) as ks.
  generalize (_cache c) as d. intros d ks. revert d.
  induction ks as [|k ks IH]; intros d; simpl; [lia|].
  etransitivity; [apply IH|]. apply dict_del_length_le.
Qed.

Lemma evict_length c :
  _cache c <> [] -> Py.len (_cache (_evict_oldest c)) = Py.len (_cache c) - 1.
Proof.
  intros Hne. unfold _evict_oldest.
  destruct (min_key_spec (_cache c) Hne) as (k & v & e & -> & Hin & _).
  cbn [_cache set_cache]. apply dict_del_length.
  eapply dict_mem_of_elem. exact Hin.
Qed.

Lemma put_length_le now1 now2 key (value : V) ttl c :
  Py.len (_cache c) <= Z.max 1 (max_size c) ->
  Py.len (_cache (put now1 now2 key value ttl c)) <= Z.max 1 (max_size c).
Proof.
  intros Hc. unfold put.
  pose proof (cleanup_length_le now1 c) as Hl.
  set (c1 := _cleanup_expired now1 c) in *.
  assert (Hm : max_size c1 = max_size c) by reflexivity.
  cbn [_cache set_cache].
  destruct (max_size c1 <=? Py.len (_cache c1)) eqn:Hfull;
    destruct (dict_mem key (_cache c1)) eqn:Hmem; cbn [andb negb].
  - rewrite dict_set_length_mem by exact Hmem. lia.
  - pose proof (dict_set_length_le key (value, expiration now2 ttl (_evict_oldest c1))
                  (_cache (_evict_oldest c1))) as Hs.
    destruct (decide (_cache c1 = [])) as [Hnil|Hne].
    + assert (He : _cache (_evict_oldest c1) = []).
      { unfold _evict_oldest. rewrite Hnil. exact Hnil. }
      rewrite He in *. unfold Py.len in *. simpl in *. lia.
    + rewrite (evict_length c1 Hne) in Hs. lia.
  - rewrite dict_set_length_mem by exact Hmem. lia.
  - apply Z.leb_gt in Hfull.
    pose proof (dict_set_length_le key (value, expiration now2 ttl c1) (_cache c1)) as Hs.
    lia.
Qed.

Lemma apply_op_capacity c o :
  Py.len (_cache c) <= Z.max 1 (max_size c) ->
  max_size (apply_op c o) = max_size c /\
  Py.len (_cache (apply_op c o)) <= Z.max 1 (max_size c).
Proof.
  intros Hc. destruct o as [now1 now2 k v ttl|now k|k|]; simpl.
  - split; [|now apply put_length_le].
    unfold put. cbn [max_size set_cache].
    destruct (_ && _); [|reflexivity].
    unfold _evict_oldest. now destruct (min_key _).
  - unfold get. destruct (dict_get k (_cache c)) as [[v e]|]; [|auto].
    destruct (expiry_gt e now); cbn [snd max_size _cache set_cache]; [auto|].
    split; [reflexivity|]. pose proof (dict_del_length_le k (_cache c)). lia.
  - unfold remove. destruct (dict_mem k (_cache c)); cbn [snd max_size _cache set_cache];
      [|auto].
    split; [reflexivity|]. pose proof (dict_del_length_le k (_cache c)). lia.
  - split; [reflexivity|]. unfold Py.len. simpl. lia.
Qed.

(** X3.  After [MemoryCache(max_size, ttl)] and any operations the
    cache holds at most [max_size] entries, or one entry when
    [max_size] is below one; [max_size] itself never changes. *)
Theorem cache_never_exceeds_capacity (m ttl : Z) (ops : list (op K V)) :
  max_size (after m ttl ops) = m /\
  Py.len (_cache (after m ttl ops)) <= Z.max 1 m.
Proof.
  unfold after.
  assert (H0 : max_size (__init__ (K := K) (V := V) m ttl) = m /\
               Py.len (_cache (__init__ (K := K) (V := V) m ttl)) <= Z.max 1 m).
  { split; [reflexivity|]. unfold Py.len. simpl. lia. }
  revert H0. generalize (__init__ (K := K) (V := V) m ttl) as c.
  induction ops as [|o ops IH]; intros c [Hm Hc]; simpl; [auto|].
  apply IH. rewrite <- Hm in Hc |- *.
  destruct (apply_op_capacity c o Hc) as [Hm' Hc']. rewrite Hm'. auto.
Qed.

(** *** The counters *)

Lemma put_counters now1 now2 key (value : V) ttl c :
  let c' := put now1 now2 key value ttl c in
  hits (statistics c') = hits (statistics c) /\
  misses (statistics c') = misses (statistics c) /\
  insertions (statistics c') = insertions (statistics c) + 1.
Proof.
  unfold put. cbn [statistics set_cache hits misses insertions].
  rewrite dict_mem_set_same.
  destruct (_ && _); [|now repeat split].
  unfold _evict_oldest. now destruct (min_key _).
Qed.

Lemma apply_op_counters c o :
  hits (statistics (apply_op c o)) + misses (statistics (apply_op c o))
  = hits (statistics c) + misses (statistics c) + (if is_get o then 1 else 0) /\
  insertions (statistics (apply_op c o))
  = insertions (statistics c) + (if is_put o then 1 else 0).
Proof.
  destruct o as [now1 now2 k v ttl|now k|k|]; cbn [apply_op is_get is_put].
  - destruct (put_counters now1 now2 k v ttl c) as (-> & -> & ->). lia.
  - unfold get. destruct (dict_get k (_cache c)) as [[v e]|]; [|simpl; lia].
    destruct (expiry_gt e now); simpl; lia.
  - unfold remove. destruct (dict_mem k (_cache c)); simpl; lia.
  - simpl. lia.
Qed.

Lemma count_cons {A} (f : A -> bool) (x : A) (xs : list A) :
  Py.len (filter (fun y => f y = true) (x :: xs))
  = (if f x then 1 else 0) + Py.len (filter (fun y => f y = true) xs).
Proof.
  unfold Py.len. destruct (f x) eqn:E.
  - rewrite filter_cons_True by exact E. simpl length. lia.
  - rewrite filter_cons_False by (rewrite E; discriminate). lia.
Qed.

(** X4.  The counters count the calls: after any operations on a new
    cache, [hits + misses] is the number of [get] calls (each [get] adds
    one to exactly one of them, no other method touches them) and
    [insertions] is the number of [put] calls, updates of a present key
    included. *)
Theorem counters_count_calls (m ttl : Z) (ops : list (op K V)) :
  let s := get_stats (after m ttl ops) in
  hits s + misses s = gets ops /\ insertions s = puts ops /\
  0 <= hits s /\ 0 <= misses s.
Proof.
  unfold after, get_stats, gets, puts.
  assert (H0 : forall c : t K V,
            let s := statistics (foldl apply_op c ops) in
            hits s + misses s
            = hits (statistics c) + misses (statistics c)
              + Py.len (filter (fun o => is_get o = true) ops) /\
            insertions s
            = insertions (statistics c) + Py.len (filter (fun o => is_put o = true) ops) /\
            hits (statistics c) <= hits s /\ misses (statistics c) <= misses s).
  { induction ops as [|o ops IH]; intros c.
    - unfold Py.len. simpl. lia.
    - cbn [foldl]. rewrite !count_cons.
      destruct (IH (apply_op c o)) as (Hg & Hp & Hh & Hm).
      destruct (apply_op_counters c o) as [Hg1 Hp1].
      cbn zeta. rewrite Hg, Hp, Hg1, Hp1.
      assert (Hmono : hits (statistics c) <= hits (statistics (apply_op c o)) /\
                      misses (statistics c) <= misses (statistics (apply_op c o))).
      { clear. destruct o as [now1 now2 k v ttl|now k|k|]; cbn [apply_op].
        - destruct (put_counters now1 now2 k v ttl c) as (-> & -> & _). lia.
        - unfold get. destruct (dict_get k (_cache c)) as [[v e]|]; [|simpl; lia].
          destruct (expiry_gt e now); simpl; lia.
        - unfold remove. destruct (dict_mem k (_cache c)); simpl; lia.
        - simpl. lia. }
      lia. }
  destruct (H0 (__init__ m ttl)) as (Hg & Hp & Hh & Hm).
  cbv zeta. simpl in Hg, Hp, Hh, Hm. lia.
Qed.

(** *** [remove] *)

(** X5.  On a dict, [remove(key)] answers whether the key was stored
    and deletes that entry and no other: afterwards the key is absent
    whatever the clock, every other key reads as before, and the number
    of entries is one less exactly when the key was stored.  The hit,
    miss, eviction and insertion counters stay as they are. *)
Theorem remove_deletes_only_key key c :
  dict_ok (_cache c) ->
  let c' := snd (remove key c) in
  fst (remove key c) = dict_mem key (_cache c) /\
  (forall k, dict_get k (_cache c')
             = if decide (k = key) then None else dict_get k (_cache c)) /\
  (forall now, contains now key c' = false) /\
  Py.len (_cache c') = Py.len (_cache c) - (if dict_mem key (_cache c) then 1 else 0) /\
  hits (statistics c') = hits (statistics c) /\
  misses (statistics c') = misses (statistics c) /\
  evictions (statistics c') = evictions (statistics c) /\
  insertions (statistics c') = insertions (statistics c).
Proof.
  intros Hok c'. unfold c', remove.
  destruct (dict_mem key (_cache c)) eqn:Hm; cbn [fst snd _cache set_cache statistics].
  - split; [reflexivity|].
    assert (Hget : forall k, dict_get k (dict_del key (_cache c))
                     = if decide (k = key) then None else dict_get k (_cache c)).
    { intros k. destruct (decide (k = key)) as [->|Hne].
      - now apply dict_get_del_same.
      - now apply dict_get_del_other. }
    split; [exact Hget|]. split.
    + intros now. unfold contains. cbn [_cache set_cache].
      rewrite Hget. now destruct (decide (key = key)).
    + split; [now apply dict_del_length|]. now repeat split.
  - split; [reflexivity|]. split.
    + intros k. destruct (decide (k = key)) as [->|Hne]; [|reflexivity].
      now apply dict_get_none.
    + split; [intros now; now apply contains_absent|].
      split; [lia|]. now repeat split.
Qed.

(** *** [put] and the other entries *)

Lemma dict_get_unexpired now k d :
  dict_ok d ->
  dict_get k (unexpired now d)
  = match dict_get k d with
    | Some (v, e) => if expiry_gt e now then Some (v, e) else None
    | None => None
    end.
Proof.
  unfold dict_ok, unexpired. induction d as [|[k0 [v0 e0]] d IH]; [reflexivity|].
  cbn [map fst]. rewrite NoDup_cons. intros [Hk Hd].
  cbn [dict_get]. destruct (expiry_gt e0 now) eqn:E.
  - rewrite filter_cons_True by exact E. cbn [dict_get].
    destruct (decide (k0 = k)); [now rewrite E | now apply IH].
  - rewrite filter_cons_False by (cbn [snd]; rewrite E; discriminate).
    destruct (decide (k0 = k)) as [->|Hne]; [|now apply IH].
    rewrite E. apply dict_get_none. apply dict_mem_false.
    intros Hin. apply Hk. apply list_elem_of_fmap in Hin as ([k' x'] & -> & Hin).
    apply list_elem_of_filter in Hin as [_ Hin].
    apply list_elem_of_fmap. exists (k', x'). auto.
Qed.

(** X6.  [put(key, ...)] on a dict below capacity touches no other
    key's entry except to purge it: an entry of another key that has not
    expired at the clock of the cleanup reads as before, value and
    expiration; one that has expired is gone. *)
Theorem put_below_capacity_keeps_others now1 now2 key (value : V) ttl c k v e :
  dict_ok (_cache c) -> Py.len (_cache c) < max_size c -> k <> key ->
  dict_get k (_cache c) = Some (v, e) ->
  dict_get k (_cache (put now1 now2 key value ttl c))
  = if expiry_gt e now1 then Some (v, e) else None.
Proof.
  intros Hok Hlen Hne Hget. unfold put.
  pose proof (cleanup_length_le now1 c) as Hl.
  pose proof (cleanup_cache now1 c Hok) as Hc.
  set (c1 := _cleanup_expired now1 c) in *.
  assert (Hfull : (max_size c1 <=? Py.len (_cache c1)) = false).
  { apply Z.leb_gt. change (max_size c1) with (max_size c). lia. }
  rewrite Hfull. cbn [andb _cache set_cache].
  rewrite dict_get_set_other by congruence.
  rewrite Hc. rewrite dict_get_unexpired by exact Hok. now rewrite Hget.
Qed.

End Facts.

(** *** Concrete caches *)

Lemma cleanup_removes_exactly_expired_witness :
  _cache (_cleanup_expired 10 Scenario.two_entries) = [("a", (1, At 50))].
Proof.
  pose proof (cleanup_removes_exactly_expired 10 Scenario.two_entries
                (proj1 two_entries_full)) as H.
  exact (proj1 H).
Defined.

Lemma remove_deletes_only_key_witness :
  fst (remove "b" Scenario.two_entries) = true /\
  dict_get "a" (_cache (snd (remove "b" Scenario.two_entries))) = Some (1, At 50) /\
  dict_get "b" (_cache (snd (remove "b" Scenario.two_entries))) = None.
Proof.
  pose proof (remove_deletes_only_key "b" Scenario.two_entries
                (proj1 two_entries_full)) as (H1 & H2 & _).
  split; [exact H1|]. split; [exact (H2 "a") | exact (H2 "b")].
Defined.

Lemma put_below_capacity_keeps_others_witness :
  let c := put 0 0 "a" 1 (Some 50) (__init__ 2 3600) in
  dict_get "a" (_cache (put 1 1 "b" 2 (Some 5) c)) = Some (1, At 50) /\
  dict_get "a" (_cache (put 60 60 "b" 2 (Some 5) c)) = None.
Proof.
  intros c.
  assert (Hok : dict_ok (_cache c)).
  { apply put_ok. apply NoDup_nil_2. }
  split.
  - exact (put_below_capacity_keeps_others 1 1 "b" 2 (Some 5) c "a" 1 (At 50)
             Hok ltac:(reflexivity) ltac:(discriminate) eq_refl).
  - exact (put_below_capacity_keeps_others 60 60 "b" 2 (Some 5) c "a" 1 (At 50)
             Hok ltac:(reflexivity) ltac:(discriminate) eq_refl).
Defined.

End CacheInvariants.

(** ** memoize *)

Module MemoizeFacts.
Import MemoryCache MemoryCacheFacts Memoize.
Open Scope string_scope.
Open Scope Z_scope.

Section Facts.
Context {K R : Type} `{EqDecision K}.
Implicit Types (c : @cache K R) (key : K) (t : clock).

Lemma get_default_ttl now key c : default_ttl (snd (get now key c)) = default_ttl c.
Proof.
  unfold get. destruct (dict_get key (_cache c)) as [[v e]|]; [|reflexivity].
  now destruct (expiry_gt e now).
Qed.

(** A call that runs the function and gets a result stores it, to
    expire at the clock of the put plus the default time-to-live. *)
Lemma wrapper_stores t key (result : option R) c :
  snd (wrapper t key (Returns result) c) = true ->
  dict_get key (_cache (snd (fst (wrapper t key (Returns result) c))))
  = Some (result, At (at_put t + inject_Z (default_ttl c))).
Proof.
  unfold wrapper. pose proof (get_default_ttl (at_get t) key c) as Httl.
  destruct (get (at_get t) key c) as [cached c0]. cbn [snd] in Httl.
  assert (Hput : dict_get key
                   (_cache (put (at_cleanup t) (at_put t) key result None c0))
                 = Some (result, At (at_put t + inject_Z (default_ttl c)))).
  { destruct (put_get (at_cleanup t) (at_put t) key result None c0) as (e & -> & ->).
    unfold expiration. cbn [ttl_is_zero negb]. now rewrite Httl. }
  destruct cached as [[r|]|]; cbn [fst snd]; [discriminate| |]; intros _; exact Hput.
Qed.

(** X7.  After a call that ran the function and got a result other
    than [None], a call with the same key made before the entry expires
    (the clock of the put plus the default time-to-live) hands back that
    result without running the function, and counts one hit. *)
Theorem memoize_serves_stored_result t1 t2 key (r : R) (func : call_result R) c :
  snd (wrapper t1 key (Returns (Some r)) c) = true ->
  (at_get t2 < at_put t1 + inject_Z (default_ttl c))%Q ->
  let c1 := snd (fst (wrapper t1 key (Returns (Some r)) c)) in
  wrapper t2 key func c1
  = (Returns (Some r), set_cache c1 (_cache c1) (bump_hits (statistics c1)), false).
Proof.
  intros Hcalled Hnow c1.
  pose proof (wrapper_stores t1 key (Some r) c Hcalled) as Hget. fold c1 in Hget.
  unfold wrapper, get. rewrite Hget. cbn [expiry_gt].
  apply PyFacts.Qltb_lt in Hnow. now rewrite Hnow.
Qed.

(** X8.  A result [None] is stored but never served: after a call that
    ran the function and got [None], every call with the same key runs
    the function again, at whatever time. *)
Theorem memoize_recomputes_none t1 t2 key (func : call_result R) c :
  snd (wrapper t1 key (Returns None) c) = true ->
  let c1 := snd (fst (wrapper t1 key (Returns None) c)) in
  dict_mem key (_cache c1) = true /\
  snd (wrapper t2 key func c1) = true /\
  fst (fst (wrapper t2 key func c1)) = func.
Proof.
  intros Hcalled c1.
  pose proof (wrapper_stores t1 key None c Hcalled) as Hget. fold c1 in Hget.
  split.
  { destruct (dict_mem key (_cache c1)) eqn:E; [reflexivity|].
    apply dict_get_none in E. congruence. }
  unfold wrapper, get. rewrite Hget.
  destruct (expiry_gt _ _); destruct func; now split.
Qed.

(** X9.  Under [memoize(ttl=0)] nothing is ever served from the cache:
    [put] is called without a time-to-live, so the entry expires at the
    clock of the put, and a call made at that instant or later runs the
    function again. *)
Theorem memoize_zero_ttl_never_serves t1 t2 key (result : option R)
    (func : call_result R) c :
  default_ttl c = 0 ->
  snd (wrapper t1 key (Returns result) c) = true ->
  (at_put t1 <= at_get t2)%Q ->
  let c1 := snd (fst (wrapper t1 key (Returns result) c)) in
  snd (wrapper t2 key func c1) = true /\
  fst (fst (wrapper t2 key func c1)) = func.
Proof.
  intros Httl Hcalled Hnow c1.
  pose proof (wrapper_stores t1 key result c Hcalled) as Hget. fold c1 in Hget.
  rewrite Httl in Hget.
  unfold wrapper, get. rewrite Hget. cbn [expiry_gt].
  assert (Hge : Py.Qltb (at_get t2) (at_put t1 + inject_Z 0) = false).
  { apply PyFacts.Qltb_ge. unfold inject_Z. lra. }
  rewrite Hge. destruct func; now split.
Qed.

End Facts.

(** *** Concrete calls *)

Lemma memoize_serves_stored_result_witness :
  let c1 := snd (fst (wrapper (mkClock 10 10 10) "f(1)" (Returns (Some 7)) (new_cache 3600))) in
  wrapper (mkClock 20 20 20) "f(1)" (Raises "not called") c1
  = (Returns (Some 7), set_cache c1 (_cache c1) (bump_hits (statistics c1)), false).
Proof.
  exact (memoize_serves_stored_result (mkClock 10 10 10) (mkClock 20 20 20) "f(1)" 7
           (Raises "not called") (new_cache 3600) eq_refl eq_refl).
Defined.

Lemma memoize_recomputes_none_witness :
  let c1 := snd (fst (wrapper (mkClock 10 10 10) "f(1)" (Returns None)
                        (new_cache (K := string) (R := Z) 3600))) in
  snd (wrapper (mkClock 11 11 11) "f(1)" (Returns None) c1) = true.
Proof.
  exact (proj1 (proj2 (memoize_recomputes_none (mkClock 10 10 10) (mkClock 11 11 11) "f(1)"
                         (Returns None) (new_cache (K := string) (R := Z) 3600) eq_refl))).
Defined.

Lemma memoize_zero_ttl_never_serves_witness :
  let c1 := snd (fst (wrapper (mkClock 10 10 10) "f(1)" (Returns (Some 7)) (new_cache 0))) in
  snd (wrapper (mkClock 10 10 10) "f(1)" (Returns (Some 8)) c1) = true.
Proof.
  exact (proj1 (memoize_zero_ttl_never_serves (mkClock 10 10 10) (mkClock 10 10 10) "f(1)"
                  (Some 7) (Returns (Some 8)) (new_cache 0) eq_refl eq_refl
                  ltac:(discriminate))).
Defined.

End MemoizeFacts.

(** ** Strings: reversal, suffixes, letter case *)

Module StringFacts.
Open Scope string_scope.

Lemma append_cons (c : ascii) (s t : string) : String c s ++ t = String c (s ++ t).
Proof. reflexivity. Qed.

Lemma append_nil_r (s : string) : s ++ "" = s.
Proof.
  induction s as [|c s IH]; [reflexivity|]. now rewrite append_cons, IH.
Qed.

Lemma append_assoc (a b c : string) : a ++ (b ++ c) = (a ++ b) ++ c.
Proof.
  induction a as [|x a IH]; [reflexivity|]. now rewrite !append_cons, IH.
Qed.

Lemma rev_app_append (s : string) : forall acc,
  String.rev_app s acc = String.rev s ++ acc.
Proof.
  unfold String.rev. induction s as [|c s IH]; intros acc; [reflexivity|].
  cbn [String.rev_app]. rewrite (IH (String c acc)), (IH (String c "")).
  now rewrite <- append_assoc.
Qed.

Lemma rev_cons (c : ascii) (s : string) :
  String.rev (String c s) = String.rev s ++ String c "".
Proof. unfold String.rev at 1. cbn [String.rev_app]. apply rev_app_append. Qed.

Lemma rev_append (a b : string) : String.rev (a ++ b) = String.rev b ++ String.rev a.
Proof.
  induction a as [|c a IH].
  - change ("" ++ b) with b. change (String.rev "") with "". now rewrite append_nil_r.
  - rewrite append_cons, !rev_cons, IH. now rewrite append_assoc.
Qed.

Lemma rev_involutive (s : string) : String.rev (String.rev s) = s.
Proof.
  induction s as [|c s IH]; [reflexivity|].
  rewrite rev_cons, rev_append, IH. reflexivity.
Qed.

Lemma prefix_append (a b : string) : String.prefix a (a ++ b) = true.
Proof.
  induction a as [|c a IH]; [now destruct b|].
  rewrite append_cons. cbn [String.prefix].
  destruct (ascii_dec c c); [exact IH | congruence].
Qed.

Lemma prefix_inv (a : string) : forall b,
  String.prefix a b = true -> exists q, b = a ++ q.
Proof.
  induction a as [|c a IH]; intros b; [exists b; reflexivity|].
  destruct b as [|c' b]; [discriminate|]. cbn [String.prefix].
  destruct (ascii_dec c c') as [->|]; [|discriminate].
  intros H. destruct (IH b H) as [q ->]. exists q. reflexivity.
Qed.

(** [s.endswith(suffix)] holds exactly of the strings [p + suffix]. *)
Lemma endswith_iff (s suffix : string) :
  Py.endswith s suffix = true <-> exists p, s = p ++ suffix.
Proof.
  unfold Py.endswith. split.
  - intros H. apply prefix_inv in H as [q Hq].
    exists (String.rev q). rewrite <- (rev_involutive s), Hq, rev_append.
    now rewrite rev_involutive.
  - intros [p ->]. rewrite rev_append. apply prefix_append.
Qed.

Lemma lower_append (a b : string) : Py.lower (a ++ b) = Py.lower a ++ Py.lower b.
Proof.
  induction a as [|c a IH]; [reflexivity|].
  rewrite append_cons. cbn [Py.lower]. now rewrite append_cons, IH.
Qed.

(** The code point of a letter made lower-case: 32 above an upper-case
    letter, else the same. *)
Lemma lower_char_code (c : ascii) :
  let k := nat_of_ascii c in
  ((65 <= k <= 90 \/ (192 <= k <= 222 /\ k <> 215)) /\
   nat_of_ascii (Py.lower_char c) = k + 32)%nat \/
  (~ (65 <= k <= 90 \/ (192 <= k <= 222 /\ k <> 215))%nat /\ Py.lower_char c = c).
Proof.
  cbv zeta. unfold Py.lower_char.
  destruct (Nat.leb_spec 65 (nat_of_ascii c)), (Nat.leb_spec (nat_of_ascii c) 90),
    (Nat.leb_spec 192 (nat_of_ascii c)), (Nat.leb_spec (nat_of_ascii c) 222),
    (Nat.eqb_spec (nat_of_ascii c) 215);
    cbn [andb orb negb];
    first [ right; split; [lia | reflexivity]
          | left; split; [lia | apply nat_ascii_embedding; lia] ].
Qed.

Lemma lower_char_not_upper (c : ascii) : Case.is_upper (Py.lower_char c) = false.
Proof.
  unfold Case.is_upper. cbv zeta.
  destruct (lower_char_code c) as [[Hup ->] | [Hno ->]].
  - apply andb_false_iff.
    destruct Hup as [H | H]; [right | right]; apply Nat.leb_gt; lia.
  - apply andb_false_iff.
    destruct (Nat.leb_spec 65 (nat_of_ascii c)); [|now left].
    right. apply Nat.leb_gt. lia.
Qed.

Lemma lower_char_idempotent (c : ascii) :
  Py.lower_char (Py.lower_char c) = Py.lower_char c.
Proof.
  destruct (lower_char_code (Py.lower_char c)) as [[Hup _] | [_ H]]; [|exact H].
  exfalso. destruct (lower_char_code c) as [[Hc Hk] | [Hc Hk]].
  - rewrite Hk in Hup. lia.
  - rewrite Hk in Hup. tauto.
Qed.

Lemma lower_idempotent (s : string) : Py.lower (Py.lower s) = Py.lower s.
Proof.
  induction s as [|c s IH]; simpl; [reflexivity|].
  now rewrite lower_char_idempotent, IH.
Qed.

Lemma lower_not_upper (s : string) : Case.has_upper (Py.lower s) = false.
Proof.
  induction s as [|c s IH]; simpl; [reflexivity|].
  now rewrite lower_char_not_upper, IH.
Qed.

Lemma has_upper_append (a b : string) :
  Case.has_upper (a ++ b) = Case.has_upper a || Case.has_upper b.
Proof.
  induction a as [|c a IH]; [reflexivity|].
  rewrite append_cons. cbn [Case.has_upper]. now rewrite IH, orb_assoc.
Qed.

Lemma lower_empty (s : string) : String.eqb (Py.lower s) "" = String.eqb s "".
Proof. now destruct s. Qed.

End StringFacts.

(** ** utils/http_utils.py *)

Module HttpFacts.
Import Web HttpUtils StringFacts.
Open Scope string_scope.
Open Scope Z_scope.

Section Allowed.
Variable netloc : string -> option string.
Variable ALLOWED_DOMAINS : list string.

Let is_allowed_url := is_allowed_url netloc ALLOWED_DOMAINS.

Lemma is_allowed_url_inv (url : string) :
  is_allowed_url url = true ->
  exists host,
    netloc url = Some host /\
    (ALLOWED_DOMAINS = [] \/
     exists d p, d ∈ ALLOWED_DOMAINS /\ Py.lower host = (p ++ d)%string).
Proof.
  unfold is_allowed_url, Web.is_allowed_url.
  destruct (netloc url) as [host|]; [|discriminate].
  destruct ALLOWED_DOMAINS as [|d0 ds] eqn:Hds; [eauto|].
  rewrite existsb_exists.
  intros (d & Hin & Hd). exists host. split; [reflexivity|]. right.
  apply endswith_iff in Hd as [p Hp]. exists d, p.
  split; [now apply list_elem_of_In | exact Hp].
Qed.

(** X10.  [is_allowed_url] accepts a URL exactly when [urlparse] gives
    a host and either no domain is configured or the host, in lower
    case, is some string followed by a configured domain: the test is a
    suffix test on characters, whatever precedes the suffix. *)
Theorem is_allowed_url_is_suffix_test (url : string) :
  is_allowed_url url = true <->
  exists host,
    netloc url = Some host /\
    (ALLOWED_DOMAINS = [] \/
     exists d p, d ∈ ALLOWED_DOMAINS /\ Py.lower host = (p ++ d)%string).
Proof.
  split; [apply is_allowed_url_inv|].
  unfold is_allowed_url, Web.is_allowed_url.
  intros (host & -> & H).
  destruct ALLOWED_DOMAINS as [|d0 ds] eqn:Hds; [reflexivity|].
  destruct H as [Hnil | (d & p & Hin & Hp)]; [discriminate|].
  rewrite existsb_exists. exists d. split; [now apply list_elem_of_In|].
  apply endswith_iff. eauto.
Qed.

(** X11.  The host is put in lower case and the configured domains
    are not: when every configured domain has an upper-case letter, no
    URL is accepted. *)
Theorem is_allowed_url_upper_case_domains (url : string) :
  ALLOWED_DOMAINS <> [] ->
  Forall (fun d => Case.has_upper d = true) ALLOWED_DOMAINS ->
  is_allowed_url url = false.
Proof.
  intros Hne Hall.
  destruct (is_allowed_url url) eqn:E; [|reflexivity].
  apply is_allowed_url_inv in E as (host & _ & [Hnil | (d & p & Hin & Hp)]);
    [contradiction|].
  rewrite Forall_forall in Hall. specialize (Hall d Hin).
  pose proof (lower_not_upper host) as Hlow.
  rewrite Hp, has_upper_append, Hall, orb_true_r in Hlow. discriminate.
Qed.

End Allowed.

(** X12.  [is_probably_pdf] looks at the URL and at the content type
    in lower case only: it answers the same on the lower-cased
    arguments, and every URL that ends in ".pdf" in whatever letter case
    is taken for a PDF, whatever the content type. *)
Theorem is_probably_pdf_ignores_case (url : string) (content_type : option string) :
  is_probably_pdf url content_type
  = is_probably_pdf (Py.lower url) (Py.lower <$> content_type) /\
  (forall p ext, Py.lower ext = ".pdf" ->
     is_probably_pdf (p ++ ext)%string content_type = true).
Proof.
  split.
  - unfold is_probably_pdf. rewrite lower_idempotent.
    destruct (Py.endswith (Py.lower url) ".pdf"); [reflexivity|].
    destruct content_type as [c|]; [|reflexivity].
    cbn [fmap option_fmap option_map Py.truthy default].
    unfold id. now rewrite lower_empty, lower_idempotent.
  - intros p ext Hext. unfold is_probably_pdf.
    assert (H : Py.endswith (Py.lower (p ++ ext)) ".pdf" = true).
    { apply endswith_iff. exists (Py.lower p). now rewrite lower_append, Hext. }
    now rewrite H.
Qed.

(** *** The request loop *)

Lemma wait_time_bounds (attempt : Z) :
  0 <= wait_time RETRY_BACKOFF attempt <= MAX_BACKOFF.
Proof.
  unfold wait_time, RETRY_BACKOFF, MAX_BACKOFF.
  assert (0 <= 2 ^ attempt) by (apply Z.pow_nonneg; lia). lia.
Qed.

Section Loop.
Context {R : Type}.
Implicit Types (request : Z -> request_outcome R) (range : list Z).

Lemma request_loop_cons request (attempt : Z) range :
  request_loop request (attempt :: range) =
  if retried (request attempt)
  then (fst (request_loop request range),
        Request attempt :: Sleep (wait_time RETRY_BACKOFF attempt)
          :: snd (request_loop request range))
  else (match request attempt with Returned response => Some response | _ => None end,
        [Request attempt]).
Proof.
  cbn [request_loop]. destruct (request_loop request range) as [r evs].
  destruct (request attempt) as [response|status_code| |]; cbn [retried fst snd];
    try reflexivity.
  destruct (status_code =? 429); [reflexivity|].
  now destruct (500 <=? status_code).
Qed.

Lemma all_retried_cons (attempt : Z) range :
  all_retried (attempt :: range)
  = Request attempt :: Sleep (wait_time RETRY_BACKOFF attempt) :: all_retried range.
Proof. reflexivity. Qed.

Lemma request_loop_bounds request range :
  let events := snd (request_loop request range) in
  0 <= requests events <= Py.len range /\
  0 <= slept events <= MAX_BACKOFF * requests events /\
  slept events <= slept (all_retried range) /\
  0 <= slept (all_retried range).
Proof.
  induction range as [|attempt range IH].
  - unfold Py.len, MAX_BACKOFF. simpl. lia.
  - rewrite request_loop_cons, all_retried_cons.
    pose proof (wait_time_bounds attempt) as Hw.
    cbv zeta in IH. revert IH Hw. unfold Py.len, MAX_BACKOFF.
    cbn [length]. rewrite Nat2Z.inj_succ.
    destruct (retried (request attempt)); cbn [snd requests slept]; intros; lia.
Qed.

Lemma request_loop_all_retried request range :
  Forall (fun attempt => retried (request attempt) = true) range ->
  request_loop request range = (None, all_retried range).
Proof.
  induction 1 as [|attempt range Hr _ IH]; [reflexivity|].
  now rewrite request_loop_cons, Hr, IH.
Qed.

Lemma request_loop_success request (response : R) (n : nat) : forall a,
  fst (request_loop request (seqZ a (Z.of_nat n))) = Some response <->
  exists k, a <= k < a + Z.of_nat n /\ request k = Returned response /\
            forall j, a <= j < k -> retried (request j) = true.
Proof.
  induction n as [|n IH]; intros a.
  - simpl. split; [discriminate | intros (k & Hk & _); lia].
  - rewrite seqZ_cons by lia.
    replace (Z.pred (Z.of_nat (S n))) with (Z.of_nat n) by lia.
    rewrite request_loop_cons.
    destruct (retried (request a)) eqn:Hr; cbn [fst].
    + rewrite IH. split.
      * intros (k & Hk & Hreq & Hpre). exists k. split; [lia|]. split; [exact Hreq|].
        intros j Hj. destruct (decide (j = a)) as [->|Hne]; [exact Hr|].
        apply Hpre. lia.
      * intros (k & Hk & Hreq & Hpre).
        assert (k <> a) by (intros ->; rewrite Hreq in Hr; discriminate).
        exists k. split; [lia|]. split; [exact Hreq|].
        intros j Hj. apply Hpre. lia.
    + split.
      * intros Hres. exists a. split; [lia|]. split; [|intros j Hj; lia].
        destruct (request a); congruence.
      * intros (k & Hk & Hreq & Hpre).
        destruct (decide (k = a)) as [->|Hne]; [now rewrite Hreq|].
        rewrite Hpre in Hr by lia. discriminate.
Qed.

Lemma range_nat (max_retries : Z) : range max_retries = seqZ 0 (Z.of_nat (Z.to_nat max_retries)).
Proof.
  unfold range. destruct (decide (0 <= max_retries)).
  - now rewrite Z2Nat.id.
  - rewrite seqZ_nil by lia. replace (Z.to_nat max_retries) with 0%nat by lia.
    reflexivity.
Qed.

Lemma slept_all_retried_default (max_retries : Z) :
  max_retries <= MAX_RETRIES -> slept (all_retried (range max_retries)) <= 14.
Proof.
  unfold MAX_RETRIES. intros Hn.
  assert (Hcases : max_retries <= 0 \/ max_retries = 1 \/ max_retries = 2
                   \/ max_retries = 3) by lia.
  destruct Hcases as [H0 | [-> | [-> | ->]]]; [|vm_compute; discriminate..].
  unfold range. rewrite seqZ_nil by lia. simpl. lia.
Qed.

Section Fetch.
Variable netloc : string -> option string.
Variable ALLOWED_DOMAINS : list string.

Let fetch_url := @fetch_url netloc ALLOWED_DOMAINS R.

(** X13.  [fetch_url] does bounded work: at most [max_retries]
    requests, none for a URL that [is_allowed_url] rejects; the time
    slept is at most [MAX_BACKOFF] = 45 seconds for each request made,
    and at most 14 seconds in all when [max_retries] is at most three,
    the default. *)
Theorem fetch_url_bounded (url : string) (max_retries : Z)
    (request : Z -> request_outcome R) :
  let result := fetch_url url max_retries request in
  let events := snd result in
  0 <= requests events <= Z.max 0 max_retries /\
  0 <= slept events <= MAX_BACKOFF * requests events /\
  (max_retries <= MAX_RETRIES -> slept events <= 14) /\
  (is_allowed_url netloc ALLOWED_DOMAINS url = false -> result = (None, [])).
Proof.
  unfold fetch_url, HttpUtils.fetch_url.
  destruct (is_allowed_url netloc ALLOWED_DOMAINS url); cbn [negb].
  - destruct (request_loop_bounds request (range max_retries)) as (Hr & Hs & Hall & _).
    cbv zeta. split; [|split; [exact Hs|split; [|discriminate]]].
    + revert Hr. unfold Py.len, range. rewrite length_seqZ. lia.
    + intros Hn. pose proof (slept_all_retried_default max_retries Hn). lia.
  - cbv zeta. unfold MAX_BACKOFF. simpl. repeat split; lia.
Qed.

(** X14.  [fetch_url] hands back a response exactly when the URL is
    allowed and some attempt below [max_retries] gets one, every
    attempt before it having failed in a way the loop retries (status
    429, status 500 or above, a connection error); the response is that
    of the first such attempt. *)
Theorem fetch_url_first_success (url : string) (max_retries : Z)
    (request : Z -> request_outcome R) (response : R) :
  fst (fetch_url url max_retries request) = Some response <->
  is_allowed_url netloc ALLOWED_DOMAINS url = true /\
  exists k, 0 <= k < max_retries /\ request k = Returned response /\
            forall j, 0 <= j < k -> retried (request j) = true.
Proof.
  unfold fetch_url, HttpUtils.fetch_url.
  destruct (is_allowed_url netloc ALLOWED_DOMAINS url); cbn [negb fst].
  - rewrite range_nat, request_loop_success. split.
    + intros (k & Hk & H). split; [reflexivity|]. exists k. split; [lia | exact H].
    + intros (_ & k & Hk & H). exists k. split; [lia | exact H].
  - split; [discriminate | now intros [[=] _]].
Qed.

End Fetch.

(** X15.  [post_json] whose every attempt fails in a way the loop
    retries makes [max_retries] requests and sleeps after each of them,
    the last one included, before it returns [None]. *)
Theorem post_json_sleeps_after_every_failure (max_retries : Z)
    (request : Z -> request_outcome R) :
  (forall j, 0 <= j < max_retries -> retried (request j) = true) ->
  post_json max_retries request = (None, all_retried (range max_retries)) /\
  requests (all_retried (range max_retries)) = Z.max 0 max_retries /\
  (0 < max_retries ->
   last (all_retried (range max_retries))
   = Some (Sleep (wait_time RETRY_BACKOFF (max_retries - 1)))).
Proof.
  intros Hall. split; [|split].
  - unfold post_json. apply request_loop_all_retried.
    unfold range. apply Forall_seqZ. intros j Hj. apply Hall. lia.
  - rewrite range_nat.
    assert (H : forall (m : nat) a,
              requests (all_retried (seqZ a (Z.of_nat m))) = Z.of_nat m).
    { clear. intros m. induction m as [|m IH]; intros a; [reflexivity|].
      rewrite seqZ_cons by lia.
      replace (Z.pred (Z.of_nat (S m))) with (Z.of_nat m) by lia.
      rewrite all_retried_cons. cbn [requests]. rewrite IH. lia. }
    rewrite H. lia.
  - intros Hpos. unfold range.
    replace max_retries with (Z.of_nat (S (Z.to_nat (max_retries - 1)))) at 1 by lia.
    rewrite seqZ_S. unfold all_retried. rewrite flat_map_app. cbn [flat_map].
    rewrite app_nil_r, last_app. cbn [last].
    do 3 f_equal. lia.
Qed.

End Loop.

(** *** Concrete requests *)

Lemma is_allowed_url_upper_case_domains_witness :
  is_allowed_url (fun _ => Some "www.NIH.gov") ["NIH.gov"] "https://www.NIH.gov/x" = false.
Proof.
  apply (is_allowed_url_upper_case_domains (fun _ => Some "www.NIH.gov") ["NIH.gov"]).
  - discriminate.
  - repeat constructor.
Defined.

Lemma post_json_sleeps_after_every_failure_witness :
  post_json (R := string) 3 (fun _ => HTTPStatusError 503)
  = (None, [Request 0; Sleep 2; Request 1; Sleep 4; Request 2; Sleep 8]).
Proof.
  exact (proj1 (post_json_sleeps_after_every_failure (R := string) 3
                  (fun _ => HTTPStatusError 503) (fun _ _ => eq_refl))).
Defined.

End HttpFacts.
(** ** The retry loops around the text service *)

Module BackoffFacts.
Import Llm Backoff Stages.
Open Scope string_scope.
Open Scope Z_scope.





(** The six calls are reached: each first text fails to parse and each
    repair call is refused on a rate limit. *)
Example evaluator_six_calls :
  let answers := fun _ : Z =>
    Agents.mkEvalCalls (GenText (Some "not json")) (GenRaise "429 Too Many Requests") in
  snd (retry_run Py.range3
         (Agents.evaluator_attempt (Py.Num (7 # 10)) Models.EvalRubric Scenario.json_loads
            Scenario.rubric_of_json answers (Models.initial "q"))
         (evaluator_cost Scenario.json_loads answers)
         (Agents.evaluator_failed (Models.initial "q")))
  = mkEffort 3 6 90.
Proof. reflexivity. Qed.

(** A loop whose body writes the text of the response. *)
Lemma retry_loop_llm {A} (llm : Z -> gen_result) (f : option string -> A)
    (g : string -> A) :
  exists attempt,
    llm_settles llm attempt /\
    retry_loop Py.range3
      (fun attempt =>
         match llm attempt with
         | GenText t => inl (f t)
         | GenRaise e => inr e
         end) g
    = Some (match llm attempt with GenText t => f t | GenRaise e => g e end).
Proof.
  destruct (LlmFacts.retry_loop_settles
              (fun attempt =>
                 match llm attempt with
                 | GenText t => inl (f t)
                 | GenRaise e => inr e
                 end) g) as (attempt & (Hr & Hpre & Hlast) & ->).
  exists attempt. split.
  - split; [exact Hr|]. split.
    + intros j Hj. destruct (Hpre j Hj) as (e & He & Hrl). exists e.
      destruct (llm j); [discriminate|]. injection He as ->. auto.
    + now destruct (llm attempt).
  - now destruct (llm attempt).
Qed.

(** X17.  [get_concise_summary] always returns a string: the stripped
    text of the response its loop settles on, or the fixed message when
    the service raises an error the loop does not retry. *)
Theorem get_concise_summary_returns (llm : Z -> gen_result) :
  exists attempt,
    llm_settles llm attempt /\
    get_concise_summary llm
    = Some (outcome_text (llm attempt)
              (fun _ => "Summary not available due to API error.")).
Proof.
  unfold get_concise_summary, get_concise_summary_body.
  destruct (retry_loop_llm llm (fun t => Py.strip (text_or_empty t))
              (fun _ => "Summary not available due to API error."))
    as (attempt & Hs & ->).
  exists attempt. split; [exact Hs|]. now destruct (llm attempt).
Qed.

End BackoffFacts.

(** ** The stages, one by one *)

Module StageFacts.
Import Web Models Agents Stages HeapFacts ExecutorFacts BackoffFacts.
Open Scope string_scope.
Open Scope list_scope.
Open Scope Z_scope.

(** X18.  [structured_summarizer] and [synthesizer] always return, and
    each writes one field and nothing else: [summary], respectively
    [final_answer], becomes the stripped text of the response the loop
    settles on, or "Error: " followed by the error. *)
Theorem summarizer_and_synthesizer_write_one_field (llm : Z -> Llm.gen_result)
    (state : QueryState) :
  (exists attempt,
     llm_settles llm attempt /\
     structured_summarizer llm state
     = Some (set_summary state
               (outcome_text (llm attempt) (fun e => "Error: " ++ e)%string))) /\
  (exists attempt,
     llm_settles llm attempt /\
     synthesizer llm state
     = Some (set_final_answer state
               (outcome_text (llm attempt) (fun e => "Error: " ++ e)%string))).
Proof.
  split.
  - unfold structured_summarizer.
    destruct (retry_loop_llm llm
                (fun t => set_summary state (Py.strip (Llm.text_or_empty t)))
                (fun e => set_summary state ("Error: " ++ e)%string))
      as (attempt & Hs & ->).
    exists attempt. split; [exact Hs|]. now destruct (llm attempt).
  - unfold synthesizer.
    destruct (retry_loop_llm llm
                (fun t => set_final_answer state (Py.strip (Llm.text_or_empty t)))
                (fun e => set_final_answer state ("Error: " ++ e)%string))
      as (attempt & Hs & ->).
    exists attempt. split; [exact Hs|]. now destruct (llm attempt).
Qed.

Lemma planner_settles_exists (llm : Z -> Llm.gen_response) :
  exists attempt, planner_settles llm attempt.
Proof.
  destruct (LlmFacts.retry_loop_settles
              (fun j => match raised (llm j) with Some e => inr e | None => inl tt end)
              (fun _ => tt)) as (attempt & (Hr & Hpre & Hlast) & _).
  exists attempt. split; [exact Hr|]. split.
  - intros j Hj. destruct (Hpre j Hj) as (e & He & Hrl). exists e.
    destruct (raised (llm j)); [|discriminate]. injection He as ->. auto.
  - now destruct (raised (llm attempt)).
Qed.

Lemma planner_loop_sleeps (parse : string -> list string) (llm : Z -> Llm.gen_response)
    (j : Z) (rest : list Z) (state : QueryState) (e : string) :
  raised (llm j) = Some e -> Llm.rate_limited e j = true ->
  planner_loop parse llm (j :: rest) state
  = planner_loop parse llm rest
      (if handed_back (llm j) then set_previous_subqueries state (subqueries state)
       else state).
Proof.
  intros He Hrl. cbn [planner_loop].
  destruct (llm j) as [e'|t|e']; try discriminate;
    injection He as ->; now rewrite Hrl.
Qed.

Lemma planner_loop_stops (parse : string -> list string) (llm : Z -> Llm.gen_response)
    (attempt : Z) (rest : list Z) (state : QueryState) :
  match raised (llm attempt) with
  | Some e => Llm.rate_limited e attempt = false
  | None => True
  end ->
  planner_loop parse llm (attempt :: rest) state
  = Some (match llm attempt with
          | Llm.RespText t =>
              set_subqueries (set_previous_subqueries state (subqueries state))
                (parse (Llm.text_or_empty t))
          | Llm.RespRaise _ =>
              set_subqueries (set_previous_subqueries state (subqueries state)) []
          | Llm.CallRaise _ => set_subqueries state []
          end).
Proof.
  intros Hlast. cbn [planner_loop].
  destruct (llm attempt) as [e|t|e]; cbn in Hlast; now rewrite ?Hlast.
Qed.

(** X19.  [planner] always returns, and writes [subqueries] and
    [previous_subqueries] only.  When its loop settles on a response
    whose text can be read, the subquestions are what the list
    comprehension makes of the text and the subquestions held so far
    move to [previous_subqueries].  When it settles on an error, the
    subquestions are emptied; [previous_subqueries] stays as it is if no
    attempt was handed a response, and has been overwritten with the
    subquestions held so far if one was, the error coming from the
    reading of the text. *)
Theorem planner_shifts_or_clears (parse : string -> list string)
    (llm : Z -> Llm.gen_response) (state : QueryState) :
  exists attempt,
    planner_settles llm attempt /\
    planner parse llm state
    = Some (match llm attempt with
            | Llm.RespText t =>
                set_subqueries (set_previous_subqueries state (subqueries state))
                  (parse (Llm.text_or_empty t))
            | _ =>
                set_subqueries
                  (if responded llm attempt
                   then set_previous_subqueries state (subqueries state)
                   else state) []
            end).
Proof.
  destruct (planner_settles_exists llm) as (attempt & Hs).
  exists attempt. split; [exact Hs|]. destruct Hs as (Hr & Hpre & Hlast).
  unfold planner, Py.range3, responded, Py.range3.
  assert (Hcase : attempt = 0 \/ attempt = 1 \/ attempt = 2) by lia.
  destruct Hcase as [-> | [-> | ->]].
  - rewrite (planner_loop_stops parse llm 0 _ state Hlast).
    cbn [existsb Z.leb Z.compare andb orb].
    destruct (llm 0); reflexivity.
  - destruct (Hpre 0 ltac:(lia)) as (e0 & He0 & Hrl0).
    rewrite (planner_loop_sleeps parse llm 0 _ state e0 He0 Hrl0).
    rewrite (planner_loop_stops parse llm 1 _ _ Hlast).
    cbn [existsb Z.leb Z.compare Pos.compare Pos.compare_cont andb orb].
    destruct (llm 0), (llm 1); try discriminate; reflexivity.
  - destruct (Hpre 0 ltac:(lia)) as (e0 & He0 & Hrl0).
    destruct (Hpre 1 ltac:(lia)) as (e1 & He1 & Hrl1).
    rewrite (planner_loop_sleeps parse llm 0 _ state e0 He0 Hrl0).
    rewrite (planner_loop_sleeps parse llm 1 _ _ e1 He1 Hrl1).
    rewrite (planner_loop_stops parse llm 2 _ _ Hlast).
    cbn [existsb Z.leb Z.compare Pos.compare Pos.compare_cont andb orb].
    destruct (llm 0), (llm 1), (llm 2); try discriminate; reflexivity.
Qed.

(** A response whose text cannot be read, at the one attempt made: the
    plan is emptied and the list of earlier subquestions overwritten. *)
Example planner_text_unreadable :
  let state := set_previous_subqueries (set_subqueries (initial "q") ["s1"; "s2"]) ["s0"] in
  planner (fun _ => ["s"]) (fun _ => Llm.RespRaise "no valid part") state
  = Some (set_previous_subqueries (set_subqueries state []) ["s1"; "s2"]).
Proof. reflexivity. Qed.

(** *** answer_subquestions *)

Lemma answers_set_keys (key v : string) (d : list (string * string)) :
  map fst (answers_set key v d)
  = if decide (key ∈ map fst d) then map fst d else map fst d ++ [key].
Proof.
  induction d as [|[k x] d IH]; [reflexivity|].
  cbn [answers_set map fst]. destruct (String.eqb k key) eqn:E.
  - apply String.eqb_eq in E. subst k.
    rewrite decide_True by left. reflexivity.
  - apply String.eqb_neq in E. cbn [map fst]. rewrite IH.
    destruct (decide (key ∈ map fst d)) as [Hin|Hin].
    + rewrite decide_True by now right. reflexivity.
    + rewrite decide_False; [reflexivity|].
      intros H. apply elem_of_cons in H as [->|H]; congruence.
Qed.

Lemma answers_set_new (key v : string) (d : list (string * string)) :
  key ∉ map fst d -> answers_set key v d = d ++ [(key, v)].
Proof.
  induction d as [|[k x] d IH]; [reflexivity|].
  cbn [answers_set map fst]. intros Hk. apply not_elem_of_cons in Hk as [Hne Hk].
  destruct (String.eqb k key) eqn:E.
  - apply String.eqb_eq in E. congruence.
  - now rewrite IH.
Qed.

(** One turn of the loop over the subquestions. *)
Lemma answer_loop_cons (llm : nat -> Z -> Llm.gen_result) (i : nat)
    (subquery : string) (rest : list string) (answers : list (string * string)) :
  exists attempt,
    llm_settles (llm i) attempt /\
    answer_loop llm i (subquery :: rest) answers
    = answer_loop llm (S i) rest
        (answers_set subquery
           (outcome_text (llm i attempt) (fun e => "Gemini error: " ++ e)%string)
           answers).
Proof.
  cbn [answer_loop].
  destruct (retry_loop_llm (llm i)
              (fun t => answers_set subquery (Py.strip (Llm.text_or_empty t)) answers)
              (fun e => answers_set subquery ("Gemini error: " ++ e)%string answers))
    as (attempt & Hs & ->).
  exists attempt. split; [exact Hs|]. cbn [default]. now destruct (llm i attempt).
Qed.

Lemma answer_loop_keys (llm : nat -> Z -> Llm.gen_result) (subqs : list string) :
  forall i answers,
    NoDup (map fst answers) ->
    let out := map fst (answer_loop llm i subqs answers) in
    NoDup out /\
    (forall s, s ∈ out <-> s ∈ map fst answers \/ s ∈ subqs) /\
    (length out <= length answers + length subqs)%nat.
Proof.
  induction subqs as [|subq subqs IH]; intros i answers Hnd.
  - cbn. split; [exact Hnd|]. split; [|rewrite length_map; lia].
    intros s. rewrite elem_of_nil. tauto.
  - destruct (answer_loop_cons llm i subq subqs answers) as (attempt & _ & ->).
    set (v := outcome_text _ _).
    assert (Hkeys := answers_set_keys subq v answers).
    assert (Hnd' : NoDup (map fst (answers_set subq v answers))).
    { rewrite Hkeys. destruct (decide (subq ∈ map fst answers)); [exact Hnd|].
      apply NoDup_app. split; [exact Hnd|]. split; [|apply NoDup_singleton].
      intros x Hx Hx'. apply list_elem_of_singleton in Hx'. now subst x. }
    destruct (IH (S i) (answers_set subq v answers) Hnd') as (H1 & H2 & H3).
    cbv zeta. split; [exact H1|]. split.
    + intros s. rewrite H2, Hkeys, elem_of_cons.
      destruct (decide (subq ∈ map fst answers)) as [Hin|Hin].
      * split; [tauto|]. intros [H|[->|H]]; auto.
      * rewrite elem_of_app, list_elem_of_singleton. tauto.
    + etransitivity; [exact H3|].
      assert (Hl : (length (answers_set subq v answers) <= S (length answers))%nat).
      { rewrite <- !(length_map fst), Hkeys.
        destruct (decide (subq ∈ map fst answers)); [lia|].
        rewrite length_app. simpl. lia. }
      cbn [length]. lia.
Qed.

(** X20.  [answer_subquestions] builds [answers] afresh: whatever it
    held before, its keys are exactly the subquestions of the state, each
    once, and every subquestion has an answer.  No other field changes. *)
Theorem answer_subquestions_keys (llm : nat -> Z -> Llm.gen_result)
    (state : QueryState) :
  let state' := answer_subquestions llm state in
  state' = set_answers state (answers state') /\
  NoDup (map fst (answers state')) /\
  (forall s, s ∈ map fst (answers state') <-> s ∈ subqueries state) /\
  Py.len (answers state') <= Py.len (subqueries state) /\
  answers state' = answers (answer_subquestions llm (set_answers state [])).
Proof.
  cbv zeta. unfold answer_subquestions. cbn [answers set_answers subqueries].
  destruct (answer_loop_keys llm (subqueries state) 0 [] (NoDup_nil_2 (A := string)))
    as (H1 & H2 & H3).
  split; [reflexivity|]. split; [exact H1|]. split.
  - intros s. rewrite H2. cbn. rewrite elem_of_nil. tauto.
  - split; [|reflexivity]. rewrite length_map in H3. unfold Py.len. simpl in H3. lia.
Qed.

Lemma answer_loop_distinct (llm : nat -> Z -> Llm.gen_result) (subqs : list string) :
  forall i answers,
    NoDup (map fst answers ++ subqs) ->
    exists texts : list string,
      answer_loop llm i subqs answers = answers ++ zip subqs texts /\
      length texts = length subqs /\
      forall j v, texts !! j = Some v ->
        exists attempt,
          llm_settles (llm (i + j)%nat) attempt /\
          v = outcome_text (llm (i + j)%nat attempt) (fun e => "Gemini error: " ++ e)%string.
Proof.
  induction subqs as [|subq subqs IH]; intros i answers Hnd.
  - exists []. cbn. rewrite app_nil_r. split; [reflexivity|]. split; [reflexivity|].
    intros j v Hj. discriminate.
  - destruct (answer_loop_cons llm i subq subqs answers) as (attempt & Hs & ->).
    set (v := outcome_text _ _) in *.
    assert (Hnew : subq ∉ map fst answers).
    { apply NoDup_app in Hnd as (_ & Hdisj & _). intros Hin.
      apply (Hdisj subq Hin). left. }
    rewrite answers_set_new by exact Hnew.
    destruct (IH (S i) (answers ++ [(subq, v)])) as (texts & -> & Hlen & Htexts).
    { rewrite map_app. cbn [map fst]. rewrite <- app_assoc. exact Hnd. }
    exists (v :: texts). split; [now rewrite <- app_assoc|].
    split; [cbn [length]; lia|].
    intros [|j] w Hw.
    + injection Hw as <-. exists attempt. rewrite Nat.add_0_r. auto.
    + destruct (Htexts j w Hw) as (a & Ha & ->). exists a.
      replace (i + S j)%nat with (S i + j)%nat by lia. auto.
Qed.

(** X21.  When the subquestions are pairwise distinct,
    [answer_subquestions] leaves one entry per subquestion, in their
    order, and the answer of the [j]-th subquestion is the stripped text
    of the response its own loop settled on, or "Gemini error: "
    followed by the error. *)
Theorem answer_subquestions_in_order (llm : nat -> Z -> Llm.gen_result)
    (state : QueryState) :
  NoDup (subqueries state) ->
  exists texts : list string,
    answers (answer_subquestions llm state) = zip (subqueries state) texts /\
    length texts = length (subqueries state) /\
    forall j v, texts !! j = Some v ->
      exists attempt,
        llm_settles (llm j) attempt /\
        v = outcome_text (llm j attempt) (fun e => "Gemini error: " ++ e)%string.
Proof.
  intros Hnd. unfold answer_subquestions. cbn [answers set_answers].
  destruct (answer_loop_distinct llm (subqueries state) 0 [] Hnd)
    as (texts & -> & Hlen & Htexts).
  exists texts. split; [reflexivity|]. split; [exact Hlen|exact Htexts].
Qed.

(** *** executor *)

Section Executor.
Variable SUBQ_SEARCH_COUNT : Z.
Variable MAX_SOURCES_FOR_CITATIONS : Z.
Variable ALLOWED_DOMAINS : list string.
Variable netloc : string -> option string.

Let aggregate := aggregate SUBQ_SEARCH_COUNT ALLOWED_DOMAINS netloc.
Let executor :=
  executor SUBQ_SEARCH_COUNT MAX_SOURCES_FOR_CITATIONS ALLOWED_DOMAINS netloc.

(** X22.  No two records of [web_results] have the same link (the key
    [dedupe_by_link] compares: link or url, stripped), and none has an
    empty one. *)
Theorem executor_results_distinct_links (env : executor_env) (state : QueryState) :
  NoDup (map link_key (web_results (executor env state))) /\
  Forall (fun r => link_key r <> "") (web_results (executor env state)).
Proof.
  split; [|apply executor_results_have_links].
  unfold executor. rewrite executor_web_results.
  set (h := fst _). set (web := dedupe_by_link _ _).
  rewrite <- list_fmap_compose.
  assert (Heq : (link_key ∘ deref (number_from 0 (Py.slice_to web MAX_SOURCES_FOR_CITATIONS) h))
                <$> web = map (Web.key (deref h)) web).
  { apply map_ext. intros a. cbn. apply number_from_link_key. }
  rewrite Heq.
  destruct (WebFacts.dedupe_loop_out (deref h)
              (snd (Agents.aggregate SUBQ_SEARCH_COUNT ALLOWED_DOMAINS netloc env state)) [])
    as (_ & Hnd & _).
  exact Hnd.
Qed.

(** The link key of every record is the same after the workers ran. *)
Lemma update_link_key (h : heap) (a b : addr) (f : record -> record) :
  keeps f -> link_key (deref (update h a f) b) = link_key (deref h b).
Proof.
  intros Hf. destruct (decide (a = b)) as [->|Hne].
  - destruct (decide (b < length h)%nat) as [Hb|Hb].
    + rewrite deref_update_same by exact Hb. now apply keeps_link_key.
    + unfold update. now rewrite list_insert_ge by lia.
  - now rewrite deref_update_other.
Qed.

Lemma run_workers_link_keys (env : nat -> worker_env) (links : list addr) :
  forall i h b,
    link_key (deref (fst (run_workers ALLOWED_DOMAINS netloc env i links h)) b)
    = link_key (deref h b).
Proof.
  induction links as [|a links IH]; intros i h b; cbn [run_workers]; [reflexivity|].
  destruct (worker_shape netloc ALLOWED_DOMAINS (env i) a h []) as (f & Hf & ->).
  specialize (IH (S i) (update h a f) b).
  destruct (run_workers ALLOWED_DOMAINS netloc env (S i) links (update h a f))
    as [h2 more].
  cbn [fst] in *. rewrite IH. now apply update_link_key.
Qed.

Lemma deref_alloc (h : heap) (r : record) : deref (h ++ [r]) (length h) = r.
Proof. unfold deref. now rewrite list_lookup_middle. Qed.

(** One turn of the loop over the subquestions: what it aggregates are
    links taken from the search, at most [SUBQ_SEARCH_COUNT] of them,
    and records without a link. *)
Lemma executor_subq_links (env : subq_env) (subq : string) (h : heap)
    (aggregated L : list addr) :
  0 <= SUBQ_SEARCH_COUNT ->
  allocated h aggregated ->
  Forall (fun a => a ∈ L \/ link_key (deref h a) = "") aggregated ->
  let ha := executor_subq SUBQ_SEARCH_COUNT ALLOWED_DOMAINS netloc env subq
              (h, aggregated) in
  exists L',
    (length L' <= Z.to_nat SUBQ_SEARCH_COUNT)%nat /\
    Forall (fun a => a ∈ L ++ L' \/ link_key (deref (fst ha) a) = "") (snd ha).
Proof.
  intros Hcount Hal Hagg. cbv zeta. unfold executor_subq.
  destruct (search_spec (cse env) h) as (rs & -> & _).
  set (h1 := h ++ rs).
  rewrite PyFacts.slice_to_nonneg by exact Hcount.
  set (links := take (Z.to_nat SUBQ_SEARCH_COUNT) _).
  exists links. split; [unfold links; rewrite length_take; lia|].
  assert (Hold : forall a, a ∈ aggregated -> link_key (deref h1 a) = link_key (deref h a)).
  { intros a Ha. unfold h1. rewrite deref_app_l; [reflexivity|].
    unfold allocated in Hal. rewrite Forall_forall in Hal. auto. }
  assert (Hgoal : forall h2 agg2 threads,
            Forall (fun a => a ∈ L ++ links \/ link_key (deref h2 a) = "") agg2 ->
            Forall (fun a => a ∈ links) threads ->
            let ha := (let '(h3, puts) :=
                         run_workers ALLOWED_DOMAINS netloc (worker env) 0 threads h2 in
                       (h3, agg2 ++ interleave (schedule env) puts)) in
            Forall (fun a => a ∈ L ++ links \/ link_key (deref (fst ha) a) = "") (snd ha)).
  { intros h2 agg2 threads Hagg2 Hthreads.
    pose proof (run_workers_link_keys (worker env) threads 0%nat h2) as Hkeys.
    destruct (run_workers_spec ALLOWED_DOMAINS netloc (worker env) threads 0%nat h2)
      as (h3 & puts & Heq & _ & _ & Hin).
    rewrite Heq in Hkeys |- *. cbn [fst snd] in *.
    apply Forall_app. split.
    - eapply Forall_impl; [exact Hagg2|]. cbn. intros a [Ha|Ha]; [now left|].
      right. now rewrite Hkeys.
    - rewrite (interleave_perm (schedule env) puts).
      eapply Forall_impl; [exact Hin|]. cbn. intros a Ha. left.
      apply elem_of_app. right.
      rewrite Forall_forall in Hthreads. auto. }
  assert (Hagg1 : Forall (fun a => a ∈ L ++ links \/ link_key (deref h1 a) = "") aggregated).
  { apply Forall_forall. intros a Ha. rewrite Forall_forall in Hagg.
    destruct (Hagg a Ha) as [HL|Hk].
    - left. apply elem_of_app. now left.
    - right. now rewrite Hold. }
  destruct (try_ends env) as [|started e].
  - apply Hgoal; [exact Hagg1|]. now apply Forall_forall.
  - unfold alloc. apply Hgoal.
    + apply Forall_app. split.
      * apply Forall_forall. intros a Ha. rewrite Forall_forall in Hagg1.
        destruct (Hagg1 a Ha) as [HL|Hk]; [now left|]. right.
        rewrite deref_app_l; [exact Hk|].
        unfold allocated in Hal. rewrite Forall_forall in Hal.
        unfold h1. rewrite length_app. specialize (Hal a Ha). lia.
      * constructor; [|constructor]. right. now rewrite deref_alloc.
    + apply Forall_forall. intros a Ha.
      eapply elem_of_sublist; [exact Ha | apply sublist_take].
Qed.

Lemma executor_loop_links (envs : nat -> subq_env) (subqs : list string) :
  forall i ha L,
    0 <= SUBQ_SEARCH_COUNT ->
    aggregate_ok ha ->
    Forall (fun a => a ∈ L \/ link_key (deref (fst ha) a) = "") (snd ha) ->
    let ha' := executor_loop SUBQ_SEARCH_COUNT ALLOWED_DOMAINS netloc envs i subqs ha in
    exists L',
      (length L' <= length L + Z.to_nat SUBQ_SEARCH_COUNT * length subqs)%nat /\
      Forall (fun a => a ∈ L' \/ link_key (deref (fst ha') a) = "") (snd ha').
Proof.
  induction subqs as [|subq subqs IH]; intros i ha L Hcount Hok Hagg.
  - exists L. split; [lia | exact Hagg].
  - cbn [executor_loop]. destruct ha as [h aggregated].
    destruct (executor_subq_links (envs i) subq h aggregated L Hcount (proj2 Hok) Hagg)
      as (L1 & Hlen1 & Hagg1).
    destruct (IH (S i) _ (L ++ L1) Hcount
                (executor_subq_ok SUBQ_SEARCH_COUNT ALLOWED_DOMAINS netloc (envs i) subq
                   (h, aggregated) Hok) Hagg1)
      as (L' & Hlen & Hagg').
    exists L'. split; [|exact Hagg'].
    rewrite length_app in Hlen. cbn [length]. lia.
Qed.

(** X23.  For a count [SUBQ_SEARCH_COUNT >= 0], [web_results] holds at
    most [SUBQ_SEARCH_COUNT] records for each subquestion, whatever the
    search returns and however often the workers put a record on the
    queue. *)
Theorem executor_results_bounded (env : executor_env) (state : QueryState) :
  0 <= SUBQ_SEARCH_COUNT ->
  Py.len (web_results (executor env state))
  <= SUBQ_SEARCH_COUNT * Py.len (subqueries state).
Proof.
  intros Hcount. unfold executor. rewrite executor_web_results.
  unfold Py.len. rewrite length_map.
  set (ha := Agents.aggregate SUBQ_SEARCH_COUNT ALLOWED_DOMAINS netloc env state).
  destruct (executor_loop_links (subq_envs env) (subqueries state) 0 ([], []) []
              Hcount) as (L & Hlen & Hagg).
  { split; constructor. }
  { constructor. }
  fold (Agents.aggregate SUBQ_SEARCH_COUNT ALLOWED_DOMAINS netloc env state) in Hagg.
  fold ha in Hagg.
  destruct (WebFacts.dedupe_loop_out (deref (fst ha)) (snd ha) []) as (Hkeys & Hnd & Hsub).
  fold (dedupe_by_link (deref (fst ha)) (snd ha)) in Hkeys, Hnd, Hsub.
  apply NoDup_fmap_1 in Hnd.
  assert (Hle : (length (dedupe_by_link (deref (fst ha)) (snd ha)) <= length L)%nat).
  { apply submseteq_length. apply NoDup_submseteq; [exact Hnd|].
    intros a Ha. rewrite Forall_forall in Hkeys, Hagg.
    destruct (Hagg a (elem_of_sublist _ _ _ Ha Hsub)) as [HL|Hk]; [exact HL|].
    destruct (Hkeys a Ha) as [Hne _]. contradiction. }
  cbn [length] in Hlen. nia.
Qed.

(** *** Every record reported has a summary *)

Lemma summarize_loop_sets_summary (w : worker_env) (title0 : string) (r : record) :
  Web.summary (summarize_loop w title0 r) <> None.
Proof.
  unfold summarize_loop.
  destruct (LlmFacts.retry_loop_returns (summarize_attempt w title0 r)
              (fun e => Web.set_summary r ("Error: " ++ e)%string)) as [r' Hr].
  rewrite Hr. cbn [default]. revert Hr.
  apply (LlmFacts.retry_loop_result (fun r' => Web.summary r' <> None)).
  - intros attempt x. unfold summarize_attempt.
    destruct (summarize w attempt) as [[text|]|e]; try discriminate.
    intros [= <-]. discriminate.
  - intros e. discriminate.
Qed.

Lemma worker_sets_summary (w : worker_env) (a : addr) (h : heap) (queue : list addr) :
  exists f,
    (forall r, Web.summary (f r) <> None) /\
    fst (expand_and_summarize_web netloc ALLOWED_DOMAINS w a (h, queue)) = update h a f.
Proof.
  unfold expand_and_summarize_web.
  set (url0 := default "" _).
  destruct (String.eqb url0 "" || negb (is_allowed_url netloc ALLOWED_DOMAINS url0)).
  { eexists. split; [|reflexivity]. intros r. discriminate. }
  set (title0 := match title (deref h a) with Some t => t | None => _ end).
  destruct (fetch w) as [|e|ctype].
  - eexists. split; [|reflexivity]. intros r. discriminate.
  - eexists. split; [|reflexivity]. apply summarize_loop_sets_summary.
  - destruct (is_probably_pdf url0 (Some ctype)).
    + eexists. split; [|reflexivity]. intros r. discriminate.
    + eexists. split; [|reflexivity]. apply summarize_loop_sets_summary.
Qed.

Lemma update_summary (h : heap) (a b : addr) (f : record -> record) :
  (forall r, Web.summary (f r) <> None) ->
  Web.summary (deref h b) <> None -> Web.summary (deref (update h a f) b) <> None.
Proof.
  intros Hf Hb. destruct (decide (a = b)) as [->|Hne].
  - destruct (decide (b < length h)%nat) as [Hlt|Hge].
    + rewrite deref_update_same by exact Hlt. apply Hf.
    + unfold update. now rewrite list_insert_ge by lia.
  - now rewrite deref_update_other.
Qed.

Lemma run_workers_summaries (env : nat -> worker_env) (links : list addr) :
  forall i h,
    allocated h links ->
    let h' := fst (run_workers ALLOWED_DOMAINS netloc env i links h) in
    (forall b, Web.summary (deref h b) <> None -> Web.summary (deref h' b) <> None) /\
    Forall (fun a => Web.summary (deref h' a) <> None) links.
Proof.
  induction links as [|a links IH]; intros i h Hal; cbn [run_workers].
  { cbn. split; [auto | constructor]. }
  inversion Hal as [|? ? Ha Hal']; subst.
  destruct (worker_sets_summary (env i) a h []) as (f & Hf & Hw).
  destruct (expand_and_summarize_web netloc ALLOWED_DOMAINS (env i) a (h, []))
    as [h1 puts]. cbn [fst] in Hw. subst h1.
  destruct (IH (S i) (update h a f)) as [Hkeep Hall].
  { eapply allocated_grow; [|exact Hal']. now rewrite length_update. }
  destruct (run_workers ALLOWED_DOMAINS netloc env (S i) links (update h a f))
    as [h2 more].
  cbn [fst] in *. split.
  - intros b Hb. apply Hkeep. now apply update_summary.
  - constructor; [|exact Hall].
    apply Hkeep. rewrite deref_update_same by exact Ha. apply Hf.
Qed.

Lemma executor_subq_summaries (env : subq_env) (subq : string) (h : heap)
    (aggregated : list addr) :
  allocated h aggregated ->
  Forall (fun a => Web.summary (deref h a) <> None) aggregated ->
  let ha := executor_subq SUBQ_SEARCH_COUNT ALLOWED_DOMAINS netloc env subq
              (h, aggregated) in
  Forall (fun a => Web.summary (deref (fst ha) a) <> None) (snd ha).
Proof.
  intros Hal Hagg. cbv zeta. unfold executor_subq.
  destruct (search_spec (cse env) h) as (rs & -> & _).
  set (h1 := h ++ rs).
  set (links := Py.slice_to _ SUBQ_SEARCH_COUNT).
  assert (Hlinks : allocated h1 links).
  { unfold links. destruct (slice_to_prefix
      (filter (fun l => allowed_url
                 (default "" (Py.or_ (link (deref h1 l)) (url (deref h1 l)))) = true)
              (seq (length h) (length rs))) SUBQ_SEARCH_COUNT) as [k ->].
    apply Forall_take. apply Forall_forall. intros a Ha'.
    apply list_elem_of_filter in Ha' as [_ Ha']. apply elem_of_seq in Ha'.
    unfold h1. rewrite length_app. lia. }
  clearbody links.
  assert (Hagg1 : Forall (fun a => Web.summary (deref h1 a) <> None) aggregated).
  { apply Forall_forall. intros a Ha. unfold h1. rewrite deref_app_l.
    - rewrite Forall_forall in Hagg. auto.
    - unfold allocated in Hal. rewrite Forall_forall in Hal. auto. }
  assert (Hgoal : forall h2 agg2 threads,
            allocated h2 threads ->
            Forall (fun a => Web.summary (deref h2 a) <> None) agg2 ->
            let ha := (let '(h3, puts) :=
                         run_workers ALLOWED_DOMAINS netloc (worker env) 0 threads h2 in
                       (h3, agg2 ++ interleave (schedule env) puts)) in
            Forall (fun a => Web.summary (deref (fst ha) a) <> None) (snd ha)).
  { intros h2 agg2 threads Hth Hagg2.
    destruct (run_workers_summaries (worker env) threads 0%nat h2 Hth) as [Hkeep Hall].
    destruct (run_workers_spec ALLOWED_DOMAINS netloc (worker env) threads 0%nat h2)
      as (h3 & puts & Heq & _ & _ & Hin).
    rewrite Heq in Hkeep, Hall |- *. cbn [fst snd] in *.
    apply Forall_app. split.
    - eapply Forall_impl; [exact Hagg2|]. cbn. auto.
    - rewrite (interleave_perm (schedule env) puts).
      eapply Forall_impl; [exact Hin|]. cbn. intros a Ha.
      rewrite Forall_forall in Hall. auto. }
  destruct (try_ends env) as [|started e].
  - now apply Hgoal.
  - unfold alloc. apply Hgoal.
    + eapply allocated_grow; [|apply Forall_take; exact Hlinks].
      rewrite length_app. lia.
    + apply Forall_app. split.
      * apply Forall_forall. intros a Ha. rewrite deref_app_l.
        -- rewrite Forall_forall in Hagg1. auto.
        -- unfold allocated in Hal. rewrite Forall_forall in Hal.
           unfold h1. rewrite length_app. specialize (Hal a Ha). lia.
      * constructor; [|constructor]. rewrite deref_alloc. discriminate.
Qed.

Lemma executor_loop_summaries (envs : nat -> subq_env) (subqs : list string) :
  forall i ha,
    aggregate_ok ha ->
    Forall (fun a => Web.summary (deref (fst ha) a) <> None) (snd ha) ->
    let ha' := executor_loop SUBQ_SEARCH_COUNT ALLOWED_DOMAINS netloc envs i subqs ha in
    Forall (fun a => Web.summary (deref (fst ha') a) <> None) (snd ha').
Proof.
  induction subqs as [|subq subqs IH]; intros i ha Hok Hagg; [exact Hagg|].
  cbn [executor_loop]. destruct ha as [h aggregated].
  apply IH.
  - now apply executor_subq_ok.
  - apply executor_subq_summaries; [exact (proj2 Hok) | exact Hagg].
Qed.

Lemma number_from_summary (rs : list addr) (b : addr) : forall i h,
  Web.summary (deref h b) <> None -> Web.summary (deref (number_from i rs h) b) <> None.
Proof.
  induction rs as [|r rs IH]; intros i h Hb; cbn [number_from]; [exact Hb|].
  apply IH. destruct (decide (r = b)) as [->|Hne].
  - destruct (decide (b < length h)%nat) as [Hlt|Hge].
    + now rewrite deref_update_same.
    + unfold update. now rewrite list_insert_ge by lia.
  - now rewrite deref_update_other.
Qed.

(** X24.  Every record of [web_results] carries a summary: each
    record the executor aggregates went through a worker, which writes
    [summary] on every one of its paths, or is a placeholder made with
    one. *)
Theorem executor_results_have_summaries (env : executor_env) (state : QueryState) :
  Forall (fun r => Web.summary r <> None) (web_results (executor env state)).
Proof.
  unfold executor. rewrite executor_web_results.
  set (ha := Agents.aggregate SUBQ_SEARCH_COUNT ALLOWED_DOMAINS netloc env state).
  assert (Hagg : Forall (fun a => Web.summary (deref (fst ha) a) <> None) (snd ha)).
  { unfold ha, Agents.aggregate. apply executor_loop_summaries.
    - split; constructor.
    - constructor. }
  destruct (WebFacts.dedupe_loop_out (deref (fst ha)) (snd ha) []) as (_ & _ & Hsub).
  fold (dedupe_by_link (deref (fst ha)) (snd ha)) in Hsub.
  apply Forall_fmap. apply Forall_forall. intros a Ha. cbn.
  apply number_from_summary. rewrite Forall_forall in Hagg.
  apply Hagg. eapply elem_of_sublist; eassumption.
Qed.

Lemma executor_subqueries (env : executor_env) (state : QueryState) :
  subqueries (executor env state) = subqueries state.
Proof.
  unfold executor, Agents.executor. destruct (Agents.aggregate _ _ _ _ _) as [h agg].
  cbn. apply executor_rag_subqueries.
Qed.

(** X25.  On a state without subquestions (the planner gave up, or its
    text held no question) the pass searches nothing: [executor] leaves
    [web_results] empty, having asked the RAG service only, and
    [answer_subquestions] leaves [answers] empty. *)
Theorem empty_plan_researches_nothing (env : executor_env)
    (llm : nat -> Z -> Llm.gen_result) (state : QueryState) :
  subqueries state = [] ->
  executor env state = set_web_results (executor_rag (rag env) state) [] /\
  answers (answer_subquestions llm (executor env state)) = [].
Proof.
  intros Hs. split.
  - unfold executor, Agents.executor, Agents.aggregate.
    rewrite executor_rag_subqueries, Hs. reflexivity.
  - unfold answer_subquestions. now rewrite executor_subqueries, Hs.
Qed.

End Executor.

(** *** Concrete passes *)

Lemma answer_subquestions_in_order_witness :
  answers (answer_subquestions (fun _ => Scenario.llm_ok) (Scenario.asking ["s"; "t"]))
  = [("s", "a summary"); ("t", "a summary")].
Proof.
  destruct (answer_subquestions_in_order (fun _ => Scenario.llm_ok)
              (Scenario.asking ["s"; "t"])) as (texts & -> & Hlen & Htexts).
  { apply NoDup_cons_2; [|apply NoDup_singleton].
    intros Hin. apply list_elem_of_singleton in Hin. discriminate. }
  destruct texts as [|v0 [|v1 [|v2 texts]]]; try discriminate.
  destruct (Htexts 0%nat v0 eq_refl) as (a0 & _ & ->).
  destruct (Htexts 1%nat v1 eq_refl) as (a1 & _ & ->).
  reflexivity.
Defined.

Lemma executor_results_bounded_witness :
  Py.len (web_results (Scenario.executor (Scenario.env_of []) (Scenario.asking ["s"])))
  <= 3.
Proof.
  exact (executor_results_bounded 3 10 [] Scenario.netloc (Scenario.env_of [])
           (Scenario.asking ["s"]) ltac:(lia)).
Defined.

Lemma empty_plan_researches_nothing_witness :
  web_results (Scenario.executor (Scenario.env_of []) (Scenario.asking [])) = [] /\
  answers (answer_subquestions (fun _ => Scenario.llm_ok)
             (Scenario.executor (Scenario.env_of []) (Scenario.asking []))) = [].
Proof.
  destruct (empty_plan_researches_nothing 3 10 [] Scenario.netloc (Scenario.env_of [])
              (fun _ => Scenario.llm_ok) (Scenario.asking []) eq_refl) as [H1 H2].
  split; [|exact H2]. unfold Scenario.executor. now rewrite H1.
Defined.

End StageFacts.
(** ** Runs of the graph, stage by stage *)

Module RunFacts.
Import Models Agents Graph Stages AgentsFacts GraphFacts.
Open Scope string_scope.
Open Scope list_scope.
Open Scope Z_scope.

Lemma from_node_next (nd : node) :
  is_evaluator nd = false -> from_node nd = nd :: from_node (next nd).
Proof. now destruct nd. Qed.

Lemma evaluate_passes_nodes (steps : list (node * QueryState)) :
  evaluate_passes steps
  = Py.len (filter (fun nd => is_evaluator nd = true) (map fst steps)).
Proof.
  induction steps as [|[nd state] steps IH]; [reflexivity|].
  rewrite evaluate_passes_cons, IH. cbn [map fst]. unfold Py.len.
  destruct (is_evaluator nd) eqn:E.
  - rewrite filter_cons_True by exact E. cbn [length]. lia.
  - rewrite filter_cons_False by (rewrite E; discriminate). lia.
Qed.

Lemma evaluators_in_passes (k : nat) :
  Py.len (filter (fun nd => is_evaluator nd = true) (concat (replicate k pass_nodes)))
  = Z.of_nat k.
Proof.
  unfold Py.len. induction k as [|k IH]; [reflexivity|].
  cbn [replicate concat]. rewrite filter_app, length_app.
  change (length (filter (fun nd => is_evaluator nd = true) pass_nodes)) with 1%nat.
  lia.
Qed.

Section Run.
Variable SUBQ_SEARCH_COUNT : Z.
Variable MAX_SOURCES_FOR_CITATIONS : Z.
Variable MIN_OVERALL : Py.float.
Variable MAX_LOOPS : Z.
Variable ALLOWED_DOMAINS : list string.
Variable netloc : string -> option string.
Variable parse_subquestions : string -> list string.
Variable json : Type.
Variable json_loads : string -> json + string.
Variable rubric_of_json : json -> EvalRubric + string.

Let run_node :=
  run_node SUBQ_SEARCH_COUNT MAX_SOURCES_FOR_CITATIONS MIN_OVERALL ALLOWED_DOMAINS
    netloc parse_subquestions json json_loads rubric_of_json.
Let edge := edge MIN_OVERALL MAX_LOOPS.
Let run_from :=
  run_from SUBQ_SEARCH_COUNT MAX_SOURCES_FOR_CITATIONS MIN_OVERALL MAX_LOOPS
    ALLOWED_DOMAINS netloc parse_subquestions json json_loads rubric_of_json.
Let run :=
  run SUBQ_SEARCH_COUNT MAX_SOURCES_FOR_CITATIONS MIN_OVERALL MAX_LOOPS
    ALLOWED_DOMAINS netloc parse_subquestions json json_loads rubric_of_json.
Let evaluator := Agents.evaluator MIN_OVERALL json json_loads rubric_of_json.
Let should_replan := Agents.should_replan MIN_OVERALL MAX_LOOPS.

Lemma run_from_step (limit : nat) (E : env) (p : nat) (nd : node) (state : QueryState) :
  run_from (S limit) E p nd state =
  match run_node E p nd state with
  | None => ([], NodeFailed)
  | Some state' =>
      match edge nd state' with
      | None => ([(nd, state')], NodeFailed)
      | Some END =>
          ([(nd, state')], match limit with O => OutOfSteps | S _ => Finished end)
      | Some (Node nd') =>
          let rest :=
            run_from limit E (match nd with Graph.evaluator => S p | _ => p end)
              nd' state' in
          ((nd, state') :: fst rest, snd rest)
      end
  end.
Proof. apply run_from_S. Qed.

Lemma edge_from_other (nd : node) (state : QueryState) :
  is_evaluator nd = false -> edge nd state = Some (Node (next nd)).
Proof. apply edge_other. Qed.

Lemma edge_from_evaluator (state : QueryState) :
  edge Graph.evaluator state = Some END \/
  edge Graph.evaluator state = Some (Node Graph.planner).
Proof.
  destruct (edge_evaluator MIN_OVERALL MAX_LOOPS state) as [H | [H _]]; auto.
Qed.

Lemma run_node_same_verdict (E : env) (p : nat) (nd : node) (state state' : QueryState) :
  is_evaluator nd = false -> run_node E p nd state = Some state' ->
  same_verdict state state'.
Proof.
  intros Hnd Hrun.
  destruct (run_node_other SUBQ_SEARCH_COUNT MAX_SOURCES_FOR_CITATIONS MIN_OVERALL
              ALLOWED_DOMAINS netloc parse_subquestions json json_loads rubric_of_json
              E p nd state Hnd) as (state1 & Hrun1 & Hsame).
  fold run_node in Hrun1. rewrite Hrun in Hrun1. now injection Hrun1 as <-.
Qed.

(** Every node returns a state. *)
Lemma run_node_returns (E : env) (p : nat) (nd : node) (state : QueryState) :
  exists state', run_node E p nd state = Some state'.
Proof.
  destruct (is_evaluator nd) eqn:Hnd.
  - destruct nd; try discriminate.
    destruct (run_node_evaluator SUBQ_SEARCH_COUNT MAX_SOURCES_FOR_CITATIONS MIN_OVERALL
                ALLOWED_DOMAINS netloc parse_subquestions json json_loads rubric_of_json
                E p state) as (state' & H & _).
    eauto.
  - destruct (run_node_other SUBQ_SEARCH_COUNT MAX_SOURCES_FOR_CITATIONS MIN_OVERALL
                ALLOWED_DOMAINS netloc parse_subquestions json json_loads rubric_of_json
                E p nd state Hnd) as (state' & H & _).
    eauto.
Qed.

(** *** The question and the summary *)

Lemma evaluator_frame (calls : Z -> eval_calls) (state state' : QueryState) :
  evaluator calls state = Some state' ->
  question state' = question state /\ summary state' = summary state.
Proof.
  unfold evaluator, Agents.evaluator.
  set (bumped := set_loop_count state (loop_count state + 1)).
  apply (LlmFacts.retry_loop_result
           (fun s => question s = question state /\ summary s = summary state)).
  - intros attempt x Hx.
    apply (evaluator_attempt_completes MIN_OVERALL json json_loads rubric_of_json)
      in Hx as [rubric ->].
    unfold evaluator_verdict.
    now destruct (Py.float_ge (overall rubric) MIN_OVERALL).
  - intros e. now split.
Qed.

Lemma run_node_frame (E : env) (p : nat) (nd : node) (state state' : QueryState) :
  run_node E p nd state = Some state' ->
  question state' = question state /\
  (nd <> summarizer -> summary state' = summary state).
Proof.
  destruct nd; unfold run_node, Graph.run_node.
  - intros H. split; [|congruence]. revert H.
    apply (LlmFacts.retry_loop_result (fun s => question s = question state)).
    + intros attempt x. destruct (summarizer_llm E attempt); [|discriminate].
      now intros [= <-].
    + reflexivity.
  - apply (planner_loop_result
             (fun s => question s = question state /\
                       (planner <> summarizer -> summary s = summary state)));
      [now intros s [H1 H2] | now intros s v [H1 H2] | now split].
  - intros [= <-]. unfold Agents.executor.
    destruct (aggregate _ _ _ _ _) as [h agg].
    destruct (rag (executor_env (passes E p))) as [text [s|]|e]; now split.
  - intros [= <-]. now split.
  - apply (LlmFacts.retry_loop_result
             (fun s => question s = question state /\
                       (synthesizer <> summarizer -> summary s = summary state))).
    + intros attempt x. destruct (synthesizer_llm (passes E p) attempt); [|discriminate].
      now intros [= <-].
    + now intros e.
  - intros H. apply evaluator_frame in H as [H1 H2]. auto.
Qed.

Lemma edge_target (nd : node) (state : QueryState) (nd' : node) :
  edge nd state = Some (Node nd') -> nd' <> summarizer.
Proof.
  destruct nd; cbn; try (intros [= <-]; discriminate).
  destruct (String.eqb _ "end"); [discriminate|].
  destruct (String.eqb _ "replan"); [|discriminate].
  intros [= <-]. discriminate.
Qed.

Lemma run_from_frame (limit : nat) : forall (E : env) (p : nat) (nd : node)
    (state : QueryState),
  let steps := fst (run_from limit E p nd state) in
  Forall (fun s => question (snd s) = question state) steps /\
  (nd <> summarizer -> Forall (fun s => summary (snd s) = summary state) steps).
Proof.
  induction limit as [|limit IH]; intros E p nd state.
  { cbn. split; [constructor | intros _; constructor]. }
  rewrite run_from_step.
  destruct (run_node E p nd state) as [state'|] eqn:Hnode;
    [|cbn; split; [constructor | intros _; constructor]].
  destruct (run_node_frame E p nd state state' Hnode) as [Hq Hs].
  destruct (edge nd state') as [[nd'|]|] eqn:Hedge.
  - destruct (IH E (match nd with Graph.evaluator => S p | _ => p end) nd' state')
      as [IHq IHs].
    specialize (IHs (edge_target nd state' nd' Hedge)).
    cbn zeta. cbn [fst snd]. split.
    + constructor; [exact Hq|]. eapply Forall_impl; [exact IHq|].
      cbn. intros s ->. exact Hq.
    + intros Hnd. constructor; [now apply Hs|]. eapply Forall_impl; [exact IHs|].
      cbn. intros s ->. now apply Hs.
  - cbn. split; [repeat constructor; exact Hq|].
    intros Hnd. repeat constructor. now apply Hs.
  - cbn. split; [repeat constructor; exact Hq|].
    intros Hnd. repeat constructor. now apply Hs.
Qed.

(** X26.  Along a run, whatever the step limit: every state streamed
    carries the question of the request, and the summary the first
    step, the summarizer, wrote; no later stage touches either. *)
Theorem run_keeps_question_and_summary (limit : nat) (E : env) (q : string) :
  let steps := fst (run limit E q) in
  Forall (fun s => question (snd s) = q) steps /\
  (forall first rest, steps = first :: rest ->
     fst first = summarizer /\
     Forall (fun s => summary (snd s) = summary (snd first)) rest).
Proof.
  cbv zeta. unfold run, Graph.run. fold run_from. split.
  - apply (run_from_frame limit E 0%nat summarizer (initial q)).
  - destruct limit as [|limit]; [discriminate|].
    rewrite run_from_step.
    destruct (run_node_returns E 0%nat summarizer (initial q)) as [state' ->].
    cbn [edge Graph.edge]. cbn zeta. cbn [fst].
    intros first rest [= <- <-]. split; [reflexivity|].
    apply (run_from_frame limit E 0%nat planner state'). discriminate.
Qed.

(** *** The order of the stages *)

Lemma run_from_shape (limit : nat) : forall (E : env) (p : nat) (nd : node)
    (state : QueryState),
  let result := run_from limit E p nd state in
  snd result <> NodeFailed /\
  (snd result = OutOfSteps -> length (fst result) = limit) /\
  exists k : nat,
    map fst (fst result) `prefix_of` from_node nd ++ concat (replicate k pass_nodes) /\
    (snd result = Finished ->
     map fst (fst result) = from_node nd ++ concat (replicate k pass_nodes)).
Proof.
  induction limit as [|limit IH]; intros E p nd state.
  { cbn. split; [discriminate|]. split; [reflexivity|].
    exists 0%nat. split; [apply prefix_nil | discriminate]. }
  rewrite run_from_step.
  destruct (run_node_returns E p nd state) as [state' ->].
  destruct (is_evaluator nd) eqn:Hnd.
  - destruct nd; try discriminate.
    destruct (edge_from_evaluator state') as [He | He]; rewrite He.
    + cbn [fst snd map from_node length].
      split; [now destruct limit|]. split; [now destruct limit|].
      exists 0%nat. split; [reflexivity | reflexivity].
    + destruct (IH E (S p) planner state') as (Hout & Hlen & k & Hpre & Hfin).
      cbn zeta. cbn [fst snd]. split; [exact Hout|].
      split; [intros H; cbn [length]; now rewrite Hlen|].
      exists (S k). cbn [from_node map fst replicate concat app].
      split; [now apply prefix_cons|]. intros H. now rewrite Hfin.
  - rewrite (edge_from_other nd state' Hnd).
    destruct (IH E (match nd with Graph.evaluator => S p | _ => p end) (next nd) state')
      as (Hout & Hlen & k & Hpre & Hfin).
    cbn zeta. cbn [fst snd]. split; [exact Hout|].
    split; [intros H; cbn [length]; now rewrite Hlen|].
    exists k. rewrite (from_node_next nd Hnd). cbn [map fst app].
    split; [now apply prefix_cons|]. intros H. now rewrite Hfin.
Qed.

(** X27.  A run, whatever the step limit, never stops on a node that
    returned no state or on an edge without target: it reaches [END] or
    uses up the limit.  The nodes run in the order of the edges: the
    summarizer once, then whole passes planner, executor,
    answer_subqs, synthesizer, evaluator; a run that reaches [END] is
    the summarizer and a positive number of whole passes, as many as it
    has Evaluate steps. *)
Theorem run_follows_the_edges (limit : nat) (E : env) (q : string) :
  let result := run limit E q in
  snd result <> NodeFailed /\
  (snd result = OutOfSteps -> length (fst result) = limit) /\
  exists k : nat,
    map fst (fst result) `prefix_of` summarizer :: concat (replicate (S k) pass_nodes) /\
    (snd result = Finished ->
     map fst (fst result) = summarizer :: concat (replicate (S k) pass_nodes) /\
     evaluate_passes (fst result) = Z.of_nat (S k) /\
     length (fst result) = (1 + 5 * S k)%nat).
Proof.
  cbv zeta. unfold run, Graph.run. fold run_from.
  destruct (run_from_shape limit E 0%nat summarizer (initial q))
    as (Hout & Hlen & k & Hpre & Hfin).
  split; [exact Hout|]. split; [exact Hlen|]. exists k.
  change (from_node summarizer ++ concat (replicate k pass_nodes))
    with (summarizer :: concat (replicate (S k) pass_nodes)) in Hpre, Hfin.
  split; [exact Hpre|]. intros H. specialize (Hfin H). split; [exact Hfin|].
  split.
  - rewrite evaluate_passes_nodes, Hfin.
    rewrite filter_cons_False by discriminate. apply evaluators_in_passes.
  - rewrite <- (length_map fst), Hfin. cbn [length]. f_equal.
    clear. induction (S k) as [|m IH]; [reflexivity|].
    cbn [replicate concat]. rewrite length_app, IH. cbn [pass_nodes from_node length]. lia.
Qed.

(** *** The last state of a run *)

Lemma run_from_last (limit : nat) : forall (E : env) (p : nat) (nd : node)
    (state : QueryState),
  snd (run_from limit E p nd state) = Finished ->
  exists p' before final,
    final_state (fst (run_from limit E p nd state)) = Some final /\
    run_node E p' Graph.evaluator before = Some final /\
    edge Graph.evaluator final = Some END.
Proof.
  induction limit as [|limit IH]; intros E p nd state; [discriminate|].
  rewrite run_from_step.
  destruct (run_node E p nd state) as [state'|] eqn:Hnode; [|discriminate].
  destruct (edge nd state') as [[nd'|]|] eqn:Hedge; [| |discriminate].
  - cbn zeta. cbn [fst snd]. intros Hfin.
    destruct (IH E _ nd' state' Hfin) as (p' & before & final & Hlast & Hrun & Hend).
    exists p', before, final. split; [|auto].
    unfold final_state in *.
    destruct (fst (run_from limit E _ nd' state')); [discriminate|].
    now rewrite last_cons_cons.
  - intros _. destruct nd; try discriminate.
    exists p, state, state'. auto.
Qed.

Lemma edge_end (state : QueryState) :
  edge Graph.evaluator state = Some END -> should_replan state = "end".
Proof.
  unfold edge, Graph.edge. fold should_replan.
  destruct (should_replan_labels MIN_OVERALL MAX_LOOPS state) as [H | [H _]];
    fold should_replan in H; rewrite H; [reflexivity | discriminate].
Qed.

Lemma edge_replan (state : QueryState) :
  edge Graph.evaluator state = Some (Node Graph.planner) ->
  exists rubric,
    scores state = Some rubric /\ Py.float_lt (overall rubric) MIN_OVERALL = true.
Proof.
  unfold edge, Graph.edge, Agents.should_replan.
  destruct (MAX_LOOPS <=? loop_count state); [discriminate|].
  destruct (scores state) as [rubric|]; [|discriminate].
  destruct (Py.float_lt (overall rubric) MIN_OVERALL) eqn:E; [|discriminate].
  intros _. exists rubric. split; [reflexivity | exact E].
Qed.

(** The two verdicts of the evaluator. *)
Lemma evaluator_yes_or_no (calls : Z -> eval_calls) (state state' : QueryState) :
  Py.float_lt (Py.Num 0) MIN_OVERALL = true ->
  evaluator calls state = Some state' ->
  exists rubric,
    scores state' = Some rubric /\
    ((evaluation state' = "yes" /\ Py.float_ge (overall rubric) MIN_OVERALL = true /\
      feedback state' = "" /\ bad_subqueries state' = []) \/
     (evaluation state' = "no" /\ Py.float_ge (overall rubric) MIN_OVERALL = false /\
      feedback state' <> "" /\ bad_subqueries state' = subqueries state)).
Proof.
  intros Hmin Hrun.
  destruct (evaluator_spec MIN_OVERALL json json_loads rubric_of_json calls state)
    as (attempt & state1 & _ & Hrun1 & _ & _ & _ & Hcase).
  fold evaluator in Hrun1. rewrite Hrun in Hrun1. injection Hrun1 as <-.
  destruct (Agents.evaluator_attempt _ _ _ _ _ _ attempt) as [x|e].
  - destruct Hcase as (rubric & Hs & Hyes & Hno). exists rubric. split; [exact Hs|].
    destruct (Py.float_ge (overall rubric) MIN_OVERALL) eqn:Hge.
    + left. destruct (Hyes eq_refl) as (H1 & H2 & H3). auto.
    + right. destruct (Hno eq_refl) as (H1 & H2 & H3).
      split; [exact H1|]. split; [reflexivity|]. split; [|exact H3].
      rewrite H2. destruct (String.eqb (critique rubric) "") eqn:E; [discriminate|].
      now apply String.eqb_neq.
  - destruct Hcase as (Hs & He & Hf & Hb). eexists. split; [exact Hs|].
    right. split; [exact He|]. split; [now apply PyFacts.float_lt_not_ge|].
    split; [|exact Hb]. rewrite Hf. discriminate.
Qed.

(** X28.  With [MAX_LOOPS >= 1] and a threshold [MIN_OVERALL > 0], the
    run under the step limit of [api/routes.py] ends on a state with a
    rubric and one of two verdicts: "yes", the overall score at or above
    the threshold, feedback and [bad_subqueries] cleared; or "no", the
    overall score not at or above the threshold, a feedback given, and
    then either the loop count has reached [MAX_LOOPS], or the overall
    score is NaN: but for a score that is NaN, an answer is given up on
    only when no pass is left. *)
Theorem run_ends_on_a_verdict (E : env) (q : string) :
  1 <= MAX_LOOPS -> Py.float_lt (Py.Num 0) MIN_OVERALL = true ->
  exists final rubric,
    final_state (fst (run (recursion_limit MAX_LOOPS) E q)) = Some final /\
    scores final = Some rubric /\
    ((evaluation final = "yes" /\ Py.float_ge (overall rubric) MIN_OVERALL = true /\
      feedback final = "" /\ bad_subqueries final = []) \/
     (evaluation final = "no" /\ Py.float_ge (overall rubric) MIN_OVERALL = false /\
      feedback final <> "" /\
      (loop_count final = MAX_LOOPS \/ overall rubric = Py.NaN))).
Proof.
  intros Hmax Hmin. unfold run, Graph.run. fold run_from.
  destruct (run_from_finishes SUBQ_SEARCH_COUNT MAX_SOURCES_FOR_CITATIONS MIN_OVERALL
              MAX_LOOPS ALLOWED_DOMAINS netloc parse_subquestions json json_loads
              rubric_of_json (recursion_limit MAX_LOOPS) E 0%nat summarizer (initial q))
    as (Hfin & final & Hlast & Hle).
  { cbn. lia. }
  { unfold needed, recursion_limit. cbn. lia. }
  fold run_from in Hfin, Hlast.
  destruct (run_from_last _ E 0%nat summarizer (initial q) Hfin)
    as (p' & before & final' & Hlast' & Hrun & Hend).
  rewrite Hlast in Hlast'. injection Hlast' as <-.
  destruct (evaluator_yes_or_no _ before final Hmin Hrun)
    as (rubric & Hs & [Hyes | (Hno & Hge & Hf & _)]).
  - exists final, rubric. auto.
  - exists final, rubric. split; [exact Hlast|]. split; [exact Hs|]. right.
    split; [exact Hno|]. split; [exact Hge|]. split; [exact Hf|].
    apply edge_end in Hend. unfold should_replan, Agents.should_replan in Hend.
    destruct (MAX_LOOPS <=? loop_count final) eqn:Hcap;
      [left; apply Z.leb_le in Hcap; lia|].
    right. rewrite Hs in Hend.
    destruct (Py.float_lt (overall rubric) MIN_OVERALL) eqn:Hlt; [discriminate|].
    destruct (PyFacts.float_neither _ _ Hlt Hge) as [Hnan | Hnan].
    + now destruct (overall rubric).
    + destruct MIN_OVERALL; discriminate.
Qed.

(** *** api/routes.py *)

Variable exception_text : outcome -> string.

Let breaks := Routes.breaks MIN_OVERALL.
Let consume := Routes.consume MIN_OVERALL.
Let run_pipeline := Routes.run_pipeline MIN_OVERALL exception_text.

Lemma breaks_same_verdict (state state' : QueryState) :
  same_verdict state state' -> breaks state' = breaks state.
Proof.
  intros (_ & He & Hs). unfold breaks, Routes.breaks. now rewrite He, Hs.
Qed.

Lemma breaks_replan (calls : Z -> eval_calls) (state state' : QueryState) :
  evaluator calls state = Some state' ->
  edge Graph.evaluator state' = Some (Node Graph.planner) ->
  breaks state' = false.
Proof.
  intros Hrun Hedge. apply edge_replan in Hedge as (rubric & Hs & Hlt).
  apply PyFacts.float_lt_not_ge in Hlt.
  destruct (evaluator_spec MIN_OVERALL json json_loads rubric_of_json calls state)
    as (attempt & state1 & _ & Hrun1 & _ & _ & _ & Hcase).
  fold evaluator in Hrun1. rewrite Hrun in Hrun1. injection Hrun1 as <-.
  assert (Hno : evaluation state' = "no").
  { destruct (Agents.evaluator_attempt _ _ _ _ _ _ attempt) as [x|e].
    - destruct Hcase as (rubric' & Hs' & _ & Hno). rewrite Hs in Hs'.
      injection Hs' as <-. now destruct (Hno Hlt).
    - now destruct Hcase as (_ & He & _). }
  unfold breaks, Routes.breaks. now rewrite Hs, Hno, Hlt.
Qed.

(** The loop over the stream reads every step: it is never left by
    [break] before the last one, and only at an Evaluate step after which
    the graph goes to [END]. *)
Lemma consume_run_from (limit : nat) : forall (E : env) (p : nat) (nd : node)
    (state : QueryState) (acc : option QueryState),
  breaks state = false ->
  let result := run_from limit E p nd state in
  fst (consume (fst result) acc)
  = match final_state (fst result) with Some final => Some final | None => acc end /\
  (forall final, final_state (fst result) = Some final ->
     snd (consume (fst result) acc) = breaks final /\
     (breaks final = true -> edge Graph.evaluator final = Some END)) /\
  (final_state (fst result) = None -> snd (consume (fst result) acc) = false).
Proof.
  induction limit as [|limit IH]; intros E p nd state acc Hcold.
  { cbn. split; [reflexivity|]. split; [discriminate | reflexivity]. }
  rewrite run_from_step.
  destruct (run_node_returns E p nd state) as [state' Hnode]. rewrite Hnode.
  assert (Hstep : forall p' nd',
            breaks state' = false ->
            let result := ((nd, state') :: fst (run_from limit E p' nd' state'),
                           snd (run_from limit E p' nd' state')) in
            fst (consume (fst result) acc)
            = match final_state (fst result) with Some final => Some final | None => acc end /\
            (forall final, final_state (fst result) = Some final ->
               snd (consume (fst result) acc) = breaks final /\
               (breaks final = true -> edge Graph.evaluator final = Some END)) /\
            (final_state (fst result) = None -> snd (consume (fst result) acc) = false)).
  { intros p' nd' Hcold'. cbn zeta. cbn [fst snd].
    unfold consume. cbn [Routes.consume]. fold breaks consume. rewrite Hcold'.
    destruct (IH E p' nd' state' (Some state') Hcold') as (H1 & H2 & H3).
    unfold final_state in *.
    destruct (fst (run_from limit E p' nd' state')) as [|s rest] eqn:Hsteps.
    - cbn. split; [reflexivity|]. split; [|discriminate].
      intros final [= <-]. rewrite Hcold'. split; [reflexivity | discriminate].
    - rewrite last_cons_cons.
      destruct (last (s :: rest)) as [x|] eqn:Hx;
        [|apply last_None in Hx; discriminate].
      cbn [fmap option_fmap option_map] in *.
      split; [exact H1|]. split; [exact H2 | discriminate]. }
  destruct (is_evaluator nd) eqn:Hnd.
  - destruct nd; try discriminate.
    destruct (edge_from_evaluator state') as [He | He]; rewrite He.
    + cbn [fst snd]. unfold consume. cbn [Routes.consume]. fold breaks.
      unfold final_state. cbn.
      split; [now destruct (breaks state')|]. split; [|discriminate].
      intros final [= <-]. split; [now destruct (breaks state') | now intros _].
    + apply Hstep. eapply breaks_replan; [exact Hnode | exact He].
  - rewrite (edge_from_other nd state' Hnd).
    apply Hstep.
    now rewrite (breaks_same_verdict state state'
                   (run_node_same_verdict E p nd state state' Hnd Hnode)).
Qed.

(** X29.  [run_pipeline] reads the stream of the run to its last step:
    its two [break] tests hold at no step but an Evaluate step after
    which the graph goes to [END].  A run that reaches [END] is answered
    with the fields of its final state.  A run stopped by the step limit
    is answered with status 500, unless the limit is used up by the very
    Evaluate step that ends the graph and a [break] test holds of it:
    the loop is then left before the engine raises, and the answer is
    the response built from that state.  With [MAX_LOOPS >= 1] the run
    under the step limit [MAX_LOOPS * 8] reaches [END]: the answer is a
    response. *)
Theorem run_pipeline_answers_final_state (E : env) (q : string) :
  (forall limit,
     let stream := run limit E q in
     (snd stream = Finished ->
      exists final,
        final_state (fst stream) = Some final /\
        run_pipeline stream = Routes.Ok200 (Routes.response_of final)) /\
     (snd stream <> Finished ->
      snd stream = OutOfSteps /\ length (fst stream) = limit /\
      run_pipeline stream
      = match final_state (fst stream) with
        | Some final =>
            if breaks final then Routes.Ok200 (Routes.response_of final)
            else Routes.Error500
                   ("LangGraph failed: " ++ exception_text OutOfSteps)%string
        | None =>
            Routes.Error500 ("LangGraph failed: " ++ exception_text OutOfSteps)%string
        end) /\
     (forall final,
        final_state (fst stream) = Some final -> breaks final = true ->
        should_replan final = "end")) /\
  (1 <= MAX_LOOPS ->
   exists final,
     final_state (fst (run (recursion_limit MAX_LOOPS) E q)) = Some final /\
     run_pipeline (run (recursion_limit MAX_LOOPS) E q)
     = Routes.Ok200 (Routes.response_of final)).
Proof.
  assert (Hany : forall limit,
            let stream := run limit E q in
            (snd stream = Finished ->
             exists final,
               final_state (fst stream) = Some final /\
               run_pipeline stream = Routes.Ok200 (Routes.response_of final)) /\
            (snd stream <> Finished ->
             snd stream = OutOfSteps /\ length (fst stream) = limit /\
             run_pipeline stream
             = match final_state (fst stream) with
               | Some final =>
                   if breaks final then Routes.Ok200 (Routes.response_of final)
                   else Routes.Error500
                          ("LangGraph failed: " ++ exception_text OutOfSteps)%string
               | None =>
                   Routes.Error500
                     ("LangGraph failed: " ++ exception_text OutOfSteps)%string
               end) /\
            (forall final,
               final_state (fst stream) = Some final -> breaks final = true ->
               should_replan final = "end")).
  { intros limit. cbv zeta. unfold run, Graph.run. fold run_from.
    destruct (consume_run_from limit E 0%nat summarizer (initial q) None eq_refl)
      as (Hfst & Hsnd & Hnone).
    destruct (run_from_shape limit E 0%nat summarizer (initial q)) as (Hout & Hlen & _).
    unfold run_pipeline, Routes.run_pipeline. fold consume.
    destruct (consume (fst (run_from limit E 0%nat summarizer (initial q))) None)
      as [final broke].
    cbn [fst snd] in Hfst, Hsnd, Hnone. split; [|split].
    - intros Hres.
      destruct (run_from_last limit E 0%nat summarizer (initial q) Hres)
        as (p' & before & final' & Hlast & _).
      exists final'. split; [exact Hlast|].
      rewrite Hlast in Hfst. subst final. rewrite Hres. now destruct broke.
    - intros Hres.
      destruct (snd (run_from limit E 0%nat summarizer (initial q))) eqn:Hs;
        [contradiction| |contradiction].
      split; [reflexivity|]. split; [now apply Hlen|].
      destruct (final_state (fst (run_from limit E 0%nat summarizer (initial q))))
        as [f|] eqn:Hf.
      + destruct (Hsnd f eq_refl) as [Hb _]. subst final broke.
        now destruct (breaks f).
      + rewrite (Hnone eq_refl) in *. now subst final.
    - intros final0 Hf Hb. destruct (Hsnd final0 Hf) as [_ Hend].
      apply edge_end. auto. }
  split; [exact Hany|].
  intros Hmax. specialize (Hany (recursion_limit MAX_LOOPS)). cbv zeta in Hany.
  apply (proj1 Hany).
  unfold run, Graph.run. fold run_from.
  destruct (run_from_finishes SUBQ_SEARCH_COUNT MAX_SOURCES_FOR_CITATIONS MIN_OVERALL
              MAX_LOOPS ALLOWED_DOMAINS netloc parse_subquestions json json_loads
              rubric_of_json (recursion_limit MAX_LOOPS) E 0%nat summarizer (initial q))
    as (Hfin & _).
  { cbn. lia. }
  { unfold needed, recursion_limit. cbn. lia. }
  exact Hfin.
Qed.

End Run.

(** *** Concrete runs *)

Lemma run_ends_on_a_verdict_witness :
  exists final,
    final_state (fst (Scenario.run Scenario.all_down "q")) = Some final /\
    evaluation final = "no" /\ loop_count final = 3.
Proof.
  destruct (run_ends_on_a_verdict 3 10 (Py.Num (7 # 10)) 3 [] Scenario.netloc
              (fun _ => ["s"%string]) EvalRubric Scenario.json_loads
              Scenario.rubric_of_json Scenario.all_down "q" ltac:(lia) ltac:(reflexivity))
    as (final & rubric & Hlast & Hs & Hcase).
  exists final. split; [exact Hlast|].
  assert (Hfinal : evaluation final = "no" /\ overall <$> scores final = Some (Py.Num 0)).
  { revert Hlast. vm_compute. intros [= <-]. split; reflexivity. }
  destruct Hfinal as [Hno Hzero]. split; [exact Hno|].
  destruct Hcase as [(Hyes & _) | (_ & _ & _ & [Hl | Hnan])];
    [congruence | exact Hl |].
  rewrite Hs in Hzero. cbn in Hzero. congruence.
Defined.

(** The step limit at work, with [MAX_LOOPS = 3].  When every call
    fails the run takes 16 steps: under the limit 24 of [api/routes.py]
    the answer is a response; under a limit of 16 the engine raises after
    the sixteenth step and the answer is status 500.  When the first
    evaluation passes the run takes 6 steps: under a limit of 6 the
    engine would raise, but the loop of [run_pipeline] is left at the
    sixth step and the answer is a response. *)
Example run_pipeline_at_the_limit :
  let run limit :=
    Graph.run 3 10 (Py.Num (7 # 10)) 3 [] Scenario.netloc (fun _ => ["s"])
      EvalRubric Scenario.json_loads Scenario.rubric_of_json limit in
  let answers stream :=
    match Routes.run_pipeline (Py.Num (7 # 10)) (fun _ => "Recursion limit reached")
            stream with
    | Routes.Ok200 _ => 200
    | Routes.Error500 _ => 500
    end in
  snd (run 17%nat Scenario.all_down "q") = Finished /\
  answers (run 24%nat Scenario.all_down "q") = 200 /\
  snd (run 16%nat Scenario.all_down "q") = OutOfSteps /\
  length (fst (run 16%nat Scenario.all_down "q")) = 16%nat /\
  answers (run 16%nat Scenario.all_down "q") = 500 /\
  snd (run 6%nat Scenario.all_good "q") = OutOfSteps /\
  answers (run 6%nat Scenario.all_good "q") = 200.
Proof. vm_compute. repeat split; reflexivity. Qed.

End RunFacts.
(** ** routes/rag_routes.py *)

Module RagRoutesFacts.
Import MemoryCache MemoryCacheFacts RagRoutes.
Open Scope string_scope.
Open Scope Z_scope.

Section Facts.
Context {V : Type}.
Implicit Types (env : request_env V) (st : state V) (query : string).

Lemma get_miss_or_hit now (key : string) (c : MemoryCache.t string V) :
  match fst (get now key c) with
  | Some v => exists e, dict_get key (_cache c) = Some (v, e) /\ expiry_gt e now = true
  | None => True
  end /\
  default_ttl (snd (get now key c)) = default_ttl c.
Proof.
  unfold get. destruct (dict_get key (_cache c)) as [[v e]|]; [|now split].
  destruct (expiry_gt e now) eqn:E; cbn; [|now split]. split; [eauto | reflexivity].
Qed.

Lemma finish_spec env (key : string) (status_code : Z) (read : option V) st :
  let result := fst (finish env key status_code read st) in
  let st' := snd (finish env key status_code read st) in
  JWT_TOKEN st' = JWT_TOKEN st /\
  match result with
  | Ok200 output =>
      raises_for_status status_code = false /\ read = Some output /\
      dict_get key (_cache (rag_answer_cache st'))
      = Some (output, At (at_put env + inject_Z (default_ttl (rag_answer_cache st))))
  | HTTPException code =>
      st' = st /\
      (code = 401 -> status_code = 401)
  end.
Proof.
  unfold finish. destruct (raises_for_status status_code) eqn:Hr;
    cbn [fst snd JWT_TOKEN rag_answer_cache].
  - split; [reflexivity|]. split; [reflexivity | auto].
  - destruct read as [output|]; cbn [fst snd JWT_TOKEN rag_answer_cache].
    + split; [reflexivity|]. split; [reflexivity|]. split; [reflexivity|].
      destruct (put_get (at_cleanup env) (at_put env) key output None
                  (rag_answer_cache st)) as (e & -> & ->).
      reflexivity.
    + split; [reflexivity|]. split; [reflexivity | discriminate].
Qed.

Lemma usable_test (token : option string) :
  negb (Py.truthy token)
  || String.eqb (default "" token) "PLACEHOLDER_INVALID_TOKEN" = false
  <-> usable token.
Proof.
  unfold usable. rewrite orb_false_iff, negb_false_iff. split.
  - intros [Ht Hp]. split; [exact Ht|]. intros ->. discriminate.
  - intros [Ht Hp]. split; [exact Ht|].
    apply String.eqb_neq. intros Heq. apply Hp.
    destruct token as [tok|]; [|discriminate]. cbn in Heq. now subst tok.
Qed.

(** X30.  [search_mcp_tool], for every behaviour of the upstream
    service.  It calls the service at most twice.  A fresh entry of the
    cache under the stripped query is answered at once: no call, no look
    at the token.  Otherwise a token that is missing, empty or the
    placeholder gives status 401 without a call.  An answer 200 that
    came from the service is stored under the stripped query, to expire
    at the clock of the put plus the default time-to-live of the cache;
    an error stores nothing.  Status 401 is answered only by the token
    test made before any call, or for a service that answered 401 to the
    last call made: a token refresh that fails is answered with status
    500, the exception raised for it being caught by the last [except]
    clause. *)
Theorem search_mcp_tool_answers env query st :
  let key := Py.strip query in
  let looked := get (at_get env) key (rag_answer_cache st) in
  let out := search_mcp_tool env query st in
  let result := fst (fst out) in
  let st' := snd (fst out) in
  let calls := snd out in
  (calls <= 2)%nat /\
  (forall output, fst looked = Some output ->
     result = Ok200 output /\ calls = 0%nat /\
     st' = mkState (JWT_TOKEN st) (snd looked)) /\
  (fst looked = None -> ~ usable (JWT_TOKEN st) ->
     result = HTTPException 401 /\ calls = 0%nat) /\
  (forall output, result = Ok200 output -> (0 < calls)%nat ->
     dict_get key (_cache (rag_answer_cache st'))
     = Some (output, At (at_put env + inject_Z (default_ttl (rag_answer_cache st))))) /\
  (forall code, result = HTTPException code -> rag_answer_cache st' = snd looked) /\
  (result = HTTPException 401 ->
     calls = 0%nat \/
     (calls = 1%nat /\ exists read, first_call env = Responded 401 read) \/
     (calls = 2%nat /\ exists read, second_call env = Responded 401 read)) /\
  (fst looked = None -> usable (JWT_TOKEN st) ->
   (exists read, first_call env = Responded 401 read) -> refresh_fails env ->
     result = HTTPException 500).
Proof.
  cbv zeta. unfold search_mcp_tool.
  destruct (get_miss_or_hit (at_get env) (Py.strip query) (rag_answer_cache st))
    as [_ Httl].
  destruct (get (at_get env) (Py.strip query) (rag_answer_cache st)) as [cached cache].
  cbn [fst snd] in *.
  destruct cached as [output|].
  { cbn. repeat split; try lia; try congruence; try discriminate. }
  cbn [JWT_TOKEN rag_answer_cache].
  destruct (negb (Py.truthy (JWT_TOKEN st))
            || String.eqb (default "" (JWT_TOKEN st)) "PLACEHOLDER_INVALID_TOKEN") eqn:Htok.
  { cbn. repeat split; try lia; try congruence; try discriminate; auto.
    intros _ Hu. apply usable_test in Hu. congruence. }
  assert (Husable : usable (JWT_TOKEN st)) by now apply usable_test.
  assert (Hfinish : forall status_code read st0 (k : nat),
            rag_answer_cache st0 = cache ->
            (k = 1%nat /\ first_call env = Responded status_code read \/
             k = 2%nat /\ second_call env = Responded status_code read) ->
            let out := (finish env (Py.strip query) status_code read st0, k) in
            (forall output, fst (fst out) = Ok200 output -> (0 < snd out)%nat ->
               dict_get (Py.strip query) (_cache (rag_answer_cache (snd (fst out))))
               = Some (output,
                       At (at_put env + inject_Z (default_ttl (rag_answer_cache st))))) /\
            (forall code, fst (fst out) = HTTPException code ->
               rag_answer_cache (snd (fst out)) = cache) /\
            (fst (fst out) = HTTPException 401 ->
               snd out = 0%nat \/
               (snd out = 1%nat /\ exists read, first_call env = Responded 401 read) \/
               (snd out = 2%nat /\ exists read, second_call env = Responded 401 read))).
  { intros status_code read st0 k Hcache Hk. cbn [fst snd].
    destruct (finish_spec env (Py.strip query) status_code read st0) as [_ Hres].
    cbv zeta in Hres.
    destruct (fst (finish env (Py.strip query) status_code read st0)) as [body|code].
    - destruct Hres as (_ & _ & Hget). split; [|split; discriminate].
      intros output [= <-] _. rewrite Hget, Hcache, Httl. reflexivity.
    - destruct Hres as [Hst H401]. split; [discriminate|]. split.
      + intros c _. now rewrite Hst.
      + intros [= ->]. specialize (H401 eq_refl). subst status_code.
        right. destruct Hk as [[-> Hk] | [-> Hk]]; [left | right]; eauto. }
  destruct (first_call env) as [status_code read|e] eqn:Hfirst.
  2:{ cbn. repeat split; try lia; try congruence; try discriminate; auto.
      - intros [= H]. destruct e; discriminate.
      - intros _ _ (r & Hr). discriminate. }
  destruct (status_code =? 401) eqn:H401.
  - apply Z.eqb_eq in H401. subst status_code.
    destruct (fetch_jwt_token env) as [[token|]|] eqn:Hrefresh.
    + cbn [rag_answer_cache].
      destruct (negb (Py.truthy token)) eqn:Htoken.
      { cbn. repeat split; try lia; try congruence; try discriminate; auto. }
      destruct (second_call env) as [status_code2 read2|e2] eqn:Hsecond.
      * destruct (Hfinish status_code2 read2 (mkState token cache) 2%nat eq_refl
                    ltac:(right; split; reflexivity)) as (H1 & H2 & H3).
        cbv zeta in H1, H2, H3. cbn [fst snd] in *.
        split; [lia|]. split; [intros ? [=]|]. split; [intros _ Hn; now elim Hn|].
        split; [exact H1|]. split; [exact H2|]. split; [exact H3|].
        intros _ _ _ Hfail. unfold refresh_fails in Hfail. rewrite Hrefresh in Hfail.
        apply negb_false_iff in Htoken.
        destruct Hfail as [Hf | (e & He)]; [congruence | congruence].
      * cbn. repeat split; try lia; try congruence; try discriminate; auto.
    + cbn. repeat split; try lia; try congruence; try discriminate; auto.
    + destruct (Hfinish 401 read (mkState (JWT_TOKEN st) cache) 1%nat eq_refl
                  ltac:(left; split; reflexivity)) as (H1 & H2 & H3).
      cbv zeta in H1, H2, H3. cbn [fst snd] in *.
      split; [lia|]. split; [intros ? [=]|]. split; [intros _ Hn; now elim Hn|].
      split; [exact H1|]. split; [exact H2|]. split; [exact H3|].
      intros _ _ _ Hfail. unfold refresh_fails in Hfail. now rewrite Hrefresh in Hfail.
  - destruct (Hfinish status_code read (mkState (JWT_TOKEN st) cache) 1%nat eq_refl
                ltac:(left; split; reflexivity)) as (H1 & H2 & H3).
    cbv zeta in H1, H2, H3. cbn [fst snd] in *.
    split; [lia|]. split; [intros ? [=]|]. split; [intros _ Hn; now elim Hn|].
    split; [exact H1|]. split; [exact H2|]. split; [exact H3|].
    intros _ _ (r & [= Hs _]) _. apply Z.eqb_neq in H401. contradiction.
Qed.

End Facts.

End RagRoutesFacts.
